(** * SIMS shipment-inspection dashboard: column reconciliation and analytics

    A shallow embedding of [assets/scripts/app.js] and the properties of its
    header normaliser, column resolver, status classifier, row-identity lookup
    and rollup builders.

    Conventions of the embedding.
    - A JavaScript string is the list of its code units; the development
      covers the code units below 256 (Latin-1), one [ascii] each.
    - A plain object is the list of its own properties in the order they
      were added; reading an own property is [get], assigning one is [set].
      Where the script reads an object of its own at a key that comes from
      the data, the read also finds the members inherited from
      [Object.prototype] ([lookup], [inherited]).  [Object.keys] lists the
      keys that are canonical integers first; the statements about the order
      of keys are made for objects without such keys ([isIntegerKey]).
    - Cell values are strings, a numeric cell standing for its [String]
      image; a cell that is [undefined] or [null] is an absent property.
    - Counters are exact integers ([Z]); the one place where the script
      leaves the integers, the completion percentage, is evaluated in IEEE
      binary64 with the operations of [SpecFloat].
    - The exported workbook is the list of its named sheets;
      [book_append_sheet] refuses a sheet name as the spreadsheet library
      does, and the export then writes nothing. *)

From Stdlib Require Import ZArith NArith Bool List Ascii String Lia.
From Stdlib Require Import SpecFloat DecimalString.
From Stdlib Require Import Sorting.Sorted Sorting.Permutation.
Import ListNotations.
Open Scope Z_scope.

(** ** Strings *)

Definition jsstring := list ascii.

Definition lit (s : string) : jsstring := list_ascii_of_string s.

Definition code (c : ascii) : N := N_of_ascii c.

Definition between (lo hi n : N) : bool := (lo <=? n)%N && (n <=? hi)%N.

(** WhiteSpace and LineTerminator code units: what [trim] strips and what
    [\s] matches. *)
Definition isWhiteSpace (c : ascii) : bool :=
  let n := code c in between 9 13 n || (n =? 32)%N || (n =? 160)%N.

(** [\w] *)
Definition isWordChar (c : ascii) : bool :=
  let n := code c in
  between 48 57 n || between 65 90 n || (n =? 95)%N || between 97 122 n.

Definition toLowerChar (c : ascii) : ascii :=
  let n := code c in
  if between 65 90 n || (between 192 222 n && negb (n =? 215)%N)
  then ascii_of_N (n + 32) else c.

(** Canonicalize of a case-insensitive, non-unicode regular expression: the
    upper-case form when it is a single code unit and does not move a
    non-ASCII unit into ASCII.  The images of U+00B5 and U+00FF lie above
    U+00FF and are shared with no Latin-1 code unit, so both stay put. *)
Definition canonicalizeChar (c : ascii) : ascii :=
  let n := code c in
  if between 97 122 n || (between 224 254 n && negb (n =? 247)%N)
  then ascii_of_N (n - 32) else c.

Definition toLowerCase (s : jsstring) : jsstring := map toLowerChar s.

Fixpoint dropWhile {A} (p : A -> bool) (l : list A) : list A :=
  match l with
  | [] => []
  | x :: l' => if p x then dropWhile p l' else l
  end.

Definition trimStart (s : jsstring) : jsstring := dropWhile isWhiteSpace s.
Definition trimEnd (s : jsstring) : jsstring := rev (dropWhile isWhiteSpace (rev s)).
Definition trim (s : jsstring) : jsstring := trimEnd (trimStart s).

Fixpoint eqb_str (a b : jsstring) : bool :=
  match a, b with
  | [], [] => true
  | x :: a', y :: b' => Ascii.eqb x y && eqb_str a' b'
  | _, _ => false
  end.

(** Order of the default [Array.prototype.sort]: code unit by code unit. *)
Fixpoint leb_str (a b : jsstring) : bool :=
  match a, b with
  | [], _ => true
  | _ :: _, [] => false
  | x :: a', y :: b' =>
      if (code x <? code y)%N then true
      else if (code y <? code x)%N then false
      else leb_str a' b'
  end.

Fixpoint startsWith (s p : jsstring) : bool :=
  match p, s with
  | [], _ => true
  | _ :: _, [] => false
  | y :: p', x :: s' => Ascii.eqb x y && startsWith s' p'
  end.

(** [s.includes(p)] *)
Fixpoint includes (s p : jsstring) : bool :=
  startsWith s p ||
  match s with
  | [] => false
  | _ :: s' => includes s' p
  end.

Definition endsWith (s p : jsstring) : bool := startsWith (rev s) (rev p).

(** [s.slice(0, -1)] *)
Definition dropLast (s : jsstring) : jsstring := removelast s.

(** [a.join(sep)] on an array of strings *)
Fixpoint join (sep : jsstring) (l : list jsstring) : jsstring :=
  match l with
  | [] => []
  | [x] => x
  | x :: l' => x ++ sep ++ join sep l'
  end.

(** A string is falsy exactly when it is empty. *)
Definition truthy (s : jsstring) : bool :=
  match s with [] => false | _ => true end.

(** [String(n)] for an integer-valued number *)
Definition Number_toString (z : Z) : jsstring :=
  lit (NilZero.string_of_int (Z.to_int z)).

(** ** Regular expressions

    The fragment the script uses: literals, [\s], sequence, alternation and
    star, matched with the [i] flag or without it. *)

Inductive regex : Type :=
| Never
| Eps
| Chr (c : ascii)
| Space
| Cat (r s : regex)
| Alt (r s : regex)
| Star (r : regex).

Definition charMatches (ignoreCase : bool) (c x : ascii) : bool :=
  if ignoreCase then Ascii.eqb (canonicalizeChar c) (canonicalizeChar x)
  else Ascii.eqb c x.

Fixpoint word (w : jsstring) : regex :=
  match w with
  | [] => Eps
  | c :: w' => Cat (Chr c) (word w')
  end.

Fixpoint nullable (r : regex) : bool :=
  match r with
  | Never => false
  | Eps => true
  | Chr _ => false
  | Space => false
  | Cat r s => nullable r && nullable s
  | Alt r s => nullable r || nullable s
  | Star _ => true
  end.

Fixpoint deriv (i : bool) (x : ascii) (r : regex) : regex :=
  match r with
  | Never => Never
  | Eps => Never
  | Chr c => if charMatches i c x then Eps else Never
  | Space => if isWhiteSpace x then Eps else Never
  | Cat r s =>
      Alt (Cat (deriv i x r) s) (if nullable r then deriv i x s else Never)
  | Alt r s => Alt (deriv i x r) (deriv i x s)
  | Star r => Cat (deriv i x r) (Star r)
  end.

(** The whole of [s] matches [r]: a pattern between [^] and [$]. *)
Fixpoint matchesAll (i : bool) (r : regex) (s : jsstring) : bool :=
  match s with
  | [] => nullable r
  | x :: s' => matchesAll i (deriv i x r) s'
  end.

(** Some prefix of [s] matches [r]. *)
Fixpoint matchesPrefix (i : bool) (r : regex) (s : jsstring) : bool :=
  nullable r ||
  match s with
  | [] => false
  | x :: s' => matchesPrefix i (deriv i x r) s'
  end.

(** [/r/.test(s)]: a match may start at any index. *)
Fixpoint test (i : bool) (r : regex) (s : jsstring) : bool :=
  matchesPrefix i r s ||
  match s with
  | [] => false
  | _ :: s' => test i r s'
  end.

(** The words a pattern denotes. *)
Inductive lang (i : bool) : regex -> jsstring -> Prop :=
| L_Eps : lang i Eps []
| L_Chr c x : charMatches i c x = true -> lang i (Chr c) [x]
| L_Space x : isWhiteSpace x = true -> lang i Space [x]
| L_Cat r s u v : lang i r u -> lang i s v -> lang i (Cat r s) (u ++ v)
| L_AltL r s u : lang i r u -> lang i (Alt r s) u
| L_AltR r s u : lang i s u -> lang i (Alt r s) u
| L_Star0 r : lang i (Star r) []
| L_StarS r u v : lang i r u -> lang i (Star r) v -> lang i (Star r) (u ++ v).

(** Vocabulary of the statements: equality up to case, and containment of
    a phrase up to case. *)
Definition eq_ci (a b : jsstring) : Prop :=
  map canonicalizeChar a = map canonicalizeChar b.

Definition contains_ci (w s : jsstring) : Prop :=
  exists pre mid post, s = pre ++ mid ++ post /\ eq_ci w mid.

(** The text holds "in" and "progress" with nothing but white space, if
    anything, between them, in any letter case. *)
Definition inProgressPhrase (s : jsstring) : Prop :=
  exists pre a gap b post,
    s = pre ++ a ++ gap ++ b ++ post /\
    eq_ci (lit "in") a /\
    Forall (fun x => isWhiteSpace x = true) gap /\
    eq_ci (lit "progress") b.

(** Every word of [r] starts and ends with a unit that is not white space. *)
Definition solid (r : regex) : Prop :=
  forall p, lang true r p ->
    (exists c p', p = c :: p' /\ isWhiteSpace c = false) /\
    (exists p' c, p = p' ++ [c] /\ isWhiteSpace c = false).

(** Some substring of [s] is a word of [r]. *)
Definition occurs (i : bool) (r : regex) (s : jsstring) : Prop :=
  exists a p q, s = a ++ p ++ q /\ lang i r p.

(** ** Plain objects *)

Definition dict (A : Type) := list (jsstring * A).

Fixpoint get {A} (o : dict A) (k : jsstring) : option A :=
  match o with
  | [] => None
  | (k', v) :: o' => if eqb_str k' k then Some v else get o' k
  end.

(** [o[k] = v]: an existing property keeps its place, a new one goes last
    (which is its place in [Object.keys] unless the key is a canonical
    integer). *)
Fixpoint set {A} (o : dict A) (k : jsstring) (v : A) : dict A :=
  match o with
  | [] => [(k, v)]
  | (k', v') :: o' =>
      if eqb_str k' k then (k', v) :: o' else (k', v') :: set o' k v
  end.

Definition keys {A} (o : dict A) : list jsstring := map fst o.
Definition values {A} (o : dict A) : list A := map snd o.

(** A row, raw or normalised: header to cell. *)
Definition object := dict jsstring.

(** [r[k] ?? ''] *)
Definition field (r : object) (k : jsstring) : jsstring :=
  match get r k with Some v => v | None => [] end.

(** [m[k]] read in a condition: present and not the empty string. *)
Definition getTruthy (m : object) (k : jsstring) : option jsstring :=
  match get m k with
  | Some v => if truthy v then Some v else None
  | None => None
  end.

(** The names of the members of [Object.prototype], which every plain
    object inherits; each of them is an object or a function, hence truthy. *)
Definition Object_prototype : list jsstring :=
  [lit "constructor"; lit "__proto__"; lit "hasOwnProperty"; lit "isPrototypeOf";
   lit "propertyIsEnumerable"; lit "toLocaleString"; lit "toString"; lit "valueOf";
   lit "__defineGetter__"; lit "__defineSetter__"; lit "__lookupGetter__";
   lit "__lookupSetter__"].

Definition inherited (k : jsstring) : bool := existsb (eqb_str k) Object_prototype.

(** What a read of a plain object with string cells can give: a string of
    its own, or the inherited member of that name. *)
Inductive jsvalue : Type :=
| Str (s : jsstring)
| Member (k : jsstring).

Definition truthyValue (v : jsvalue) : bool :=
  match v with
  | Str s => truthy s
  | Member _ => true
  end.

(** [o[k]]: the own property, else the inherited member, else [undefined]. *)
Definition lookup (o : object) (k : jsstring) : option jsvalue :=
  match get o k with
  | Some v => Some (Str v)
  | None => if inherited k then Some (Member k) else None
  end.

(** [o[k]] read in a condition and then returned. *)
Definition lookupTruthy (o : object) (k : jsstring) : option jsvalue :=
  match lookup o k with
  | Some v => if truthyValue v then Some v else None
  | None => None
  end.

(** [o[k] = v] for a string [v]: the key "__proto__" is the inherited
    setter, which ignores a string; any other key becomes an own property. *)
Definition assign (o : object) (k : jsstring) (v : jsstring) : object :=
  if eqb_str k (lit "__proto__") then o else set o k v.

(** A key that is a canonical integer: "0", or digits that do not start
    with "0".  [Object.keys] lists such keys before the others. *)
Definition isDigit (c : ascii) : bool := between 48 57 (code c).

Definition isIntegerKey (k : jsstring) : bool :=
  match k with
  | [] => false
  | c :: k' =>
      forallb isDigit k && (negb (Ascii.eqb c "0"%char) || match k' with [] => true | _ => false end)
  end.

(** ** Configuration *)

Definition EXPECTED_COLS : list jsstring :=
  [lit "NO"; lit "ContainerNum"; lit "BoxNum"; lit "Container"; lit "BoxName";
   lit "ItemCount"; lit "Kits"; lit "Factory"; lit "REMARKS"].

Definition COLUMN_ALIASES : object :=
  [(lit "basebox", lit "BoxNum");
   (lit "box no", lit "BoxNum");
   (lit "boxno", lit "BoxNum");
   (lit "box number", lit "BoxNum");
   (lit "box_number", lit "BoxNum");
   (lit "remark", lit "REMARKS");
   (lit "remarks", lit "REMARKS");
   (lit "status", lit "REMARKS");
   (lit "inspection status", lit "REMARKS")].

(** ** Header normaliser and column resolver *)

Definition isNbsp (c : ascii) : bool := (code c =? 160)%N.

Definition normalizeKey (str : jsstring) : jsstring :=
  toLowerCase
    (filter isWordChar
       (filter (fun c => negb (isNbsp c))
          (trim str))).

(** [None] is [null].  [COLUMN_ALIASES] is a plain object read at the
    normalised key, so the read also finds what the object inherits. *)
Definition canonicalColumnFor (header : jsstring) : option jsvalue :=
  let nk := normalizeKey header in
  if negb (truthy nk) then None
  else
    match find (fun c => eqb_str (normalizeKey c) nk) EXPECTED_COLS with
    | Some c => Some (Str c)
    | None =>
        match lookupTruthy COLUMN_ALIASES nk with
        | Some c => Some c
        | None =>
            if endsWith nk (lit "s")
            then lookupTruthy COLUMN_ALIASES (dropLast nk)
            else None
        end
    end.

Definition headerKeys (r : object) : list jsstring := keys r.

(** normalised key to original header; a later header with the same key
    replaces an earlier one.  The script reads the map at the keys of the
    canonical columns and of the aliases only. *)
Definition headerMap (r : object) : object :=
  fold_left (fun m h => set m (normalizeKey h) h) (headerKeys r) [].

(** [headerKeys.find(p)], kept only when the header found is truthy *)
Definition findHeader (p : jsstring -> bool) (r : object) : option jsstring :=
  match find p (headerKeys r) with
  | Some h => if truthy h then Some h else None
  | None => None
  end.

Definition orElse {A} (a : option A) (b : option A) : option A :=
  match a with Some _ => a | None => b end.

(** [foundOriginal] of the per-column callback of [addWorkbook] *)
Definition resolveColumn (r : object) (col : jsstring) : option jsstring :=
  let desiredNorm := normalizeKey col in
  let direct :=
    match getTruthy (headerMap r) desiredNorm with
    | Some h => Some h
    | None =>
        match find (fun kv => eqb_str (snd kv) col) COLUMN_ALIASES with
        | Some aliasCandidate => getTruthy (headerMap r) (fst aliasCandidate)
        | None => None
        end
    end in
  let equalKey :=
    findHeader (fun h => eqb_str (normalizeKey h) desiredNorm) r in
  let substring :=
    findHeader (fun h => let nh := normalizeKey h in
                         includes nh desiredNorm || includes desiredNorm nh) r in
  let aliasScan :=
    match find (fun kv => eqb_str (snd kv) col &&
                          match getTruthy (headerMap r) (fst kv) with
                          | Some _ => true | None => false end)
               COLUMN_ALIASES with
    | Some kv => getTruthy (headerMap r) (fst kv)
    | None => None
    end in
  orElse direct (orElse equalKey (orElse substring aliasScan)).

(** The callback of [rowsRaw.map] in [addWorkbook].  A header that
    [resolveColumn] returns is a key of [r], so [field] reads its cell.
    Whatever [canonicalColumnFor] returns other than [null] is truthy, and
    for the header "__proto__" it returns the inherited member, so the
    assignment of an extra always makes an own property. *)
Definition normalizeRow (r : object) : object :=
  let nr :=
    fold_left
      (fun nr col =>
         set nr col
           match resolveColumn r col with
           | Some foundOriginal => field r foundOriginal
           | None => []
           end)
      EXPECTED_COLS [] in
  fold_left
    (fun nr k =>
       match canonicalColumnFor k with
       | Some _ => nr
       | None => set nr k (field r k)
       end)
    (keys r) nr.

(** ** Status *)

Definition re_done : regex := word (lit "done").
Definition re_in_progress : regex :=
  Cat (word (lit "in")) (Cat (Star Space) (word (lit "progress"))).
Definition re_not_started_whole : regex :=
  Alt (word (lit "n/a")) (Alt (word (lit "na")) (word (lit "not started"))).
Definition re_in_progress_filter : regex :=
  Alt (word (lit "in progress")) (word (lit "inprogress")).
Definition re_not_started_filter : regex :=
  Alt (word (lit "not started")) (Alt (word (lit "n/a")) (word (lit "na"))).

Definition isCompleted (remarks : option jsstring) : bool :=
  match remarks with
  | None => false
  | Some s => test true re_done s
  end.

(** [String(x ?? '')] *)
Definition orEmpty (x : option jsstring) : jsstring :=
  match x with Some s => s | None => [] end.

Definition classifyStatus (remarks : option jsstring) : jsstring :=
  let rem := toLowerCase (trim (orEmpty remarks)) in
  if test true re_done rem then lit "Completed"
  else if test true re_in_progress rem then lit "In Progress"
  else if eqb_str rem [] || matchesAll true re_not_started_whole rem
       then lit "Not Started"
  else lit "Not Started".

(** The status part of the predicate of [allRows.filter] in
    [renderFilteredAndLive]: [false] drops the row. *)
Definition statusFilter (fStatus : jsstring) (r : object) : bool :=
  if negb (eqb_str fStatus (lit "all")) then
    let rem := toLowerCase (orEmpty (get r (lit "REMARKS"))) in
    let isDone := test true re_done rem in
    let isInProg := test true re_in_progress_filter rem in
    let isNotStarted :=
      eqb_str (trim rem) [] || test true re_not_started_filter rem in
    if eqb_str fStatus (lit "Finished") && negb isDone then false
    else if eqb_str fStatus (lit "In Progress") && negb isInProg then false
    else if eqb_str fStatus (lit "Not Started") && negb isNotStarted then false
    else if eqb_str fStatus (lit "Remaining") && isDone then false
    else true
  else true.

(** The whole predicate: factory, container, status and free-text search. *)
Definition rowVisible (fFactory fContainer fStatus q : jsstring) (r : object) : bool :=
  if negb (eqb_str fFactory (lit "all")) &&
     negb (eqb_str (field r (lit "Factory")) fFactory) then false
  else if negb (eqb_str fContainer (lit "all")) &&
          negb (eqb_str (field r (lit "ContainerNum")) fContainer) then false
  else if negb (statusFilter fStatus r) then false
  else if truthy q &&
          negb (includes (toLowerCase (join (lit " ") (values r))) q) then false
  else true.

(** ** Row identity and edits *)

Definition keyProps : list jsstring := [lit "NO"; lit "BoxNum"; lit "ContainerNum"].

Definition identifier (r : object) : jsstring :=
  join (lit "||") (map (field r) keyProps).

(** [findIndex]; [None] stands for [-1]. *)
Fixpoint findIndex {A} (p : A -> bool) (l : list A) : option nat :=
  match l with
  | [] => None
  | x :: l' => if p x then Some O else option_map S (findIndex p l')
  end.

Definition samePair (r rr : object) : bool :=
  eqb_str (field rr (lit "BoxNum")) (field r (lit "BoxNum")) &&
  eqb_str (field rr (lit "ContainerNum")) (field r (lit "ContainerNum")).

Definition findMatch (allRows : list object) (r : object) : option nat :=
  match findIndex (fun rr => eqb_str (identifier rr) (identifier r)) allRows with
  | Some idx => Some idx
  | None => findIndex (samePair r) allRows
  end.

Fixpoint updateAt {A} (idx : nat) (f : A -> A) (l : list A) : list A :=
  match l, idx with
  | [], _ => []
  | x :: l', O => f x :: l'
  | x :: l', S n => x :: updateAt n f l'
  end.

(** The body of the cell listeners of [renderTable]: the rows of the active
    file after an edit of column [c] made on the rendered row [r]. *)
Definition applyEdit (allRows : list object) (r : object) (c v : jsstring) : list object :=
  match findMatch allRows r with
  | Some idx => updateAt idx (fun row => set row c v) allRows
  | None => allRows
  end.

(** ** Percentages in binary64 *)

Definition prec : Z := 53.
Definition emax : Z := 1024.

(** A counter as the double that holds it (exact below 2^53). *)
Definition toDouble (z : Z) : spec_float := binary_normalize prec emax z 0 false.

(** [Math.round] of a finite double: the integer [floor (x + 1/2)], taken
    exactly.  (The script rounds a quotient whose divisor is not zero, so no
    infinity and no NaN reaches it.) *)
Definition Math_round (x : spec_float) : Z :=
  match x with
  | S754_finite s m e =>
      let n := if s then Z.neg m else Z.pos m in
      if 0 <=? e then n * 2 ^ e
      else (2 * n + 2 ^ (- e)) / (2 * 2 ^ (- e))
  | _ => 0
  end.

(** [total === 0 ? 0 : Math.round((finished / total) * 100)] *)
Definition percentOf (finished total : Z) : Z :=
  if total =? 0 then 0
  else Math_round
         (SFmul prec emax
            (SFdiv prec emax (toDouble finished) (toDouble total))
            (toDouble 100)).

(** The same percentage over the rationals, halves rounded up: the value
    [Math.round] gives when [100 * finished / total] is taken exactly. *)
Definition exactPercent (finished total : Z) : Z :=
  if total =? 0 then 0 else (200 * finished + total) / (2 * total).

Definition percentText (pct : Z) : jsstring := Number_toString pct ++ lit "%".

(** ** Aggregation *)

Fixpoint insertSorted (k : jsstring) (l : list jsstring) : list jsstring :=
  match l with
  | [] => [k]
  | k' :: l' => if leb_str k k' then k :: l else k' :: insertSorted k l'
  end.

(** [a.sort()] on an array of strings *)
Definition sort (l : list jsstring) : list jsstring :=
  fold_right insertSorted [] l.

Record counters : Type := { total : Z; finished : Z }.

Module AnalyticsRow.
Record t : Type :=
  { Container : jsstring;
    TotalBoxes : Z;
    Finished : Z;
    Remaining : Z;
    CompletionPercent : jsstring }.
End AnalyticsRow.

Module SummaryRow.
Record t : Type :=
  { Factory : jsstring;
    TotalBoxes : Z;
    Completed : Z;
    Remaining : Z;
    CompletionPercent : jsstring }.
End SummaryRow.

(** [String(r.ContainerNum ?? "NA")] *)
Definition containerOf (r : object) : jsstring :=
  match get r (lit "ContainerNum") with Some v => v | None => lit "NA" end.

(** One turn of the [rows.forEach] that fills [byContainer].  The read
    [byContainer[cont]] finds an inherited member when [cont] names one: the
    member is truthy, so no group is made, and the two increments go to
    properties of the member, not of [byContainer]. *)
Definition countRow (byContainer : dict counters) (r : object) : dict counters :=
  let cont := containerOf r in
  let byContainer :=
    match get byContainer cont with
    | Some _ => byContainer
    | None =>
        if inherited cont then byContainer
        else set byContainer cont {| total := 0; finished := 0 |}
    end in
  match get byContainer cont with
  | Some v =>
      set byContainer cont
        {| total := total v + 1;
           finished := if isCompleted (get r (lit "REMARKS"))
                       then finished v + 1 else finished v |}
  | None => byContainer
  end.

Definition zeroCounters : counters := {| total := 0; finished := 0 |}.

(** [byContainer[cont]] for a key taken from [Object.keys(byContainer)] *)
Definition countersAt (byContainer : dict counters) (cont : jsstring) : counters :=
  match get byContainer cont with Some v => v | None => zeroCounters end.

Definition analyticsRowOf (cont : jsstring) (v : counters) : AnalyticsRow.t :=
  {| AnalyticsRow.Container := cont;
     AnalyticsRow.TotalBoxes := total v;
     AnalyticsRow.Finished := finished v;
     AnalyticsRow.Remaining := total v - finished v;
     AnalyticsRow.CompletionPercent := percentText (percentOf (finished v) (total v)) |}.

(** [buildAnalytics]: the array handed to [json_to_sheet]. *)
Definition buildAnalytics (rows : list object) : list AnalyticsRow.t :=
  let byContainer := fold_left countRow rows [] in
  let '(out, acc) :=
    fold_left
      (fun '(out, acc) cont =>
         let v := countersAt byContainer cont in
         (out ++ [analyticsRowOf cont v],
          {| total := total acc + total v;
             finished := finished acc + finished v |}))
      (sort (keys byContainer))
      ([], zeroCounters) in
  out ++ [analyticsRowOf (lit "ALL") acc].

Definition factoryOrder : list jsstring := [lit "F200"; lit "F100"; lit "AIO"].

(** [r.Factory === fac] *)
Definition factoryIs (fac : jsstring) (r : object) : bool :=
  match get r (lit "Factory") with
  | Some f => eqb_str f fac
  | None => false
  end.

(** [r.Factory || "UNKNOWN"] *)
Definition factoryLabel (r : object) : jsstring :=
  match getTruthy r (lit "Factory") with
  | Some f => f
  | None => lit "UNKNOWN"
  end.

(** [[...new Set(a)]]: first occurrences, in order *)
Definition unique (a : list jsstring) : list jsstring :=
  fold_left
    (fun seen x => if existsb (eqb_str x) seen then seen else seen ++ [x])
    a [].

Definition factories (rows : list object) : list jsstring :=
  unique (map factoryLabel rows).

Definition summaryRowOf (fac : jsstring) (v : counters) : SummaryRow.t :=
  {| SummaryRow.Factory := fac;
     SummaryRow.TotalBoxes := total v;
     SummaryRow.Completed := finished v;
     SummaryRow.Remaining := total v - finished v;
     SummaryRow.CompletionPercent := percentText (percentOf (finished v) (total v)) |}.

(** [buildSummarySheet]: the [summaryData] array. *)
Definition buildSummarySheet (rows : list object) : list SummaryRow.t :=
  let '(summaryData, acc) :=
    fold_left
      (fun '(summaryData, acc) fac =>
         let filtered := filter (factoryIs fac) rows in
         if (Z.of_nat (List.length filtered) =? 0) then (summaryData, acc)
         else
           let v :=
             {| total := Z.of_nat (List.length filtered);
                finished :=
                  Z.of_nat (List.length (filter (fun r => isCompleted (get r (lit "REMARKS")))
                                           filtered)) |} in
           (summaryData ++ [summaryRowOf fac v],
            {| total := total acc + total v;
               finished := finished acc + finished v |}))
      factoryOrder
      ([], zeroCounters) in
  summaryData ++ [summaryRowOf (lit "ALL") acc].

(** [`Analytics_${fac}`.replace(/[^A-Za-z0-9_]/g, "")] *)
Definition safeSheetName (fac : jsstring) : jsstring :=
  filter isWordChar (lit "Analytics_" ++ fac).

(** The row of the Data sheet. *)
Definition dataRow (r : object) : object :=
  let out := fold_left (fun out c => set out c (field r c)) EXPECTED_COLS [] in
  fold_left
    (fun out k =>
       if existsb (eqb_str k) EXPECTED_COLS then out else assign out k (field r k))
    (keys r) out.

Inductive sheet : Type :=
| DataSheet (rows : list object)
| AnalyticsSheet (rows : list AnalyticsRow.t)
| SummarySheet (rows : list SummaryRow.t).

(** The per-factory sheets appended by [factories.forEach]. *)
Definition factorySheets (rows : list object) : list (jsstring * sheet) :=
  map (fun fac =>
         (safeSheetName fac,
          AnalyticsSheet (buildAnalytics (filter (factoryIs fac) rows))))
      (factories rows).

(** [XLSX.utils.book_append_sheet(wb, ws, name)] of the spreadsheet library.
    It throws, here [None], for a name of more than 31 units and for a name
    the workbook already has.  (Its other checks, for a blank name and for
    the characters a sheet name must not have, cannot fail on the names the
    script passes.) *)
Definition book_append_sheet (wb : list (jsstring * sheet)) (ws : sheet) (name : jsstring)
  : option (list (jsstring * sheet)) :=
  if (31 <? List.length name)%nat then None
  else if existsb (eqb_str name) (map fst wb) then None
  else Some (wb ++ [(name, ws)]).

(** One turn of [factories.forEach]; an exception ends the export. *)
Definition appendFactorySheet (wb : option (list (jsstring * sheet)))
           (named : jsstring * sheet) : option (list (jsstring * sheet)) :=
  match wb with
  | Some wb => book_append_sheet wb (snd named) (fst named)
  | None => None
  end.

(** [exportWorkbookWithAnalytics]: the sheets of the workbook handed to
    [XLSX.writeFile], in the order they are appended; [None] when an append
    throws and no file is written. *)
Definition exportWorkbookWithAnalytics (rows : list object)
  : option (list (jsstring * sheet)) :=
  match book_append_sheet [] (DataSheet (map dataRow rows)) (lit "Data") with
  | None => None
  | Some wb =>
      match book_append_sheet wb (AnalyticsSheet (buildAnalytics rows)) (lit "Analytics") with
      | None => None
      | Some wb =>
          match fold_left appendFactorySheet (factorySheets rows) (Some wb) with
          | None => None
          | Some wb =>
              book_append_sheet wb (SummarySheet (buildSummarySheet rows)) (lit "Summary")
          end
      end
  end.


(** ** File keys *)

(** [s.replace(/\s+/g, '_')]: every maximal run of white space becomes one
    underscore.  [inRun] says that the unit before was white space. *)
Fixpoint replaceSpaceRuns (inRun : bool) (s : jsstring) : jsstring :=
  match s with
  | [] => []
  | x :: s' =>
      if isWhiteSpace x
      then if inRun then replaceSpaceRuns true s'
           else "_"%char :: replaceSpaceRuns true s'
      else x :: replaceSpaceRuns false s'
  end.

(** [[a-zA-Z0-9_\-\.]] *)
Definition isKeyChar (c : ascii) : bool :=
  isWordChar c || (code c =? 45)%N || (code c =? 46)%N.

Definition makeKey (name : jsstring) : jsstring :=
  toLowerCase (filter isKeyChar (replaceSpaceRuns false name)).

(** ** Loading a workbook *)

(** A parsed workbook: its sheets in [SheetNames] order, each with the rows
    [sheet_to_json] gives for it. *)
Definition workbook := list (jsstring * list object).

Definition SheetNames (wb : workbook) : list jsstring := map fst wb.

(** [SheetNames.find(s => s.toLowerCase() === 'f200_boxes') || SheetNames[0]];
    [None] when there is no sheet and [addWorkbook] returns at once. *)
Definition targetSheet (wb : workbook) : option jsstring :=
  match SheetNames wb with
  | [] => None
  | first :: _ =>
      match find (fun s => eqb_str (toLowerCase s) (lit "f200_boxes")) (SheetNames wb) with
      | Some s => if truthy s then Some s else Some first
      | None => Some first
      end
  end.

Record fileEntry : Type :=
  { name : jsstring;
    sheetName : jsstring;
    rows : list object;
    columns : list jsstring }.

(** The state the script keeps: the loaded files and the key of the active
    one ([None] for [null]). *)
Record appState : Type :=
  { files : dict fileEntry;
    activeKey : option jsstring }.

(** [normalized[0] ? Object.keys(normalized[0]) : EXPECTED_COLS.slice()] *)
Definition columnsOf (normalized : list object) : list jsstring :=
  match normalized with
  | first :: _ => keys first
  | [] => EXPECTED_COLS
  end.

(** [!activeKey] *)
Definition noActiveKey (st : appState) : bool :=
  match activeKey st with
  | Some k => negb (truthy k)
  | None => true
  end.

(** [addWorkbook], as far as the state goes: the entry stored under [key]
    and the choice of the active file ([setActiveFile] finds the entry just
    stored).  What it draws on the page is left out.  [files[key] = entry]
    makes an own property for every key but "__proto__", for which it would
    replace the prototype of [files]; the statements leave that key out. *)
Definition addWorkbook (st : appState) (key name : jsstring) (wb : workbook) : appState :=
  match targetSheet wb with
  | None => st
  | Some target =>
      let rowsRaw := match get wb target with Some rs => rs | None => [] end in
      let normalized := map normalizeRow rowsRaw in
      let entry :=
        {| name := name; sheetName := target; rows := normalized;
           columns := columnsOf normalized |} in
      {| files := set (files st) key entry;
         activeKey := if noActiveKey st then Some key else activeKey st |}
  end.

(** ** Filter controls *)

(** The values that [buildFactoryFilter] writes into the option list. *)
Definition factoryFilterValues (allRows : list object) : list jsstring :=
  lit "all" ::
  sort (unique (filter truthy (map (fun r => trim (field r (lit "Factory"))) allRows))).

(** The visibility test of the Apply-to-all handler, statement by statement. *)
Definition applyAllVisible (fFactory fContainer fStatus q : jsstring) (r : object) : bool :=
  let visible := true in
  let visible :=
    if negb (eqb_str fFactory (lit "all")) &&
       negb (eqb_str (field r (lit "Factory")) fFactory) then false else visible in
  let visible :=
    if negb (eqb_str fContainer (lit "all")) &&
       negb (eqb_str (field r (lit "ContainerNum")) fContainer) then false else visible in
  let rem := toLowerCase (orEmpty (get r (lit "REMARKS"))) in
  let isDone := test true re_done rem in
  let isInProg := test true re_in_progress_filter rem in
  let isNotStarted :=
    eqb_str (trim rem) [] || test true re_not_started_filter rem in
  let visible :=
    if eqb_str fStatus (lit "Finished") && negb isDone then false else visible in
  let visible :=
    if eqb_str fStatus (lit "In Progress") && negb isInProg then false else visible in
  let visible :=
    if eqb_str fStatus (lit "Not Started") && negb isNotStarted then false else visible in
  let visible :=
    if eqb_str fStatus (lit "Remaining") && isDone then false else visible in
  let visible :=
    if truthy q &&
       negb (includes (toLowerCase (join (lit " ") (values r))) q) then false else visible in
  visible.

(** The Apply-to-all handler: [val] goes into REMARKS of every visible row. *)
Definition applyAll (fFactory fContainer fStatus q val : jsstring)
           (allRows : list object) : list object :=
  map (fun r =>
         if applyAllVisible fFactory fContainer fStatus q r
         then set r (lit "REMARKS") val else r)
      allRows.

(** The background colour of the REMARKS dropdown of a row. *)
Definition remarksColor (remarks : option jsstring) : jsstring :=
  let v := toLowerCase (orEmpty remarks) in
  if eqb_str v (lit "done") then lit "#66FF66"
  else if eqb_str v (lit "in progress") then lit "#FFF867"
  else [].

(** ** Summary cards and charts *)

Record summaryCards : Type :=
  { cardTotal : Z;
    cardCompleted : Z;
    cardInProgress : Z;
    cardNotStarted : Z;
    cardRemaining : Z;
    cardPercent : Z }.

(** One turn of the [rows.forEach] of [renderSummary]: the three counters. *)
Definition countStatus (acc : Z * Z * Z) (r : object) : Z * Z * Z :=
  let '(completed, inProgress, notStarted) := acc in
  let s := classifyStatus (get r (lit "REMARKS")) in
  if eqb_str s (lit "Completed") then (completed + 1, inProgress, notStarted)
  else if eqb_str s (lit "In Progress") then (completed, inProgress + 1, notStarted)
  else if eqb_str s (lit "Not Started") then (completed, inProgress, notStarted + 1)
  else acc.

(** The numbers [renderSummary] writes into the cards. *)
Definition renderSummary (rows : list object) : summaryCards :=
  let total := Z.of_nat (List.length rows) in
  let '(completed, inProgress, notStarted) := fold_left countStatus rows (0, 0, 0) in
  {| cardTotal := total;
     cardCompleted := completed;
     cardInProgress := inProgress;
     cardNotStarted := notStarted;
     cardRemaining := inProgress + notStarted;
     cardPercent := percentOf completed total |}.

Record chartData : Type :=
  { labels : list jsstring;
    finishedData : list Z;
    remainingData : list Z;
    donutFinished : Z;
    donutRemaining : Z }.

(** The data [renderCharts] hands to the bar chart and to the doughnut. *)
Definition renderCharts (rows : list object) : chartData :=
  let byContainer := fold_left countRow rows [] in
  let labels := sort (keys byContainer) in
  let totals :=
    fold_left
      (fun acc l =>
         {| total := total acc + total (countersAt byContainer l);
            finished := finished acc + finished (countersAt byContainer l) |})
      labels zeroCounters in
  {| labels := labels;
     finishedData := map (fun l => finished (countersAt byContainer l)) labels;
     remainingData :=
       map (fun l => total (countersAt byContainer l) - finished (countersAt byContainer l))
           labels;
     donutFinished := finished totals;
     donutRemaining := Z.max 0 (total totals - finished totals) |}.

(** ** Vocabulary for edits and rollups *)

(** [i] is the first index of [l] whose element satisfies [P]. *)
Definition firstIndex {A} (P : A -> Prop) (l : list A) (i : nat) : Prop :=
  (exists x, nth_error l i = Some x /\ P x) /\
  (forall j x, (j < i)%nat -> nth_error l j = Some x -> ~ P x).


Definition inGroup (k : jsstring) (r : object) : bool := eqb_str (containerOf r) k.

Definition isDone (r : object) : bool := isCompleted (get r (lit "REMARKS")).

(** The counters of a set of rows: how many, and how many are done. *)
Definition tally (rows : list object) : counters :=
  {| total := Z.of_nat (List.length rows);
     finished := Z.of_nat (List.length (filter isDone rows)) |}.

Definition addCounters (a b : counters) : counters :=
  {| total := total a + total b; finished := finished a + finished b |}.

(** A row is counted by the rollup unless its container key names a member
    that [byContainer] inherits. *)
Definition counted (r : object) : bool := negb (inherited (containerOf r)).

(** The distinct group keys of a dataset, in order of first appearance. *)
Definition groupKeys (rows : list object) : list jsstring :=
  unique (map containerOf (filter counted rows)).

(** The other cells of the Data sheet row: every key but the canonical
    columns, written before, and "__proto__", whose assignment makes no
    property. *)
Definition otherKey (k : jsstring) : bool :=
  negb (existsb (eqb_str k) EXPECTED_COLS || eqb_str k (lit "__proto__")).

(** * Properties *)

(** ** Strings and objects *)

Lemma eqb_str_eq (a b : jsstring) : eqb_str a b = true <-> a = b.
Proof.
  revert b; induction a as [|x a IH]; intros [|y b]; simpl; split;
    try discriminate; try reflexivity.
  - intros H. apply andb_true_iff in H as [Hx Hab].
    apply Ascii.eqb_eq in Hx. apply IH in Hab. congruence.
  - intros H. injection H as -> ->.
    rewrite Ascii.eqb_refl. simpl. now apply IH.
Qed.

Lemma eqb_str_refl (a : jsstring) : eqb_str a a = true.
Proof. now apply eqb_str_eq. Qed.

Lemma eqb_str_neq (a b : jsstring) : eqb_str a b = false <-> a <> b.
Proof.
  split.
  - intros H E. apply eqb_str_eq in E. congruence.
  - intros H. destruct (eqb_str a b) eqn:E; [|reflexivity].
    apply eqb_str_eq in E. contradiction.
Qed.

Lemma get_set_same {A} (o : dict A) k v : get (set o k v) k = Some v.
Proof.
  induction o as [|[k' v'] o IH]; simpl.
  - now rewrite eqb_str_refl.
  - destruct (eqb_str k' k) eqn:E; simpl; now rewrite E.
Qed.

Lemma get_set_other {A} (o : dict A) k k' v :
  k <> k' -> get (set o k v) k' = get o k'.
Proof.
  intros Hne. induction o as [|[k0 v0] o IH]; simpl.
  - apply eqb_str_neq in Hne. now rewrite Hne.
  - destruct (eqb_str k0 k) eqn:E; simpl.
    + apply eqb_str_eq in E. subst k0.
      apply eqb_str_neq in Hne. now rewrite Hne.
    + destruct (eqb_str k0 k'); [reflexivity | exact IH].
Qed.

Lemma get_None_keys {A} (o : dict A) k : get o k = None <-> ~ In k (keys o).
Proof.
  induction o as [|[k' v'] o IH]; simpl.
  - tauto.
  - destruct (eqb_str k' k) eqn:E.
    + apply eqb_str_eq in E. split; [discriminate | intros H; exfalso; auto].
    + apply eqb_str_neq in E. rewrite IH. tauto.
Qed.

Lemma get_Some_keys {A} (o : dict A) k v : get o k = Some v -> In k (keys o).
Proof.
  intros H. destruct (in_dec (list_eq_dec ascii_dec) k (keys o)) as [Hin|Hn];
    [exact Hin|].
  apply get_None_keys in Hn. congruence.
Qed.

Lemma keys_set_in {A} (o : dict A) k v : In k (keys o) -> keys (set o k v) = keys o.
Proof.
  induction o as [|[k' v'] o IH]; simpl; [tauto|].
  intros H. destruct (eqb_str k' k) eqn:E; simpl; [reflexivity|].
  apply eqb_str_neq in E. f_equal. apply IH. destruct H; congruence.
Qed.

Lemma keys_set_new {A} (o : dict A) k v :
  ~ In k (keys o) -> keys (set o k v) = keys o ++ [k].
Proof.
  induction o as [|[k' v'] o IH]; simpl; [reflexivity|].
  intros H. destruct (eqb_str k' k) eqn:E; simpl.
  - apply eqb_str_eq in E. exfalso; auto.
  - f_equal. apply IH. tauto.
Qed.

Lemma dropWhile_split {A} (p : A -> bool) (l : list A) :
  exists w, l = w ++ dropWhile p l /\ Forall (fun x => p x = true) w.
Proof.
  induction l as [|x l [w [E F]]]; simpl.
  - exists []. split; [reflexivity | constructor].
  - destruct (p x) eqn:Px.
    + exists (x :: w). split; [simpl; congruence | now constructor].
    + exists []. split; [reflexivity | constructor].
Qed.

Lemma dropWhile_map {A} (p : A -> bool) (f : A -> A) (l : list A) :
  (forall x, p (f x) = p x) -> dropWhile p (map f l) = map f (dropWhile p l).
Proof.
  intros H. induction l as [|x l IH]; simpl; [reflexivity|].
  rewrite H. now destruct (p x).
Qed.

Lemma trimEnd_split (s : jsstring) :
  exists w, s = trimEnd s ++ w /\ Forall (fun x => isWhiteSpace x = true) w.
Proof.
  unfold trimEnd. destruct (dropWhile_split isWhiteSpace (rev s)) as [w [E F]].
  exists (rev w). split.
  - rewrite <- rev_app_distr, <- E. now rewrite rev_involutive.
  - apply Forall_rev. exact F.
Qed.

Lemma trim_split (s : jsstring) :
  exists w1 w2, s = w1 ++ trim s ++ w2 /\
                Forall (fun x => isWhiteSpace x = true) w1 /\
                Forall (fun x => isWhiteSpace x = true) w2.
Proof.
  unfold trim.
  destruct (dropWhile_split isWhiteSpace s) as [w1 [E1 F1]].
  destruct (trimEnd_split (trimStart s)) as [w2 [E2 F2]].
  exists w1, w2. unfold trimStart in *. split; [|tauto].
  now rewrite <- E2.
Qed.

Lemma canon_lower (c : ascii) : canonicalizeChar (toLowerChar c) = canonicalizeChar c.
Proof. destruct c as [[] [] [] [] [] [] [] []]; reflexivity. Qed.

Lemma space_lower (c : ascii) : isWhiteSpace (toLowerChar c) = isWhiteSpace c.
Proof. destruct c as [[] [] [] [] [] [] [] []]; reflexivity. Qed.

Lemma canon_idem (c : ascii) : canonicalizeChar (canonicalizeChar c) = canonicalizeChar c.
Proof. destruct c as [[] [] [] [] [] [] [] []]; reflexivity. Qed.

Lemma space_canon (c : ascii) : isWhiteSpace (canonicalizeChar c) = isWhiteSpace c.
Proof. destruct c as [[] [] [] [] [] [] [] []]; reflexivity. Qed.

Lemma trim_lower (s : jsstring) : trim (toLowerCase s) = toLowerCase (trim s).
Proof.
  unfold trim, trimStart, trimEnd, toLowerCase.
  rewrite (dropWhile_map _ _ _ space_lower).
  rewrite <- map_rev, (dropWhile_map _ _ _ space_lower).
  now rewrite map_rev.
Qed.

(** ** The matcher computes the language *)

Section Matcher.
Variable i : bool.

Lemma lang_Cat_inv (r s : regex) (w : jsstring) :
  lang i (Cat r s) w -> exists u v, w = u ++ v /\ lang i r u /\ lang i s v.
Proof. intros H. inversion H; subst. eauto. Qed.

Lemma lang_Alt_inv (r s : regex) (w : jsstring) :
  lang i (Alt r s) w -> lang i r w \/ lang i s w.
Proof. intros H. inversion H; subst; tauto. Qed.

Lemma lang_Chr_inv (c : ascii) (w : jsstring) :
  lang i (Chr c) w -> exists x, w = [x] /\ charMatches i c x = true.
Proof. intros H. inversion H; subst. eauto. Qed.

Lemma lang_Space_inv (w : jsstring) :
  lang i Space w -> exists x, w = [x] /\ isWhiteSpace x = true.
Proof. intros H. inversion H; subst. eauto. Qed.

Lemma lang_Eps_inv (w : jsstring) : lang i Eps w -> w = [].
Proof. intros H. now inversion H. Qed.

Lemma lang_Never_inv (w : jsstring) : ~ lang i Never w.
Proof. intros H. inversion H. Qed.

Lemma nullable_lang (r : regex) : nullable r = true <-> lang i r [].
Proof.
  induction r as [| |c| |r1 IH1 r2 IH2|r1 IH1 r2 IH2|r IH]; simpl; split; intros H;
    try discriminate; try reflexivity; try (now constructor).
  - now apply lang_Never_inv in H.
  - apply lang_Chr_inv in H as [x [E _]]. discriminate.
  - apply lang_Space_inv in H as [x [E _]]. discriminate.
  - apply andb_true_iff in H as [H1 H2].
    change (@nil ascii) with (@nil ascii ++ []). constructor; tauto.
  - apply lang_Cat_inv in H as [u [v [E [Hu Hv]]]]. symmetry in E.
    apply app_eq_nil in E as [-> ->]. apply andb_true_iff. tauto.
  - apply orb_true_iff in H as [H|H]; [apply L_AltL | apply L_AltR]; tauto.
  - apply orb_true_iff. apply lang_Alt_inv in H. tauto.
Qed.

Lemma star_cons (r : regex) (x : ascii) (s : jsstring) :
  lang i (Star r) (x :: s) ->
  exists u v, s = u ++ v /\ lang i r (x :: u) /\ lang i (Star r) v.
Proof.
  intros H. remember (Star r) as R eqn:ER. remember (x :: s) as w eqn:Ew.
  revert s Ew.
  induction H as [| | | | | | |r' u v Hu _ Hv IHv]; intros s0 Ew;
    try discriminate.
  injection ER as ->. destruct u as [|y u]; simpl in Ew.
  - apply IHv; [reflexivity | exact Ew].
  - injection Ew as E1 E2. subst y s0. exists u, v. tauto.
Qed.

Lemma deriv_lang (x : ascii) (r : regex) (s : jsstring) :
  lang i (deriv i x r) s <-> lang i r (x :: s).
Proof.
  revert s. induction r as [| |c| |r1 IH1 r2 IH2|r1 IH1 r2 IH2|r IH];
    intros s; simpl.
  - split; intros H; now apply lang_Never_inv in H.
  - split; intros H; [now apply lang_Never_inv in H|].
    apply lang_Eps_inv in H. discriminate.
  - destruct (charMatches i c x) eqn:E; split; intros H.
    + apply lang_Eps_inv in H. subst. now constructor.
    + apply lang_Chr_inv in H as [y [Ey _]]. injection Ey as -> ->. constructor.
    + now apply lang_Never_inv in H.
    + apply lang_Chr_inv in H as [y [Ey Hy]]. injection Ey as -> ->. congruence.
  - destruct (isWhiteSpace x) eqn:E; split; intros H.
    + apply lang_Eps_inv in H. subst. now constructor.
    + apply lang_Space_inv in H as [y [Ey _]]. injection Ey as -> ->. constructor.
    + now apply lang_Never_inv in H.
    + apply lang_Space_inv in H as [y [Ey Hy]]. injection Ey as -> ->. congruence.
  - split; intros H.
    + apply lang_Alt_inv in H as [H|H].
      * apply lang_Cat_inv in H as [u [v [-> [Hu Hv]]]].
        apply IH1 in Hu. change (x :: u ++ v) with ((x :: u) ++ v).
        now constructor.
      * destruct (nullable r1) eqn:N; [|now apply lang_Never_inv in H].
        apply IH2 in H. apply nullable_lang in N.
        change (x :: s) with ([] ++ x :: s). now constructor.
    + apply lang_Cat_inv in H as [u [v [E [Hu Hv]]]].
      destruct u as [|y u]; simpl in E.
      * subst v. apply L_AltR. apply nullable_lang in Hu. rewrite Hu.
        now apply IH2.
      * injection E as E1 E2. subst y s. apply L_AltL.
        constructor; [now apply IH1 | exact Hv].
  - split; intros H.
    + apply lang_Alt_inv in H as [H|H];
        [apply L_AltL; now apply IH1 | apply L_AltR; now apply IH2].
    + apply lang_Alt_inv in H as [H|H];
        [apply L_AltL; now apply IH1 | apply L_AltR; now apply IH2].
  - split; intros H.
    + apply lang_Cat_inv in H as [u [v [-> [Hu Hv]]]].
      apply IH in Hu. change (x :: u ++ v) with ((x :: u) ++ v).
      now constructor.
    + apply star_cons in H as [u [v [-> [Hu Hv]]]].
      constructor; [now apply IH | exact Hv].
Qed.

Lemma matchesAll_lang (r : regex) (s : jsstring) :
  matchesAll i r s = true <-> lang i r s.
Proof.
  revert r. induction s as [|x s IH]; intros r; simpl.
  - apply nullable_lang.
  - rewrite IH. apply deriv_lang.
Qed.

Lemma matchesPrefix_lang (r : regex) (s : jsstring) :
  matchesPrefix i r s = true <-> exists p q, s = p ++ q /\ lang i r p.
Proof.
  revert r. induction s as [|x s IH]; intros r; simpl.
  - rewrite orb_false_r, nullable_lang. split.
    + intros H. now exists [], [].
    + intros [p [q [E H]]]. symmetry in E. apply app_eq_nil in E as [-> _].
      exact H.
  - rewrite orb_true_iff, nullable_lang, IH. split.
    + intros [H | [p [q [E H]]]].
      * now exists [], (x :: s).
      * exists (x :: p), q. subst s. split; [reflexivity | now apply deriv_lang].
    + intros [[|y p] [q [E H]]].
      * now left.
      * injection E as -> ->. right. exists p, q.
        split; [reflexivity | now apply deriv_lang].
Qed.

Lemma test_occurs (r : regex) (s : jsstring) : test i r s = true <-> occurs i r s.
Proof.
  unfold occurs. induction s as [|x s IH]; cbn [test].
  - rewrite orb_false_r, matchesPrefix_lang. split.
    + intros [p [q [E H]]]. now exists [], p, q.
    + intros [a [p [q [E H]]]]. symmetry in E.
      apply app_eq_nil in E as [-> E]. now exists p, q.
  - rewrite orb_true_iff, matchesPrefix_lang, IH. split.
    + intros [[p [q [E H]]] | [a [p [q [E H]]]]].
      * now exists [], p, q.
      * exists (x :: a), p, q. subst s. tauto.
    + intros [[|y a] [p [q [E H]]]].
      * left. now exists p, q.
      * injection E as -> ->. right. now exists a, p, q.
Qed.
End Matcher.

(** ** Case-insensitive search *)

Lemma lang_word (w p : jsstring) : lang true (word w) p <-> eq_ci w p.
Proof.
  unfold eq_ci. revert p. induction w as [|c w IH]; intros p; simpl; split; intros H.
  - apply lang_Eps_inv in H. now subst.
  - symmetry in H. apply map_eq_nil in H. subst. constructor.
  - apply lang_Cat_inv in H as [u [v [-> [Hu Hv]]]].
    apply lang_Chr_inv in Hu as [x [-> Hx]]. apply IH in Hv.
    simpl in *. apply Ascii.eqb_eq in Hx. congruence.
  - destruct p as [|x p]; [discriminate|]. simpl in H. injection H as Hx Hp.
    change (x :: p) with ([x] ++ p). constructor; [|now apply IH].
    constructor. simpl. rewrite Hx. apply Ascii.eqb_refl.
Qed.

Lemma test_word (w s : jsstring) :
  test true (word w) s = true <-> contains_ci w s.
Proof.
  rewrite test_occurs. unfold occurs, contains_ci.
  split; intros [a [p [q [E H]]]]; exists a, p, q; split; trivial;
    now apply lang_word.
Qed.

Lemma lang_spaces (g : jsstring) :
  lang true (Star Space) g <-> Forall (fun x => isWhiteSpace x = true) g.
Proof.
  split.
  - induction g as [|x g IH]; intros H; [constructor|].
    apply star_cons in H as [u [v [-> [Hu Hv]]]].
    apply lang_Space_inv in Hu as [y [E Hy]]. injection E as E1 E2. subst y u.
    constructor; [exact Hy | now apply IH].
  - induction 1 as [|x g Hx _ IH]; [constructor|].
    change (x :: g) with ([x] ++ g). constructor; [now constructor | exact IH].
Qed.

Lemma occurs_in_progress (s : jsstring) :
  occurs true re_in_progress s <-> inProgressPhrase s.
Proof.
  unfold occurs, inProgressPhrase, re_in_progress. split.
  - intros [pre [p [post [-> H]]]].
    apply lang_Cat_inv in H as [a [v [-> [Ha H]]]].
    apply lang_Cat_inv in H as [g [b [-> [Hg Hb]]]].
    exists pre, a, g, b, post. rewrite <- !app_assoc.
    repeat split; trivial; try (now apply lang_word). now apply lang_spaces.
  - intros [pre [a [g [b [post [-> [Ha [Hg Hb]]]]]]]].
    exists pre, (a ++ g ++ b), post. rewrite <- !app_assoc. split; [reflexivity|].
    constructor; [now apply lang_word|].
    constructor; [now apply lang_spaces | now apply lang_word].
Qed.

Lemma deriv_congr (x y : ascii) (r : regex) :
  canonicalizeChar x = canonicalizeChar y ->
  isWhiteSpace x = isWhiteSpace y ->
  deriv true x r = deriv true y r.
Proof.
  intros Hc Hs.
  induction r as [| |c| |r1 IH1 r2 IH2|r1 IH1 r2 IH2|r IH]; simpl;
    unfold charMatches; rewrite ?Hc, ?Hs, ?IH1, ?IH2, ?IH; reflexivity.
Qed.

Section Relabel.
Variable f : ascii -> ascii.
Hypothesis f_canon : forall x, canonicalizeChar (f x) = canonicalizeChar x.
Hypothesis f_space : forall x, isWhiteSpace (f x) = isWhiteSpace x.

Lemma matchesPrefix_map (s : jsstring) (r : regex) :
  matchesPrefix true r (map f s) = matchesPrefix true r s.
Proof.
  revert r. induction s as [|x s IH]; intros r; simpl; [reflexivity|].
  now rewrite (deriv_congr (f x) x), IH.
Qed.

Lemma matchesAll_map (s : jsstring) (r : regex) :
  matchesAll true r (map f s) = matchesAll true r s.
Proof.
  revert r. induction s as [|x s IH]; intros r; simpl; [reflexivity|].
  now rewrite (deriv_congr (f x) x), IH.
Qed.

Lemma test_map (s : jsstring) (r : regex) :
  test true r (map f s) = test true r s.
Proof.
  induction s as [|x s IH]; [reflexivity|].
  change (map f (x :: s)) with (f x :: map f s). cbn [test].
  rewrite IH. f_equal. apply (matchesPrefix_map (x :: s)).
Qed.
End Relabel.

Lemma test_lower (r : regex) (s : jsstring) :
  test true r (toLowerCase s) = test true r s.
Proof. apply test_map; [apply canon_lower | apply space_lower]. Qed.

Lemma test_canon (r : regex) (s : jsstring) :
  test true r (map canonicalizeChar s) = test true r s.
Proof. apply test_map; [apply canon_idem | apply space_canon]. Qed.

(** ** Trimming does not change what a solid pattern finds *)

Lemma occurs_drop_head (r : regex) (x : ascii) (s : jsstring) :
  solid r -> isWhiteSpace x = true ->
  occurs true r (x :: s) -> occurs true r s.
Proof.
  intros Hr Hx [[|y a] [p [q [E H]]]].
  - destruct (Hr p H) as [[c [p' [-> Hc]]] _]. simpl in E.
    injection E as E1 E2. congruence.
  - injection E as E1 E2. now exists a, p, q.
Qed.

Lemma occurs_drop_last (r : regex) (x : ascii) (s : jsstring) :
  solid r -> isWhiteSpace x = true ->
  occurs true r (s ++ [x]) -> occurs true r s.
Proof.
  intros Hr Hx [a [p [q [E H]]]].
  destruct q as [|y q _] using rev_ind.
  - destruct (Hr p H) as [_ [p' [c [-> Hc]]]].
    rewrite app_nil_r, app_assoc in E. apply app_inj_tail in E as [_ E].
    congruence.
  - rewrite !app_assoc in E. apply app_inj_tail in E as [E _].
    exists a, p, q. now rewrite <- app_assoc in E.
Qed.

Lemma occurs_trim (r : regex) (s : jsstring) :
  solid r -> occurs true r (trim s) <-> occurs true r s.
Proof.
  intros Hr. destruct (trim_split s) as [w1 [w2 [E [F1 F2]]]]. split.
  - intros [a [p [q [Et H]]]]. exists (w1 ++ a), p, (q ++ w2).
    split; [|exact H]. rewrite E at 1. rewrite Et. now rewrite <- !app_assoc.
  - intros H. rewrite E in H. clear E.
    assert (H1 : occurs true r (trim s ++ w2)).
    { induction F1 as [|x w1 Hx _ IH]; [exact H|].
      apply IH. now apply (occurs_drop_head r x). }
    clear H F1. revert H1 F2. generalize (trim s). intros t.
    induction w2 as [|x w2 IH] using rev_ind; intros H F2.
    + now rewrite app_nil_r in H.
    + apply Forall_app in F2 as [F2 Fx]. inversion Fx as [|? ? Hx _]; subst.
      rewrite app_assoc in H. apply IH; [|exact F2].
      now apply (occurs_drop_last r x).
Qed.

Lemma test_trim (r : regex) (s : jsstring) :
  solid r -> test true r (trim s) = test true r s.
Proof.
  intros Hr. apply eq_true_iff_eq. rewrite !test_occurs. now apply occurs_trim.
Qed.

Lemma eq_ci_app (u v p : jsstring) :
  eq_ci (u ++ v) p -> exists pu pv, p = pu ++ pv /\ eq_ci u pu /\ eq_ci v pv.
Proof.
  unfold eq_ci. rewrite map_app. intros H. symmetry in H.
  apply map_eq_app in H as [pu [pv [-> [Hu Hv]]]]. exists pu, pv. auto.
Qed.

Lemma eq_ci_single (c : ascii) (p : jsstring) :
  eq_ci [c] p -> exists x, p = [x] /\ isWhiteSpace x = isWhiteSpace c.
Proof.
  unfold eq_ci. destruct p as [|x [|y p]]; try discriminate.
  simpl. intros H. injection H as H. exists x. split; [reflexivity|].
  now rewrite <- (space_canon x), <- H, space_canon.
Qed.

Lemma solid_between (c d : ascii) (r : regex) :
  isWhiteSpace c = false -> isWhiteSpace d = false ->
  (forall p, lang true r p -> exists a m b, p = a ++ m ++ b /\ eq_ci [c] a /\ eq_ci [d] b) ->
  solid r.
Proof.
  intros Hc Hd Hr p Hp. destruct (Hr p Hp) as [a [m [b [-> [Ha Hb]]]]].
  apply eq_ci_single in Ha as [x [-> Hx]]. apply eq_ci_single in Hb as [y [-> Hy]].
  split.
  - exists x, (m ++ [y]). split; [reflexivity | congruence].
  - exists ([x] ++ m), y. split; [now rewrite <- app_assoc | congruence].
Qed.

Lemma solid_done : solid re_done.
Proof.
  apply (solid_between "d" "e"); try reflexivity.
  intros p Hp. apply lang_word in Hp.
  change (lit "done") with ([ "d"%char ] ++ lit "on" ++ [ "e"%char ]) in Hp.
  apply eq_ci_app in Hp as [a [p' [-> [Ha Hp]]]].
  apply eq_ci_app in Hp as [m [b [-> [Hm Hb]]]]. now exists a, m, b.
Qed.

Lemma solid_in_progress : solid re_in_progress.
Proof.
  apply (solid_between "i" "s"); try reflexivity.
  intros p Hp. unfold re_in_progress in Hp.
  apply lang_Cat_inv in Hp as [u [v [-> [Hu Hv]]]].
  apply lang_Cat_inv in Hv as [g [w [-> [Hg Hw]]]].
  apply lang_word in Hu, Hw.
  change (lit "in") with ([ "i"%char ] ++ lit "n") in Hu.
  change (lit "progress") with (lit "progres" ++ [ "s"%char ]) in Hw.
  apply eq_ci_app in Hu as [a [n [-> [Ha Hn]]]].
  apply eq_ci_app in Hw as [m [b [-> [Hm Hb]]]].
  exists a, (n ++ g ++ m), b. rewrite <- !app_assoc. auto.
Qed.

(** ** The classifier, rule by rule *)

(** A row counts as finished exactly when its REMARKS hold "done" in any
    letter case; an absent REMARKS is not finished. *)
Lemma isCompleted_contains (remarks : option jsstring) :
  isCompleted remarks = true <->
  exists s, remarks = Some s /\ contains_ci (lit "done") s.
Proof.
  destruct remarks as [s|]; simpl.
  - fold re_done. rewrite (test_word (lit "done") s). split.
    + intros H. now exists s.
    + intros [s' [E H]]. injection E as ->. exact H.
  - split; [discriminate | intros [s [E _]]; discriminate].
Qed.

Lemma classifyStatus_unfold (remarks : option jsstring) :
  classifyStatus remarks =
    if test true re_done (orEmpty remarks) then lit "Completed"
    else if test true re_in_progress (orEmpty remarks) then lit "In Progress"
    else lit "Not Started".
Proof.
  unfold classifyStatus.
  rewrite !test_lower, (test_trim _ _ solid_done), (test_trim _ _ solid_in_progress).
  destruct (test true re_done _); [reflexivity|].
  destruct (test true re_in_progress _); [reflexivity|].
  now destruct (_ || _).
Qed.

Lemma test_in_progress (s : jsstring) :
  test true re_in_progress s = true <-> inProgressPhrase s.
Proof. rewrite test_occurs. apply occurs_in_progress. Qed.

Lemma spaced_in_progress (s : jsstring) :
  contains_ci (lit "in progress") s -> inProgressPhrase s.
Proof.
  intros [pre [mid [post [-> H]]]].
  change (lit "in progress") with (lit "in" ++ [ " "%char ] ++ lit "progress") in H.
  apply eq_ci_app in H as [a [p [-> [Ha H]]]].
  apply eq_ci_app in H as [g [b [-> [Hg Hb]]]].
  apply eq_ci_single in Hg as [x [-> Hx]].
  exists pre, a, [x], b, post. rewrite <- !app_assoc.
  repeat split; trivial. constructor; [exact Hx | constructor].
Qed.

Lemma unspaced_in_progress (s : jsstring) :
  contains_ci (lit "inprogress") s -> inProgressPhrase s.
Proof.
  intros [pre [mid [post [-> H]]]].
  change (lit "inprogress") with (lit "in" ++ lit "progress") in H.
  apply eq_ci_app in H as [a [b [-> [Ha Hb]]]].
  exists pre, a, [], b, post. rewrite <- !app_assoc.
  repeat split; trivial.
Qed.

(** C2.  [classifyStatus] applies its rules in order, the first that fits
    deciding: a text that holds "done" in any letter case is Completed;
    failing that, a text that holds "in" and "progress" with at most white
    space between them (so both "in progress" and "inprogress") is In
    Progress; every other text, blank or not, one of the tokens n/a, na, not
    started or not, is Not Started.  A text holding an in-progress phrase and
    "done" is therefore Completed, as are the examples of the specification. *)
Theorem classifyStatus_first_match (remarks : option jsstring) :
  let text := orEmpty remarks in
  (contains_ci (lit "done") text -> classifyStatus remarks = lit "Completed") /\
  (~ contains_ci (lit "done") text -> inProgressPhrase text ->
     classifyStatus remarks = lit "In Progress") /\
  (contains_ci (lit "in progress") text \/ contains_ci (lit "inprogress") text ->
     inProgressPhrase text) /\
  (~ contains_ci (lit "done") text -> ~ inProgressPhrase text ->
     classifyStatus remarks = lit "Not Started") /\
  (inProgressPhrase text -> contains_ci (lit "done") text ->
     classifyStatus remarks = lit "Completed") /\
  classifyStatus (Some (lit "IN-PROGRESS-ish text with done later")) = lit "Completed" /\
  classifyStatus (Some (lit "in progress")) = lit "In Progress" /\
  classifyStatus (Some (lit "inprogress")) = lit "In Progress" /\
  classifyStatus (Some (lit "")) = lit "Not Started" /\
  classifyStatus (Some (lit "N/A")) = lit "Not Started" /\
  classifyStatus (Some (lit "pending")) = lit "Not Started" /\
  classifyStatus None = lit "Not Started".
Proof.
  intros text. rewrite classifyStatus_unfold. fold text.
  pose proof (test_word (lit "done") text) as Hd. fold re_done in Hd.
  pose proof (test_in_progress text) as Hp.
  repeat split; try reflexivity.
  - intros H. apply Hd in H. now rewrite H.
  - intros Hn H. apply Hp in H. rewrite H.
    destruct (test true re_done text); [|reflexivity]. exfalso. tauto.
  - intros [H|H]; [now apply spaced_in_progress | now apply unspaced_in_progress].
  - intros Hn Hn'.
    destruct (test true re_done text); [exfalso; tauto|].
    destruct (test true re_in_progress text); [exfalso; tauto | reflexivity].
  - intros _ H. apply Hd in H. now rewrite H.
Qed.

Lemma classifyStatus_first_match_witness :
  classifyStatus (Some (lit "In  Progress")) = lit "In Progress" /\
  classifyStatus (Some (lit "almost DONE, still in progress")) = lit "Completed".
Proof.
  split.
  - apply (proj1 (proj2 (classifyStatus_first_match (Some (lit "In  Progress"))))).
    + intros H. apply test_word in H. discriminate H.
    + apply test_in_progress. reflexivity.
  - apply (proj1 (classifyStatus_first_match
                    (Some (lit "almost DONE, still in progress")))).
    apply test_word. reflexivity.
Defined.

(** ** The status filter against the classifier *)

Lemma statusFilter_Finished (r : object) :
  statusFilter (lit "Finished") r =
  test true re_done (orEmpty (get r (lit "REMARKS"))).
Proof.
  unfold statusFilter.
  change (eqb_str (lit "Finished") (lit "all")) with false.
  change (eqb_str (lit "Finished") (lit "Finished")) with true.
  change (eqb_str (lit "Finished") (lit "In Progress")) with false.
  change (eqb_str (lit "Finished") (lit "Not Started")) with false.
  change (eqb_str (lit "Finished") (lit "Remaining")) with false.
  cbn [negb andb]. rewrite test_lower.
  now destruct (test true re_done _).
Qed.

Lemma statusFilter_InProgress (r : object) :
  statusFilter (lit "In Progress") r =
  test true re_in_progress_filter (orEmpty (get r (lit "REMARKS"))).
Proof.
  unfold statusFilter.
  change (eqb_str (lit "In Progress") (lit "all")) with false.
  change (eqb_str (lit "In Progress") (lit "Finished")) with false.
  change (eqb_str (lit "In Progress") (lit "In Progress")) with true.
  change (eqb_str (lit "In Progress") (lit "Not Started")) with false.
  change (eqb_str (lit "In Progress") (lit "Remaining")) with false.
  cbn [negb andb]. rewrite test_lower.
  now destruct (test true re_in_progress_filter _).
Qed.

Lemma statusFilter_NotStarted (r : object) :
  statusFilter (lit "Not Started") r =
  eqb_str (trim (orEmpty (get r (lit "REMARKS")))) [] ||
  test true re_not_started_filter (orEmpty (get r (lit "REMARKS"))).
Proof.
  unfold statusFilter.
  change (eqb_str (lit "Not Started") (lit "all")) with false.
  change (eqb_str (lit "Not Started") (lit "Finished")) with false.
  change (eqb_str (lit "Not Started") (lit "In Progress")) with false.
  change (eqb_str (lit "Not Started") (lit "Not Started")) with true.
  change (eqb_str (lit "Not Started") (lit "Remaining")) with false.
  cbn [negb andb]. rewrite test_lower, trim_lower.
  replace (eqb_str (toLowerCase (trim (orEmpty (get r (lit "REMARKS"))))) [])
    with (eqb_str (trim (orEmpty (get r (lit "REMARKS")))) []).
  - now destruct (_ || _).
  - unfold toLowerCase. now destruct (trim _).
Qed.

(** With no factory, container or search constraint the row predicate of
    [renderFilteredAndLive] is its status part. *)
Lemma rowVisible_status_only (fStatus : jsstring) (r : object) :
  rowVisible (lit "all") (lit "all") fStatus [] r = statusFilter fStatus r.
Proof.
  unfold rowVisible.
  change (eqb_str (lit "all") (lit "all")) with true. cbn [negb andb truthy].
  now destruct (statusFilter fStatus r).
Qed.

Lemma test_Alt (r1 r2 : regex) (s : jsstring) :
  test true (Alt r1 r2) s = true <-> test true r1 s = true \/ test true r2 s = true.
Proof.
  rewrite !test_occurs. unfold occurs. split.
  - intros [a [p [q [E H]]]]. apply lang_Alt_inv in H as [H|H];
      [left | right]; now exists a, p, q.
  - intros [[a [p [q [E H]]]] | [a [p [q [E H]]]]]; exists a, p, q;
      (split; [exact E|]); [now apply L_AltL | now apply L_AltR].
Qed.

Lemma whole_occurs (w s : jsstring) :
  eq_ci w (trim s) -> test true (word w) s = true.
Proof.
  intros H. apply test_word. destruct (trim_split s) as [w1 [w2 [E _]]].
  now exists w1, (trim s), w2.
Qed.

Lemma test_whole (r : regex) (w s : jsstring) :
  solid r -> eq_ci w (trim s) ->
  test true r s = test true r (map canonicalizeChar w).
Proof.
  intros Hr H. rewrite <- (test_trim r s Hr), <- (test_canon r (trim s)).
  now rewrite <- H.
Qed.

(** What the inline predicates of the status filter test.  The Finished
    selection keeps a row exactly when [classifyStatus] calls its REMARKS
    Completed.  The In Progress
    selection keeps exactly the rows whose REMARKS hold "in progress" or
    "inprogress" in any letter case; the classifier calls each of them
    Completed or In Progress.  The Not Started selection keeps exactly the
    rows whose REMARKS are blank once trimmed or hold "not started", "n/a"
    or "na" anywhere; a row whose REMARKS are blank or are, as a whole, one
    of those tokens is kept by it and is Not Started for the classifier. *)
Lemma statusFilter_against_classifyStatus (r : object) :
  let remarks := get r (lit "REMARKS") in
  let text := orEmpty remarks in
  (statusFilter (lit "Finished") r = true <->
     classifyStatus remarks = lit "Completed") /\
  (statusFilter (lit "In Progress") r = true <->
     contains_ci (lit "in progress") text \/ contains_ci (lit "inprogress") text) /\
  (statusFilter (lit "In Progress") r = true ->
     classifyStatus remarks = lit "Completed" \/
     classifyStatus remarks = lit "In Progress") /\
  (statusFilter (lit "Not Started") r = true <->
     trim text = [] \/ contains_ci (lit "not started") text \/
     contains_ci (lit "n/a") text \/ contains_ci (lit "na") text) /\
  (trim text = [] \/ eq_ci (lit "n/a") (trim text) \/
   eq_ci (lit "na") (trim text) \/ eq_ci (lit "not started") (trim text) ->
     statusFilter (lit "Not Started") r = true /\
     classifyStatus remarks = lit "Not Started").
Proof.
  intros remarks text.
  rewrite statusFilter_Finished, statusFilter_InProgress, statusFilter_NotStarted.
  fold remarks text. rewrite classifyStatus_unfold. fold text.
  assert (Hinprog : test true re_in_progress_filter text = true <->
            contains_ci (lit "in progress") text \/ contains_ci (lit "inprogress") text).
  { unfold re_in_progress_filter. now rewrite test_Alt, !test_word. }
  assert (Hns : test true re_not_started_filter text = true <->
            contains_ci (lit "not started") text \/
            contains_ci (lit "n/a") text \/ contains_ci (lit "na") text).
  { unfold re_not_started_filter. now rewrite !test_Alt, !test_word. }
  split; [|split; [|split; [|split]]].
  - destruct (test true re_done text); [tauto|].
    destruct (test true re_in_progress text); split; discriminate.
  - exact Hinprog.
  - intros H. apply Hinprog in H.
    assert (Hp : test true re_in_progress text = true).
    { apply test_in_progress.
      destruct H; [now apply spaced_in_progress | now apply unspaced_in_progress]. }
    rewrite Hp. destruct (test true re_done text); tauto.
  - rewrite orb_true_iff, eqb_str_eq, Hns. tauto.
  - intros H. rewrite orb_true_iff, eqb_str_eq.
    destruct H as [H | H].
    + split; [now left|].
      rewrite <- (test_trim _ text solid_done),
              <- (test_trim _ text solid_in_progress), H.
      reflexivity.
    + assert (Hw : exists w, In w [lit "n/a"; lit "na"; lit "not started"] /\
                             eq_ci w (trim text)).
      { destruct H as [H | [H | H]]; eexists; (split; [|exact H]); simpl; tauto. }
      destruct Hw as [w [Hin Hw]]. split.
      * right. apply Hns. apply whole_occurs in Hw. apply test_word in Hw.
        simpl in Hin. destruct Hin as [<- | [<- | [<- | []]]]; tauto.
      * rewrite (test_whole _ w text solid_done Hw),
                (test_whole _ w text solid_in_progress Hw).
        simpl in Hin. destruct Hin as [<- | [<- | [<- | []]]]; reflexivity.
Qed.

Lemma statusFilter_against_classifyStatus_witness :
  statusFilter (lit "Not Started") [(lit "REMARKS", lit "  N/A ")] = true /\
  classifyStatus (Some (lit "  N/A ")) = lit "Not Started".
Proof.
  apply (proj2 (proj2 (proj2 (proj2
    (statusFilter_against_classifyStatus [(lit "REMARKS", lit "  N/A ")]))))).
  right. left. reflexivity.
Defined.

(** C6, where the code leaves it.  The status filter does not reuse
    [classifyStatus]: it tests patterns of its own, without the order of the
    rules, without anchoring "n/a", "na" and "not started" to the whole text
    and without the rule that any other text is Not Started.  For the
    classifier "pending" is Not Started and "done, was in progress" is
    Completed, yet the Not Started selection drops the first and the In
    Progress selection keeps the second, so the filter and the classifier
    are not equivalent. *)
Theorem statusFilter_differs_from_classifyStatus :
  (classifyStatus (Some (lit "pending")) = lit "Not Started" /\
   statusFilter (lit "Not Started") [(lit "REMARKS", lit "pending")] = false) /\
  (classifyStatus (Some (lit "done, was in progress")) = lit "Completed" /\
   statusFilter (lit "In Progress") [(lit "REMARKS", lit "done, was in progress")] = true) /\
  ~ (forall (fStatus category : jsstring) (r : object),
       In (fStatus, category)
          [(lit "Finished", lit "Completed");
           (lit "In Progress", lit "In Progress");
           (lit "Not Started", lit "Not Started")] ->
       (statusFilter fStatus r = true <->
        classifyStatus (get r (lit "REMARKS")) = category)).
Proof.
  split; [split; reflexivity|]. split; [split; reflexivity|].
  intros H.
  specialize (H (lit "Not Started") (lit "Not Started")
                [(lit "REMARKS", lit "pending")]).
  assert (Hin : In (lit "Not Started", lit "Not Started")
          [(lit "Finished", lit "Completed");
           (lit "In Progress", lit "In Progress");
           (lit "Not Started", lit "Not Started")]) by (simpl; tauto).
  apply H in Hin. destruct Hin as [_ Hback].
  assert (E : statusFilter (lit "Not Started") [(lit "REMARKS", lit "pending")] = false)
    by reflexivity.
  rewrite E in Hback. discriminate Hback. reflexivity.
Qed.

(** ** Row identity *)

Lemma identifier_unfold (r : object) :
  identifier r =
  field r (lit "NO") ++ lit "||" ++ field r (lit "BoxNum") ++ lit "||" ++
  field r (lit "ContainerNum").
Proof. reflexivity. Qed.

Lemma split_at_bar (a a' x x' : jsstring) :
  ~ In "|"%char a -> ~ In "|"%char a' ->
  a ++ "|"%char :: x = a' ++ "|"%char :: x' -> a = a' /\ x = x'.
Proof.
  revert a'. induction a as [|c a IH]; intros [|c' a'] Ha Ha' E; simpl in *.
  - injection E as E. auto.
  - injection E as E1 E2. exfalso. apply Ha'. now left.
  - injection E as E1 E2. exfalso. apply Ha. now left.
  - injection E as E1 E2. subst c'.
    destruct (IH a') as [-> ->]; auto.
Qed.

(** C9, as the code has it.  The key of a row is its NO, BoxNum and
    ContainerNum values (an absent one read as the empty string) joined with
    the fixed separator "||"; nothing keeps the separator out of the values.
    For two rows whose NO and BoxNum values hold no "|", the keys are equal
    exactly when the three values are pairwise equal. *)
Theorem identifier_injective_without_bar (r1 r2 : object) :
  ~ In "|"%char (field r1 (lit "NO")) ->
  ~ In "|"%char (field r1 (lit "BoxNum")) ->
  ~ In "|"%char (field r2 (lit "NO")) ->
  ~ In "|"%char (field r2 (lit "BoxNum")) ->
  identifier r1 =
    field r1 (lit "NO") ++ lit "||" ++ field r1 (lit "BoxNum") ++ lit "||" ++
    field r1 (lit "ContainerNum") /\
  (identifier r1 = identifier r2 <->
   field r1 (lit "NO") = field r2 (lit "NO") /\
   field r1 (lit "BoxNum") = field r2 (lit "BoxNum") /\
   field r1 (lit "ContainerNum") = field r2 (lit "ContainerNum")).
Proof.
  intros H1 H2 H3 H4. split; [reflexivity|].
  rewrite !identifier_unfold. split.
  - intros E. change (lit "||") with [ "|"%char; "|"%char ] in E. simpl in E.
    apply split_at_bar in E as [E1 E]; trivial.
    injection E as E. apply split_at_bar in E as [E2 E]; trivial.
    injection E as E. auto.
  - intros [-> [-> ->]]. reflexivity.
Qed.

Lemma identifier_injective_without_bar_witness :
  identifier [(lit "NO", lit "3"); (lit "BoxNum", lit "7"); (lit "ContainerNum", lit "2")]
  = lit "3||7||2" /\
  identifier [(lit "NO", lit "3"); (lit "BoxNum", lit "7"); (lit "ContainerNum", lit "2")]
  <> identifier [(lit "NO", lit "3"); (lit "BoxNum", lit "7")].
Proof.
  pose proof (identifier_injective_without_bar
    [(lit "NO", lit "3"); (lit "BoxNum", lit "7"); (lit "ContainerNum", lit "2")]
    [(lit "NO", lit "3"); (lit "BoxNum", lit "7")]) as H.
  destruct H as [H1 H2].
  - simpl. intros [E | [ ]]. discriminate E.
  - simpl. intros [E | [ ]]. discriminate E.
  - simpl. intros [E | [ ]]. discriminate E.
  - simpl. intros [E | [ ]]. discriminate E.
  - split; [exact H1|]. intros E. apply H2 in E as [_ [_ E]]. discriminate E.
Defined.

(** C9 as stated fails: nothing keeps "|" out of the values, and two rows
    with different NO and BoxNum values can share one key. *)
Lemma identifier_not_injective :
  let r1 := [(lit "NO", lit "1|"); (lit "BoxNum", lit "2"); (lit "ContainerNum", lit "3")] in
  let r2 := [(lit "NO", lit "1"); (lit "BoxNum", lit "|2"); (lit "ContainerNum", lit "3")] in
  identifier r1 = lit "1|||2||3" /\
  identifier r2 = lit "1|||2||3" /\
  field r1 (lit "NO") <> field r2 (lit "NO") /\
  ~ (forall a b : object,
       identifier a = identifier b <->
       field a (lit "NO") = field b (lit "NO") /\
       field a (lit "BoxNum") = field b (lit "BoxNum") /\
       field a (lit "ContainerNum") = field b (lit "ContainerNum")).
Proof.
  intros r1 r2. split; [reflexivity|]. split; [reflexivity|].
  split; [discriminate|].
  intros H. destruct (H r1 r2) as [Hk _].
  destruct (Hk eq_refl) as [E _]. discriminate E.
Qed.

(** ** Edits *)

Lemma findIndex_Some {A} (p : A -> bool) (l : list A) (i : nat) :
  findIndex p l = Some i -> firstIndex (fun x => p x = true) l i.
Proof.
  revert i. induction l as [|x l IH]; intros i; simpl; [discriminate|].
  destruct (p x) eqn:Px.
  - intros E. injection E as <-. split.
    + now exists x.
    + intros j y Hj. lia.
  - destruct (findIndex p l) as [k|]; [|discriminate].
    intros E. injection E as <-. destruct (IH k eq_refl) as [Hk Hlt]. split.
    + exact Hk.
    + intros [|j] y Hj; simpl; intros Ey.
      * injection Ey as <-. congruence.
      * apply (Hlt j); [lia | exact Ey].
Qed.

Lemma findIndex_None {A} (p : A -> bool) (l : list A) :
  findIndex p l = None -> forall x, In x l -> p x = false.
Proof.
  induction l as [|y l IH]; simpl; [tauto|].
  destruct (p y) eqn:Py; [discriminate|].
  destruct (findIndex p l); [discriminate|].
  intros _ x [<- | Hin]; auto.
Qed.

Lemma firstIndex_unique {A} (P : A -> Prop) (l : list A) (i j : nat) :
  firstIndex P l i -> firstIndex P l j -> i = j.
Proof.
  intros [[x [Ex Px]] Hi] [[y [Ey Py]] Hj].
  destruct (Nat.lt_trichotomy i j) as [Hlt | [E | Hlt]]; [|exact E|].
  - exfalso. exact (Hj i x Hlt Ex Px).
  - exfalso. exact (Hi j y Hlt Ey Py).
Qed.

Lemma firstIndex_iff {A} (P Q : A -> Prop) (l : list A) (i : nat) :
  (forall x, P x <-> Q x) -> firstIndex P l i -> firstIndex Q l i.
Proof.
  intros H [[x [Ex Px]] Hi]. split.
  - exists x. split; [exact Ex | now apply H].
  - intros j y Hj Ey Qy. apply (Hi j y Hj Ey). now apply H.
Qed.

Lemma findIndex_first {A} (p : A -> bool) (l : list A) (i : nat) :
  firstIndex (fun x => p x = true) l i -> findIndex p l = Some i.
Proof.
  intros Hi. destruct (findIndex p l) as [k|] eqn:E.
  - f_equal. apply findIndex_Some in E. exact (firstIndex_unique _ _ _ _ E Hi).
  - destruct Hi as [[x [Ex Px]] _]. apply nth_error_In in Ex.
    rewrite (findIndex_None p l E x Ex) in Px. discriminate.
Qed.

Lemma length_updateAt {A} (i : nat) (f : A -> A) (l : list A) :
  List.length (updateAt i f l) = List.length l.
Proof.
  revert i. induction l as [|x l IH]; intros [|i]; simpl; auto.
Qed.

Lemma nth_error_updateAt_same {A} (i : nat) (f : A -> A) (l : list A) :
  nth_error (updateAt i f l) i = option_map f (nth_error l i).
Proof.
  revert i. induction l as [|x l IH]; intros [|i]; simpl; auto.
Qed.

Lemma nth_error_updateAt_other {A} (i j : nat) (f : A -> A) (l : list A) :
  j <> i -> nth_error (updateAt i f l) j = nth_error l j.
Proof.
  revert i j. induction l as [|x l IH]; intros [|i] [|j] H; simpl; auto.
  contradiction.
Qed.

Lemma samePair_iff (r rr : object) :
  samePair r rr = true <->
  field rr (lit "BoxNum") = field r (lit "BoxNum") /\
  field rr (lit "ContainerNum") = field r (lit "ContainerNum").
Proof. unfold samePair. now rewrite andb_true_iff, !eqb_str_eq. Qed.

(** C5, as the code has it.  An edit made on a rendered row goes to the
    first row of the dataset whose joined key ([identifier]) equals that of
    the rendered row; when no row has that key, to the first row with the
    same BoxNum and ContainerNum; when there is no such row either, the
    dataset is returned as it was.  The row that is hit gets the new value in
    the edited column and keeps its other cells; every other row, and the
    number of rows, stay as they were, so of several rows with one key only
    the first changes. *)
Theorem applyEdit_first_match (allRows : list object) (r : object) (c v : jsstring) :
  let sameKey := fun rr => identifier rr = identifier r in
  let samePairOf := fun rr =>
    field rr (lit "BoxNum") = field r (lit "BoxNum") /\
    field rr (lit "ContainerNum") = field r (lit "ContainerNum") in
  let write := fun row : object => set row c v in
  (forall i, firstIndex sameKey allRows i ->
     applyEdit allRows r c v = updateAt i write allRows) /\
  ((forall rr, In rr allRows -> ~ sameKey rr) ->
   forall i, firstIndex samePairOf allRows i ->
     applyEdit allRows r c v = updateAt i write allRows) /\
  ((forall rr, In rr allRows -> ~ sameKey rr /\ ~ samePairOf rr) ->
     applyEdit allRows r c v = allRows) /\
  (forall i row, nth_error allRows i = Some row ->
     nth_error (updateAt i write allRows) i = Some (write row) /\
     get (write row) c = Some v /\
     (forall k, k <> c -> get (write row) k = get row k)) /\
  (forall i j, j <> i ->
     nth_error (updateAt i write allRows) j = nth_error allRows j) /\
  (forall i, List.length (updateAt i write allRows) = List.length allRows).
Proof.
  intros sameKey samePairOf write. unfold applyEdit, findMatch.
  split; [|split; [|split; [|split; [|split]]]].
  - intros i Hi.
    rewrite (findIndex_first (fun rr => eqb_str (identifier rr) (identifier r)) allRows i).
    + reflexivity.
    + apply (firstIndex_iff sameKey); [|exact Hi].
      intros x. unfold sameKey. now rewrite eqb_str_eq.
  - intros Hno i Hi.
    destruct (findIndex (fun rr => eqb_str (identifier rr) (identifier r)) allRows)
      as [k|] eqn:E.
    + apply findIndex_Some in E as [[x [Ex Px]] _]. apply nth_error_In in Ex.
      apply eqb_str_eq in Px. exfalso. exact (Hno x Ex Px).
    + rewrite (findIndex_first (samePair r) allRows i); [reflexivity|].
      apply (firstIndex_iff samePairOf); [|exact Hi].
      intros x. symmetry. apply samePair_iff.
  - intros Hno.
    destruct (findIndex (fun rr => eqb_str (identifier rr) (identifier r)) allRows)
      as [k|] eqn:E.
    + apply findIndex_Some in E as [[x [Ex Px]] _]. apply nth_error_In in Ex.
      apply eqb_str_eq in Px. exfalso. exact (proj1 (Hno x Ex) Px).
    + destruct (findIndex (samePair r) allRows) as [k|] eqn:E'; [|reflexivity].
      apply findIndex_Some in E' as [[x [Ex Px]] _]. apply nth_error_In in Ex.
      apply samePair_iff in Px. exfalso. exact (proj2 (Hno x Ex) Px).
  - intros i row Hrow. rewrite nth_error_updateAt_same, Hrow. split; [reflexivity|].
    split; [apply get_set_same|].
    intros k Hk. apply get_set_other. congruence.
  - intros i j Hij. now apply nth_error_updateAt_other.
  - intros i. apply length_updateAt.
Qed.

Lemma applyEdit_first_match_witness :
  let row1 := [(lit "NO", lit "3"); (lit "BoxNum", lit "7");
               (lit "ContainerNum", lit "2"); (lit "REMARKS", lit "")] in
  let row0 := [(lit "NO", lit "1"); (lit "BoxNum", lit "7");
               (lit "ContainerNum", lit "2"); (lit "REMARKS", lit "")] in
  applyEdit [row0; row1; row1] row1 (lit "REMARKS") (lit "Done")
  = [row0; set row1 (lit "REMARKS") (lit "Done"); row1].
Proof.
  intros row1 row0.
  apply (proj1 (applyEdit_first_match [row0; row1; row1] row1
                  (lit "REMARKS") (lit "Done")) 1%nat).
  split.
  - exists row1. split; reflexivity.
  - intros [|[|j]] x Hj Ex; [|lia|lia].
    injection Ex as <-. discriminate.
Defined.

(** C5 as stated fails: the lookup compares joined keys, not triples.  The
    rendered row below has the triple of the second row only, and the edit
    lands on the first. *)
Lemma applyEdit_not_by_triple :
  let row0 := [(lit "NO", lit "a||b"); (lit "BoxNum", lit "c");
               (lit "ContainerNum", lit "d"); (lit "REMARKS", lit "")] in
  let row1 := [(lit "NO", lit "a"); (lit "BoxNum", lit "b||c");
               (lit "ContainerNum", lit "d"); (lit "REMARKS", lit "")] in
  let sameTriple := fun r rr : object =>
    field rr (lit "NO") = field r (lit "NO") /\
    field rr (lit "BoxNum") = field r (lit "BoxNum") /\
    field rr (lit "ContainerNum") = field r (lit "ContainerNum") in
  firstIndex (sameTriple row1) [row0; row1] 1 /\
  applyEdit [row0; row1] row1 (lit "REMARKS") (lit "Done")
  = [set row0 (lit "REMARKS") (lit "Done"); row1] /\
  ~ (forall allRows r c v i,
       firstIndex (sameTriple r) allRows i ->
       applyEdit allRows r c v = updateAt i (fun row => set row c v) allRows).
Proof.
  intros row0 row1 sameTriple.
  assert (H1 : firstIndex (sameTriple row1) [row0; row1] 1).
  { split.
    - exists row1. split; [reflexivity|]. repeat split.
    - intros [|j] x Hj Ex; [|lia]. injection Ex as <-.
      intros [E _]. discriminate E. }
  split; [exact H1|]. split; [reflexivity|].
  intros H. specialize (H [row0; row1] row1 (lit "REMARKS") (lit "Done") 1%nat H1).
  discriminate H.
Qed.

(** ** Sorting *)

Lemma leb_str_total (a b : jsstring) : leb_str a b = false -> leb_str b a = true.
Proof.
  revert b. induction a as [|x a IH]; intros [|y b]; simpl; try discriminate; auto.
  destruct (code x <? code y)%N eqn:E1; [discriminate|].
  destruct (code y <? code x)%N eqn:E2; [reflexivity|]. apply IH.
Qed.

Lemma insertSorted_perm (k : jsstring) (l : list jsstring) :
  Permutation (k :: l) (insertSorted k l).
Proof.
  induction l as [|x l IH]; simpl; [reflexivity|].
  destruct (leb_str k x); [reflexivity|].
  rewrite perm_swap. now constructor.
Qed.

Lemma sort_perm (l : list jsstring) : Permutation l (sort l).
Proof.
  induction l as [|x l IH]; simpl; [reflexivity|].
  rewrite <- insertSorted_perm. now constructor.
Qed.

Lemma insertSorted_sorted (k : jsstring) (l : list jsstring) :
  Sorted (fun a b => leb_str a b = true) l ->
  Sorted (fun a b => leb_str a b = true) (insertSorted k l).
Proof.
  induction l as [|x l IH]; simpl; intros H.
  - repeat constructor.
  - destruct (leb_str k x) eqn:E.
    + constructor; [exact H | now constructor].
    + apply Sorted_inv in H as [Hs Hh]. constructor; [now apply IH|].
      destruct l as [|y l]; simpl.
      * constructor. now apply leb_str_total.
      * destruct (leb_str k y); constructor.
        -- now apply leb_str_total.
        -- now inversion Hh.
Qed.

Lemma sort_sorted (l : list jsstring) :
  Sorted (fun a b => leb_str a b = true) (sort l).
Proof.
  induction l as [|x l IH]; simpl; [constructor | now apply insertSorted_sorted].
Qed.

Lemma leb_str_antisym (a b : jsstring) :
  leb_str a b = true -> leb_str b a = true -> a = b.
Proof.
  revert b. induction a as [|x a IH]; intros [|y b]; simpl; try discriminate; auto.
  destruct (code x <? code y)%N eqn:E1, (code y <? code x)%N eqn:E2;
    try discriminate.
  - apply N.ltb_lt in E1, E2. lia.
  - intros H1 H2. apply N.ltb_ge in E1, E2.
    assert (E : code x = code y) by lia.
    unfold code in E. apply (f_equal ascii_of_N) in E.
    rewrite !ascii_N_embedding in E. subst y. f_equal. now apply IH.
Qed.

Lemma leb_str_trans (a b c : jsstring) :
  leb_str a b = true -> leb_str b c = true -> leb_str a c = true.
Proof.
  revert b c. induction a as [|x a IH]; intros [|y b] [|z c]; simpl;
    try discriminate; auto.
  destruct (code x <? code y)%N eqn:E1, (code y <? code x)%N eqn:E2,
           (code y <? code z)%N eqn:E3, (code z <? code y)%N eqn:E4;
    try discriminate; intros H1 H2;
    destruct (code x <? code z)%N eqn:L1; try reflexivity;
    destruct (code z <? code x)%N eqn:L2;
    repeat match goal with
           | H : (_ <? _)%N = true |- _ => apply N.ltb_lt in H
           | H : (_ <? _)%N = false |- _ => apply N.ltb_ge in H
           end;
    try (exfalso; lia); now apply (IH b).
Qed.

Lemma sorted_perm_eq (l l' : list jsstring) :
  Sorted (fun a b => leb_str a b = true) l ->
  Sorted (fun a b => leb_str a b = true) l' ->
  Permutation l l' -> l = l'.
Proof.
  intros H H'.
  assert (T : Relations_1.Transitive (fun a b : jsstring => leb_str a b = true)).
  { intros a b c. apply leb_str_trans. }
  apply (Sorted_StronglySorted T) in H. apply (Sorted_StronglySorted T) in H'.
  clear T. revert l' H'. induction H as [|x l Hl IH Hx]; intros l' H' P.
  - apply Permutation_nil in P. now subst.
  - destruct H' as [|y l' Hl' Hy].
    + apply Permutation_sym, Permutation_nil in P. discriminate.
    + assert (E : x = y).
      { assert (Hxy : In x (y :: l')) by (apply (Permutation_in x P); now left).
        assert (Hyx : In y (x :: l))
          by (apply (Permutation_in y (Permutation_sym P)); now left).
        destruct Hxy as [E | Hxy]; [now subst|].
        destruct Hyx as [E | Hyx]; [now subst|].
        rewrite Forall_forall in Hx, Hy.
        apply leb_str_antisym; [now apply Hx | now apply Hy]. }
      subst y. f_equal. apply IH; [exact Hl'|].
      now apply Permutation_cons_inv in P.
Qed.

(** The sorted keys do not depend on the order in which they are listed. *)
Lemma sort_order_independent (l l' : list jsstring) :
  Permutation l l' -> sort l = sort l'.
Proof.
  intros P. apply sorted_perm_eq; try apply sort_sorted.
  rewrite <- (sort_perm l), <- (sort_perm l'). exact P.
Qed.

(** ** The single pass of [buildAnalytics] *)

Lemma existsb_eqb_In (x : jsstring) (l : list jsstring) :
  existsb (eqb_str x) l = true <-> In x l.
Proof.
  rewrite existsb_exists. split.
  - intros [y [Hy E]]. apply eqb_str_eq in E. now subst.
  - intros H. exists x. split; [exact H | apply eqb_str_refl].
Qed.

Lemma unique_step_nodup (seen : list jsstring) (a : list jsstring) :
  NoDup seen ->
  NoDup (fold_left (fun seen x => if existsb (eqb_str x) seen then seen else seen ++ [x]) a seen).
Proof.
  revert seen. induction a as [|x a IH]; intros seen H; simpl; [exact H|].
  apply IH. destruct (existsb (eqb_str x) seen) eqn:E; [exact H|].
  apply NoDup_app; [exact H | repeat constructor; simpl; tauto |].
  intros y Hy [<- | []]. apply existsb_eqb_In in Hy. congruence.
Qed.

Lemma unique_step_In (seen : list jsstring) (a : list jsstring) (k : jsstring) :
  In k (fold_left (fun seen x => if existsb (eqb_str x) seen then seen else seen ++ [x]) a seen)
  <-> In k seen \/ In k a.
Proof.
  revert seen. induction a as [|x a IH]; intros seen; simpl; [tauto|].
  rewrite IH. destruct (existsb (eqb_str x) seen) eqn:E.
  - apply existsb_eqb_In in E. split; [tauto|]. intros [H | [<- | H]]; tauto.
  - rewrite in_app_iff. simpl. tauto.
Qed.

Lemma unique_nodup (a : list jsstring) : NoDup (unique a).
Proof. apply unique_step_nodup. constructor. Qed.

Lemma unique_In (a : list jsstring) (k : jsstring) : In k (unique a) <-> In k a.
Proof. unfold unique. rewrite unique_step_In. simpl. tauto. Qed.

Lemma countRow_get (byContainer : dict counters) (r : object) (k : jsstring) :
  get (countRow byContainer r) k =
  if inGroup k r
  then match get byContainer k with
       | Some v => Some (addCounters v (tally [r]))
       | None => if inherited k then None
                 else Some (addCounters zeroCounters (tally [r]))
       end
  else get byContainer k.
Proof.
  assert (Hbump : forall v : counters,
            {| total := total v + 1;
               finished := if isCompleted (get r (lit "REMARKS"))
                           then finished v + 1 else finished v |}
            = addCounters v (tally [r])).
  { intros v. unfold addCounters, tally, isDone. cbn [filter].
    destruct (isCompleted _); cbn [List.length total finished]; f_equal; lia. }
  unfold countRow, inGroup.
  destruct (eqb_str (containerOf r) k) eqn:Ek.
  - apply eqb_str_eq in Ek. subst k.
    destruct (get byContainer (containerOf r)) as [v|] eqn:E.
    + rewrite E, get_set_same, Hbump. reflexivity.
    + destruct (inherited (containerOf r)).
      * now rewrite E.
      * rewrite get_set_same, get_set_same, Hbump. reflexivity.
  - apply eqb_str_neq in Ek.
    destruct (get byContainer (containerOf r)) as [v|] eqn:E.
    + rewrite E. now apply get_set_other.
    + destruct (inherited (containerOf r)).
      * now rewrite E.
      * rewrite get_set_same. rewrite !get_set_other; trivial.
Qed.

Lemma countRow_keys (byContainer : dict counters) (r : object) :
  keys (countRow byContainer r) =
  if existsb (eqb_str (containerOf r)) (keys byContainer) || inherited (containerOf r)
  then keys byContainer else keys byContainer ++ [containerOf r].
Proof.
  unfold countRow.
  destruct (get byContainer (containerOf r)) as [v|] eqn:E.
  - rewrite E. pose proof (get_Some_keys _ _ _ E) as Hin.
    rewrite (proj2 (existsb_eqb_In _ _) Hin). now apply keys_set_in.
  - apply get_None_keys in E.
    destruct (existsb _ _) eqn:Ex; [apply existsb_eqb_In in Ex; contradiction|].
    destruct (inherited (containerOf r)); simpl.
    + apply get_None_keys in E. now rewrite E.
    + rewrite get_set_same.
      rewrite keys_set_in; [now apply keys_set_new|].
      rewrite keys_set_new; trivial. apply in_or_app. right. now left.
Qed.

Lemma byContainer_keys (rows : list object) (acc : dict counters) :
  keys (fold_left countRow rows acc) =
  fold_left (fun seen x => if existsb (eqb_str x) seen then seen else seen ++ [x])
            (map containerOf (filter counted rows)) (keys acc).
Proof.
  revert acc. induction rows as [|r rows IH]; intros acc; simpl; [reflexivity|].
  rewrite IH, countRow_keys. unfold counted at 2.
  destruct (inherited (containerOf r)); simpl.
  - now rewrite orb_true_r.
  - now rewrite orb_false_r.
Qed.

Lemma filter_none {A} (p : A -> bool) (l : list A) :
  existsb p l = false -> filter p l = [].
Proof.
  induction l as [|x l IH]; simpl; [reflexivity|].
  destruct (p x); simpl; [discriminate | exact IH].
Qed.

Lemma tally_app (a b : list object) : tally (a ++ b) = addCounters (tally a) (tally b).
Proof.
  unfold tally, addCounters. simpl.
  rewrite filter_app, !List.length_app. f_equal; lia.
Qed.

Lemma byContainer_get (rows : list object) (k : jsstring) :
  get (fold_left countRow rows []) k =
  if existsb (inGroup k) rows && negb (inherited k)
  then Some (tally (filter (inGroup k) rows)) else None.
Proof.
  induction rows as [|r rows IH] using rev_ind; [reflexivity|].
  rewrite fold_left_app. simpl. rewrite countRow_get.
  rewrite existsb_app, filter_app. simpl. rewrite IH.
  destruct (inGroup k r); simpl.
  - rewrite orb_true_r. destruct (inherited k); simpl.
    + now rewrite andb_false_r.
    + rewrite andb_true_r. f_equal. rewrite tally_app.
      destruct (existsb (inGroup k) rows) eqn:E; [reflexivity|].
      now rewrite (filter_none _ _ E).
  - rewrite orb_false_r, app_nil_r. reflexivity.
Qed.

Lemma existsb_inGroup (rows : list object) (k : jsstring) :
  existsb (inGroup k) rows = true <-> In k (map containerOf rows).
Proof.
  rewrite existsb_exists, in_map_iff. unfold inGroup.
  split; intros [r [H1 H2]]; exists r.
  - apply eqb_str_eq in H2. tauto.
  - rewrite eqb_str_eq. tauto.
Qed.

Lemma emit_fold (byContainer : dict counters) (ks : list jsstring)
      (out : list AnalyticsRow.t) (acc : counters) :
  fold_left
    (fun '(out, acc) cont =>
       let v := countersAt byContainer cont in
       (out ++ [analyticsRowOf cont v],
        {| total := total acc + total v; finished := finished acc + finished v |}))
    ks (out, acc)
  = (out ++ map (fun cont => analyticsRowOf cont (countersAt byContainer cont)) ks,
     fold_left addCounters (map (countersAt byContainer) ks) acc).
Proof.
  revert out acc. induction ks as [|k ks IH]; intros out acc; simpl.
  - now rewrite app_nil_r.
  - rewrite IH. now rewrite <- app_assoc.
Qed.

Lemma counted_group (rows : list object) (k : jsstring) :
  In k (map containerOf (filter counted rows)) <->
  exists r, In r rows /\ containerOf r = k /\ inherited k = false.
Proof.
  rewrite in_map_iff. unfold counted.
  split.
  - intros [r [E H]]. apply filter_In in H as [H1 H2]. exists r. subst k.
    repeat split; trivial. now destruct (inherited (containerOf r)).
  - intros [r [H1 [E H2]]]. exists r. split; [exact E|]. apply filter_In.
    split; [exact H1|]. subst k. now rewrite H2.
Qed.

(** The shape of every analytics sheet: one record per distinct group key,
    keys in sorted order, each with the counters of its rows, then the ALL
    record with the sum of the group counters.  A container key that names
    an inherited member of [byContainer] makes no group. *)
Lemma buildAnalytics_shape (rows : list object) :
  let ks := sort (groupKeys rows) in
  let group := fun k => tally (filter (inGroup k) rows) in
  buildAnalytics rows =
    map (fun k => analyticsRowOf k (group k)) ks ++
    [analyticsRowOf (lit "ALL") (fold_left addCounters (map group ks) zeroCounters)]
  /\ Sorted (fun a b => leb_str a b = true) ks
  /\ NoDup ks
  /\ (forall k, In k ks <->
                exists r, In r rows /\ containerOf r = k /\ inherited k = false).
Proof.
  intros ks group.
  assert (Hkeys : keys (fold_left countRow rows []) = groupKeys rows)
    by apply byContainer_keys.
  assert (Hin : forall k, In k ks <-> In k (map containerOf (filter counted rows))).
  { intros k. unfold ks. rewrite <- (unique_In (map containerOf (filter counted rows)) k).
    split; intros H.
    - apply Permutation_in with (l := sort (groupKeys rows)); [|exact H].
      symmetry. apply sort_perm.
    - apply Permutation_in with (l := groupKeys rows); [apply sort_perm | exact H]. }
  assert (Hat : forall k, In k ks ->
            countersAt (fold_left countRow rows []) k = group k).
  { intros k Hk. unfold countersAt. rewrite byContainer_get.
    apply Hin, counted_group in Hk as [r [Hr [E Hk]]].
    assert (Ex : existsb (inGroup k) rows = true).
    { apply existsb_inGroup, in_map_iff. now exists r. }
    now rewrite Ex, Hk. }
  split; [|split; [|split]].
  - unfold buildAnalytics. rewrite Hkeys. fold ks. rewrite emit_fold. simpl.
    rewrite (map_ext_in _ _ ks Hat).
    rewrite (map_ext_in (fun cont => analyticsRowOf cont (countersAt _ cont))
                        (fun k => analyticsRowOf k (group k)) ks).
    + reflexivity.
    + intros k Hk. now rewrite Hat.
  - apply sort_sorted.
  - apply Permutation_NoDup with (l := groupKeys rows);
      [apply sort_perm | apply unique_nodup].
  - intros k. rewrite Hin. apply counted_group.
Qed.

(** ** The ALL record counts the whole dataset *)

Lemma sum_counters (l : list counters) (acc : counters) :
  total (fold_left addCounters l acc) = total acc + fold_right Z.add 0 (map total l) /\
  finished (fold_left addCounters l acc)
  = finished acc + fold_right Z.add 0 (map finished l).
Proof.
  revert acc. induction l as [|v l IH]; intros acc; simpl; [lia|].
  destruct (IH (addCounters acc v)) as [-> ->]. simpl. lia.
Qed.

Lemma one_group_per_row (ks : list jsstring) (r : object) :
  NoDup ks -> In (containerOf r) ks ->
  fold_right Z.add 0 (map (fun k => if inGroup k r then 1 else 0) ks) = 1.
Proof.
  unfold inGroup. induction ks as [|k ks IH]; simpl; [tauto|].
  intros Hnd Hin. apply NoDup_cons_iff in Hnd as [Hk Hnd].
  destruct (eqb_str (containerOf r) k) eqn:E.
  - apply eqb_str_eq in E. subst k.
    assert (Z0 : fold_right Z.add 0
              (map (fun k => if eqb_str (containerOf r) k then 1 else 0) ks) = 0).
    { clear IH Hin Hnd. induction ks as [|k ks IH]; simpl; [reflexivity|].
      destruct (eqb_str (containerOf r) k) eqn:E.
      - apply eqb_str_eq in E. subst k. exfalso. apply Hk. now left.
      - rewrite IH; [reflexivity|]. intros H. apply Hk. now right. }
    lia.
  - apply eqb_str_neq in E. rewrite IH; [reflexivity | exact Hnd|].
    destruct Hin as [H|H]; [congruence | exact H].
Qed.

Lemma groups_partition (ks : list jsstring) (rows : list object) :
  NoDup ks -> (forall r, In r rows -> In (containerOf r) ks) ->
  fold_right Z.add 0
    (map (fun k => Z.of_nat (List.length (filter (inGroup k) rows))) ks)
  = Z.of_nat (List.length rows).
Proof.
  intros Hnd. induction rows as [|r rows IH]; intros Hin.
  - simpl. clear Hnd Hin. induction ks as [|k ks IH]; simpl; [reflexivity|].
    now rewrite IH.
  - assert (E : forall l : list jsstring,
              fold_right Z.add 0
                (map (fun k => Z.of_nat (List.length (filter (inGroup k) (r :: rows)))) l)
              = fold_right Z.add 0 (map (fun k => if inGroup k r then 1 else 0) l) +
                fold_right Z.add 0
                  (map (fun k => Z.of_nat (List.length (filter (inGroup k) rows))) l)).
    { induction l as [|k l IHl]; [reflexivity|].
      cbn [map fold_right]. rewrite IHl. cbn [filter].
      destruct (inGroup k r); cbn [List.length]; lia. }
    rewrite E, IH, one_group_per_row; trivial.
    + cbn [List.length]. lia.
    + apply Hin. now left.
    + intros r' Hr'. apply Hin. now right.
Qed.

Lemma filter_comm {A} (p q : A -> bool) (l : list A) :
  filter p (filter q l) = filter q (filter p l).
Proof.
  induction l as [|x l IH]; simpl; [reflexivity|].
  destruct (p x) eqn:Px, (q x) eqn:Qx; simpl; rewrite ?Px, ?Qx, IH; reflexivity.
Qed.

Lemma filter_filter {A} (p q : A -> bool) (l : list A) :
  (forall x, In x l -> p x = true -> q x = true) ->
  filter p (filter q l) = filter p l.
Proof.
  induction l as [|x l IH]; simpl; intros H; [reflexivity|].
  assert (IH' : filter p (filter q l) = filter p l)
    by (apply IH; intros y Hy; apply H; now right).
  destruct (q x) eqn:Qx; simpl.
  - now rewrite IH'.
  - destruct (p x) eqn:Px; [|exact IH'].
    rewrite (H x (or_introl eq_refl) Px) in Qx. discriminate.
Qed.

Lemma group_counted (rows : list object) (k : jsstring) :
  inherited k = false ->
  filter (inGroup k) (filter counted rows) = filter (inGroup k) rows.
Proof.
  intros Hk. apply filter_filter. intros r _ Hr. unfold inGroup in Hr.
  apply eqb_str_eq in Hr. unfold counted. now rewrite Hr, Hk.
Qed.

(** The ALL record of an analytics sheet carries the counters of the rows
    that are counted: all of them, unless a container key names an inherited
    member. *)
Lemma buildAnalytics_all (rows : list object) :
  fold_left addCounters
    (map (fun k => tally (filter (inGroup k) rows)) (sort (groupKeys rows)))
    zeroCounters
  = tally (filter counted rows).
Proof.
  destruct (buildAnalytics_shape rows) as [_ [_ [Hnd Hin]]].
  set (ks := sort (groupKeys rows)) in *.
  rewrite (map_ext_in _ (fun k => tally (filter (inGroup k) (filter counted rows))) ks)
    by (intros k Hk; apply Hin in Hk as [_ [_ [_ Hk]]]; now rewrite group_counted).
  assert (Hcov : forall r, In r (filter counted rows) -> In (containerOf r) ks).
  { intros r Hr. apply filter_In in Hr as [Hr Hc]. apply Hin. exists r.
    repeat split; trivial. unfold counted in Hc.
    now destruct (inherited (containerOf r)). }
  set (rows' := filter counted rows) in *.
  destruct (sum_counters (map (fun k => tally (filter (inGroup k) rows')) ks)
                         zeroCounters) as [Ht Hf].
  rewrite map_map in Ht, Hf. simpl in Ht, Hf.
  assert (Et : total (fold_left addCounters
                 (map (fun k => tally (filter (inGroup k) rows')) ks) zeroCounters)
               = Z.of_nat (List.length rows')).
  { rewrite Ht. apply groups_partition; [exact Hnd | exact Hcov]. }
  assert (Ef : finished (fold_left addCounters
                 (map (fun k => tally (filter (inGroup k) rows')) ks) zeroCounters)
               = Z.of_nat (List.length (filter isDone rows'))).
  { rewrite Hf.
    rewrite (map_ext _ (fun k => Z.of_nat (List.length
                          (filter (inGroup k) (filter isDone rows'))))).
    - apply groups_partition; [exact Hnd|].
      intros r Hr. apply filter_In in Hr as [Hr _]. now apply Hcov.
    - intros k. now rewrite filter_comm. }
  unfold tally at 2. destruct (fold_left addCounters _ _) as [t f].
  cbn [total finished] in Et, Ef. now rewrite Et, Ef.
Qed.

Lemma counted_all (rows : list object) :
  (forall r, In r rows -> inherited (containerOf r) = false) ->
  filter counted rows = rows.
Proof.
  intros H. induction rows as [|r rows IH]; simpl; [reflexivity|].
  unfold counted at 1. rewrite (H r (or_introl eq_refl)). simpl. f_equal.
  apply IH. intros r' Hr'. apply H. now right.
Qed.

(** Below forty rows in a group the binary64 percentage is the exactly
    rounded one. *)
Lemma percentOf_exact_below_40 (f t : Z) :
  0 <= f <= t -> t < 40 -> percentOf f t = exactPercent f t.
Proof.
  intros Hf Ht.
  assert (H : forallb (fun t => forallb (fun f => percentOf f t =? exactPercent f t)
                                        (map Z.of_nat (seq 0 (S (Z.to_nat t)))))
                      (map Z.of_nat (seq 0 40)) = true) by (vm_compute; reflexivity).
  rewrite forallb_forall in H.
  assert (Ht' : In t (map Z.of_nat (seq 0 40))).
  { apply in_map_iff. exists (Z.to_nat t). split; [lia|]. apply in_seq. lia. }
  specialize (H t Ht'). rewrite forallb_forall in H.
  assert (Hf' : In f (map Z.of_nat (seq 0 (S (Z.to_nat t))))).
  { apply in_map_iff. exists (Z.to_nat f). split; [lia|]. apply in_seq. lia. }
  apply Z.eqb_eq. exact (H f Hf').
Qed.

(** ** Rollups on concrete datasets *)

(** The two datasets of section 8 of the specification, with ContainerNum
    as the group field, which is the property [buildAnalytics] reads.  Rows
    that carry the group value under Container alone have no ContainerNum
    and fall under "NA". *)
Lemma buildAnalytics_examples :
  buildAnalytics
    [[(lit "ContainerNum", lit "1"); (lit "REMARKS", lit "Done")];
     [(lit "ContainerNum", lit "1"); (lit "REMARKS", lit "")];
     [(lit "ContainerNum", lit "2"); (lit "REMARKS", lit "Done")]]
  = [{| AnalyticsRow.Container := lit "1"; AnalyticsRow.TotalBoxes := 2;
        AnalyticsRow.Finished := 1; AnalyticsRow.Remaining := 1;
        AnalyticsRow.CompletionPercent := lit "50%" |};
     {| AnalyticsRow.Container := lit "2"; AnalyticsRow.TotalBoxes := 1;
        AnalyticsRow.Finished := 1; AnalyticsRow.Remaining := 0;
        AnalyticsRow.CompletionPercent := lit "100%" |};
     {| AnalyticsRow.Container := lit "ALL"; AnalyticsRow.TotalBoxes := 3;
        AnalyticsRow.Finished := 2; AnalyticsRow.Remaining := 1;
        AnalyticsRow.CompletionPercent := lit "67%" |}]
  /\ buildAnalytics []
  = [{| AnalyticsRow.Container := lit "ALL"; AnalyticsRow.TotalBoxes := 0;
        AnalyticsRow.Finished := 0; AnalyticsRow.Remaining := 0;
        AnalyticsRow.CompletionPercent := lit "0%" |}]
  /\ map AnalyticsRow.Container
       (buildAnalytics
          [[(lit "Container", lit "1"); (lit "REMARKS", lit "Done")];
           [(lit "Container", lit "1"); (lit "REMARKS", lit "")];
           [(lit "Container", lit "2"); (lit "REMARKS", lit "Done")]])
     = [lit "NA"; lit "ALL"].
Proof. repeat split; vm_compute; reflexivity. Qed.

(** C1, where the code leaves it.  Forty rows of one container, twenty-three
    of them done: 100 * 23 / 40 is 57.5, which rounds to 58, but the sheet
    built by [buildAnalytics] says 57%, in the group record and in the ALL
    record, because (23 / 40) * 100 is evaluated in binary64 and falls just
    under 57.5. *)
Theorem buildAnalytics_percent_23_of_40 :
  let done := [(lit "ContainerNum", lit "1"); (lit "REMARKS", lit "Done")] in
  let todo := [(lit "ContainerNum", lit "1"); (lit "REMARKS", lit "")] in
  buildAnalytics (repeat done 23 ++ repeat todo 17)
  = [{| AnalyticsRow.Container := lit "1"; AnalyticsRow.TotalBoxes := 40;
        AnalyticsRow.Finished := 23; AnalyticsRow.Remaining := 17;
        AnalyticsRow.CompletionPercent := lit "57%" |};
     {| AnalyticsRow.Container := lit "ALL"; AnalyticsRow.TotalBoxes := 40;
        AnalyticsRow.Finished := 23; AnalyticsRow.Remaining := 17;
        AnalyticsRow.CompletionPercent := lit "57%" |}]
  /\ 2 * (100 * 23) = (2 * 57 + 1) * 40
  /\ exactPercent 23 40 = 58
  /\ percentOf 23 40 = 57.
Proof. repeat split; vm_compute; reflexivity. Qed.

Lemma containerOf_cases (r : object) :
  (get r (lit "ContainerNum") = None -> containerOf r = lit "NA") /\
  (forall v, get r (lit "ContainerNum") = Some v -> containerOf r = v).
Proof. unfold containerOf. split; [intros -> | intros v ->]; reflexivity. Qed.

Lemma factoryLabel_cases (r : object) :
  (get r (lit "Factory") = None -> factoryLabel r = lit "UNKNOWN") /\
  (get r (lit "Factory") = Some [] -> factoryLabel r = lit "UNKNOWN") /\
  (forall c v, get r (lit "Factory") = Some (c :: v) -> factoryLabel r = c :: v).
Proof.
  unfold factoryLabel, getTruthy.
  split; [intros -> | split; [intros -> | intros c v ->]]; reflexivity.
Qed.

(** C7, where the code leaves it.  A row without a ContainerNum property is
    counted under "NA", and a row whose Factory is absent or blank is listed
    under "UNKNOWN"; but a row whose ContainerNum is the empty string, which
    is what [normalizeRow] writes for a column it could not resolve, is
    counted under the empty key, and the sheet has no "NA" record.  On the
    factory side the label "UNKNOWN" is listed, but the sheet made for it
    counts no row with a blank Factory. *)
Theorem buildAnalytics_blank_container :
  let blank := [(lit "ContainerNum", lit ""); (lit "REMARKS", lit "Done")] in
  buildAnalytics [blank]
  = [{| AnalyticsRow.Container := lit ""; AnalyticsRow.TotalBoxes := 1;
        AnalyticsRow.Finished := 1; AnalyticsRow.Remaining := 0;
        AnalyticsRow.CompletionPercent := lit "100%" |};
     {| AnalyticsRow.Container := lit "ALL"; AnalyticsRow.TotalBoxes := 1;
        AnalyticsRow.Finished := 1; AnalyticsRow.Remaining := 0;
        AnalyticsRow.CompletionPercent := lit "100%" |}]
  /\ existsb (eqb_str (lit "NA")) (map AnalyticsRow.Container (buildAnalytics [blank]))
     = false
  /\ get (normalizeRow [(lit "REMARKS", lit "Done")]) (lit "ContainerNum") = Some (lit "")
  /\ map AnalyticsRow.Container (buildAnalytics [[(lit "REMARKS", lit "Done")]])
     = [lit "NA"; lit "ALL"]
  /\ factoryLabel [(lit "Factory", lit "")] = lit "UNKNOWN"
  /\ factoryLabel [] = lit "UNKNOWN"
  /\ factorySheets [[(lit "Factory", lit ""); (lit "ContainerNum", lit "1")]]
     = [(lit "Analytics_UNKNOWN",
         AnalyticsSheet
           [{| AnalyticsRow.Container := lit "ALL"; AnalyticsRow.TotalBoxes := 0;
               AnalyticsRow.Finished := 0; AnalyticsRow.Remaining := 0;
               AnalyticsRow.CompletionPercent := lit "0%" |}])].
Proof.
  intros blank. repeat split; vm_compute; reflexivity.
Qed.

(** ** The Summary sheet *)

Lemma existsb_filter_length {A} (p : A -> bool) (l : list A) :
  (Z.of_nat (List.length (filter p l)) =? 0) = negb (existsb p l).
Proof.
  induction l as [|x l IH]; simpl; [reflexivity|].
  destruct (p x); simpl; [reflexivity | exact IH].
Qed.

Lemma summary_fold (rows : list object) (facs : list jsstring)
      (out : list SummaryRow.t) (acc : counters) :
  fold_left
    (fun '(summaryData, acc) fac =>
       let filtered := filter (factoryIs fac) rows in
       if (Z.of_nat (List.length filtered) =? 0) then (summaryData, acc)
       else
         let v :=
           {| total := Z.of_nat (List.length filtered);
              finished :=
                Z.of_nat (List.length (filter (fun r => isCompleted (get r (lit "REMARKS")))
                                              filtered)) |} in
         (summaryData ++ [summaryRowOf fac v],
          {| total := total acc + total v;
             finished := finished acc + finished v |}))
    facs (out, acc)
  = (out ++ map (fun fac => summaryRowOf fac (tally (filter (factoryIs fac) rows)))
                (filter (fun fac => existsb (factoryIs fac) rows) facs),
     fold_left addCounters
       (map (fun fac => tally (filter (factoryIs fac) rows))
            (filter (fun fac => existsb (factoryIs fac) rows) facs))
       acc).
Proof.
  revert out acc. induction facs as [|fac facs IH]; intros out acc.
  - simpl. now rewrite app_nil_r.
  - cbn [fold_left filter]. rewrite existsb_filter_length.
    destruct (existsb (factoryIs fac) rows); cbn [negb].
    + rewrite IH. cbn [map fold_left]. now rewrite <- app_assoc.
    + apply IH.
Qed.

Lemma buildSummarySheet_unfold (rows : list object) :
  buildSummarySheet rows =
  map (fun fac => summaryRowOf fac (tally (filter (factoryIs fac) rows)))
      (filter (fun fac => existsb (factoryIs fac) rows) factoryOrder)
  ++ [summaryRowOf (lit "ALL")
        (fold_left addCounters
           (map (fun fac => tally (filter (factoryIs fac) rows))
                (filter (fun fac => existsb (factoryIs fac) rows) factoryOrder))
           zeroCounters)].
Proof. unfold buildSummarySheet. now rewrite summary_fold. Qed.

Lemma analytics_has_row (rows : list object) (r : object) :
  In r rows -> inherited (containerOf r) = false ->
  In (analyticsRowOf (containerOf r) (tally (filter (inGroup (containerOf r)) rows)))
     (buildAnalytics rows).
Proof.
  intros Hr Hc. destruct (buildAnalytics_shape rows) as [E [_ [_ Hin]]].
  rewrite E. apply in_or_app. left.
  apply (in_map (fun k => analyticsRowOf k (tally (filter (inGroup k) rows)))).
  apply Hin. now exists r.
Qed.

(** What the Summary sheet does as the specification says.  It holds one
    record for each of F200, F100 and AIO that some row carries as its
    Factory, in that order, with the counters of the rows of that factory,
    and then the ALL record, which sums them; no other Factory value gets a
    record.  The Analytics sheet is built from all the rows: whatever its
    Factory, a row whose container key names no inherited member is counted
    in the record of its container there. *)
Lemma summary_priority_order (rows : list object) :
  let present := filter (fun fac => existsb (factoryIs fac) rows) factoryOrder in
  let group := fun fac => tally (filter (factoryIs fac) rows) in
  factoryOrder = [lit "F200"; lit "F100"; lit "AIO"] /\
  buildSummarySheet rows =
    map (fun fac => summaryRowOf fac (group fac)) present ++
    [summaryRowOf (lit "ALL") (fold_left addCounters (map group present) zeroCounters)] /\
  map SummaryRow.Factory (buildSummarySheet rows) = present ++ [lit "ALL"] /\
  (forall fac, In fac present <->
     In fac factoryOrder /\ exists r, In r rows /\ get r (lit "Factory") = Some fac) /\
  (forall r, In r rows -> inherited (containerOf r) = false ->
     exists rec, In rec (buildAnalytics rows) /\
       AnalyticsRow.Container rec = containerOf r /\
       AnalyticsRow.TotalBoxes rec
       = Z.of_nat (List.length (filter (inGroup (containerOf r)) rows)) /\
       1 <= AnalyticsRow.TotalBoxes rec) /\
  (exists groups,
     buildAnalytics rows
     = groups ++ [analyticsRowOf (lit "ALL") (tally (filter counted rows))]).
Proof.
  intros present group. split; [reflexivity|]. split; [apply buildSummarySheet_unfold|].
  split; [|split; [|split]].
  - rewrite buildSummarySheet_unfold. fold present. rewrite map_app, map_map. simpl.
    now rewrite map_id.
  - intros fac. unfold present. rewrite filter_In, existsb_exists.
    split; intros [Hf [r [Hr H]]]; (split; [exact Hf|]); exists r; (split; [exact Hr|]).
    + unfold factoryIs in H. destruct (get r (lit "Factory")) as [f|]; [|discriminate].
      apply eqb_str_eq in H. now subst.
    + unfold factoryIs. rewrite H. apply eqb_str_refl.
  - intros r Hr Hc. eexists. split; [apply (analytics_has_row rows r Hr Hc)|].
    split; [reflexivity|]. split; [reflexivity|]. simpl.
    assert (Hin : In r (filter (inGroup (containerOf r)) rows)).
    { apply filter_In. split; [exact Hr | apply eqb_str_refl]. }
    destruct (filter (inGroup (containerOf r)) rows); [destruct Hin|].
    simpl List.length. lia.
  - destruct (buildAnalytics_shape rows) as [E _]. rewrite E, buildAnalytics_all.
    eexists. reflexivity.
Qed.

(** C8, where the code leaves it.  A factory outside F200, F100 and AIO gets
    no record on the Summary sheet, as the specification says.  But its rows
    do not always appear in the per-container rollup: [buildAnalytics] keeps
    its groups in a plain object and tests [byContainer[cont]] to see whether
    the group exists, and for a row whose ContainerNum is "constructor" that
    read finds the member every object inherits.  No group is made, and the
    row is counted neither in a container record nor in the ALL record of
    the Analytics sheet, while the summary cards, which count without such
    an object, do count it. *)
Theorem analytics_misses_inherited_container :
  let r := [(lit "Factory", lit "F900"); (lit "ContainerNum", lit "constructor");
            (lit "REMARKS", lit "Done")] in
  map SummaryRow.Factory (buildSummarySheet [r]) = [lit "ALL"] /\
  containerOf r = lit "constructor" /\
  inherited (containerOf r) = true /\
  buildAnalytics [r]
  = [{| AnalyticsRow.Container := lit "ALL"; AnalyticsRow.TotalBoxes := 0;
        AnalyticsRow.Finished := 0; AnalyticsRow.Remaining := 0;
        AnalyticsRow.CompletionPercent := lit "0%" |}] /\
  (forall rec, In rec (buildAnalytics [r]) ->
     AnalyticsRow.Container rec <> containerOf r /\ AnalyticsRow.TotalBoxes rec = 0) /\
  cardTotal (renderSummary [r]) = 1 /\
  cardCompleted (renderSummary [r]) = 1.
Proof.
  intros r. repeat split; try (vm_compute; reflexivity).
  - destruct H as [<- | []]. vm_compute. discriminate.
  - destruct H as [<- | []]. reflexivity.
Qed.

(** ** The per-factory sheets *)

Lemma factoryLabel_truthy (r : object) : factoryLabel r <> [].
Proof.
  unfold factoryLabel, getTruthy. destruct (get r (lit "Factory")) as [[|c v]|];
    simpl; discriminate.
Qed.

Lemma filter_nothing {A} (p : A -> bool) (l : list A) :
  (forall x, In x l -> p x = false) -> filter p l = [].
Proof.
  induction l as [|x l IH]; simpl; intros H; [reflexivity|].
  rewrite (H x (or_introl eq_refl)). apply IH. intros y Hy. apply H. now right.
Qed.

Lemma safeSheetName_prefix (fac : jsstring) :
  safeSheetName fac = lit "Analytics_" ++ filter isWordChar fac.
Proof. unfold safeSheetName. now rewrite filter_app. Qed.

Lemma safeSheetName_not_fixed (fac : jsstring) :
  ~ In (safeSheetName fac) [lit "Data"; lit "Analytics"; lit "Summary"].
Proof.
  rewrite safeSheetName_prefix. simpl.
  intros [H | [H | [H | []]]]; discriminate H.
Qed.

(** ** Appending sheets *)

Lemma book_append_sheet_Some (wb wb' : list (jsstring * sheet)) (ws : sheet)
      (name : jsstring) :
  book_append_sheet wb ws name = Some wb' <->
  (List.length name <= 31)%nat /\ ~ In name (map fst wb) /\ wb' = wb ++ [(name, ws)].
Proof.
  unfold book_append_sheet.
  destruct (31 <? List.length name)%nat eqn:L.
  - apply Nat.ltb_lt in L. split; [discriminate | intros [H _]; lia].
  - apply Nat.ltb_ge in L.
    destruct (existsb (eqb_str name) (map fst wb)) eqn:Ex.
    + apply existsb_eqb_In in Ex. split; [discriminate | intros [_ [H _]]; contradiction].
    + split.
      * intros H. injection H as <-. repeat split; trivial.
        intros Hin. apply existsb_eqb_In in Hin. congruence.
      * intros [_ [_ ->]]. reflexivity.
Qed.

Lemma appendFactorySheet_None (l : list (jsstring * sheet)) :
  fold_left appendFactorySheet l None = None.
Proof. induction l as [|x l IH]; simpl; [reflexivity | exact IH]. Qed.

(** The appends of a list of named sheets go through exactly when every
    name is short enough and new. *)
Lemma appendFactorySheets_Some (l wb wb' : list (jsstring * sheet)) :
  fold_left appendFactorySheet l (Some wb) = Some wb' <->
  wb' = wb ++ l /\
  Forall (fun name => (List.length name <= 31)%nat) (map fst l) /\
  NoDup (map fst l) /\
  (forall name, In name (map fst l) -> ~ In name (map fst wb)).
Proof.
  revert wb. induction l as [|[name ws] l IH]; intros wb.
  - simpl. rewrite app_nil_r. split.
    + intros H. injection H as <-. repeat split; trivial; try constructor.
      intros name [].
    + intros [-> _]. reflexivity.
  - cbn [fold_left appendFactorySheet fst snd map].
    destruct (book_append_sheet wb ws name) as [wb1|] eqn:E.
    + apply book_append_sheet_Some in E as [L [Hnew ->]]. rewrite IH.
      rewrite <- app_assoc. cbn [app]. split.
      * intros [-> [Hl [Hnd Hfresh]]]. split; [reflexivity|].
        split; [now constructor|]. split.
        -- constructor; [|exact Hnd]. intros Hin. apply (Hfresh name Hin).
           rewrite map_app, in_app_iff. right. now left.
        -- intros n [<- | Hn]; [exact Hnew|]. intros Hin. apply (Hfresh n Hn).
           rewrite map_app, in_app_iff. now left.
      * intros [-> [Hl [Hnd Hfresh]]]. split; [reflexivity|].
        apply Forall_cons_iff in Hl as [_ Hl]. apply NoDup_cons_iff in Hnd as [Hn Hnd].
        split; [exact Hl|]. split; [exact Hnd|].
        intros n Hn'. rewrite map_app, in_app_iff. cbn [map fst In].
        intros [Hin | [<- | []]]; [|contradiction].
        apply (Hfresh n); [now right | exact Hin].
    + rewrite appendFactorySheet_None. split; [discriminate|].
      intros [_ [Hl [Hnd Hfresh]]]. exfalso.
      apply Forall_cons_iff in Hl as [L _].
      assert (Hnew : ~ In name (map fst wb)) by (apply Hfresh; now left).
      assert (H : book_append_sheet wb ws name = Some (wb ++ [(name, ws)]))
        by (apply book_append_sheet_Some; auto).
      congruence.
Qed.

Lemma factorySheets_names (rows : list object) :
  map fst (factorySheets rows) = map safeSheetName (factories rows).
Proof. unfold factorySheets. rewrite map_map. reflexivity. Qed.

(** The export is written exactly when the names made for the factory
    labels are distinct and of at most 31 units; it then holds Data,
    Analytics, the per-factory sheets and Summary, in this order. *)
Lemma exportWorkbook_Some (rows : list object) (wb : list (jsstring * sheet)) :
  exportWorkbookWithAnalytics rows = Some wb <->
  wb = [(lit "Data", DataSheet (map dataRow rows));
        (lit "Analytics", AnalyticsSheet (buildAnalytics rows))]
       ++ factorySheets rows
       ++ [(lit "Summary", SummarySheet (buildSummarySheet rows))] /\
  Forall (fun fac => (List.length (safeSheetName fac) <= 31)%nat) (factories rows) /\
  NoDup (map safeSheetName (factories rows)).
Proof.
  unfold exportWorkbookWithAnalytics.
  assert (E1 : book_append_sheet [] (DataSheet (map dataRow rows)) (lit "Data")
               = Some [(lit "Data", DataSheet (map dataRow rows))]) by reflexivity.
  rewrite E1. clear E1.
  assert (E2 : book_append_sheet [(lit "Data", DataSheet (map dataRow rows))]
                 (AnalyticsSheet (buildAnalytics rows)) (lit "Analytics")
               = Some [(lit "Data", DataSheet (map dataRow rows));
                       (lit "Analytics", AnalyticsSheet (buildAnalytics rows))])
    by reflexivity.
  rewrite E2. clear E2.
  set (wb0 := [(lit "Data", DataSheet (map dataRow rows));
               (lit "Analytics", AnalyticsSheet (buildAnalytics rows))]).
  assert (Hfresh : forall name, In name (map fst (factorySheets rows)) ->
            ~ In name (map fst wb0)).
  { intros name Hn. rewrite factorySheets_names in Hn.
    apply in_map_iff in Hn as [fac [<- _]]. intros Hin.
    apply (safeSheetName_not_fixed fac). simpl in *. tauto. }
  destruct (fold_left appendFactorySheet (factorySheets rows) (Some wb0)) as [wb1|] eqn:E.
  - apply appendFactorySheets_Some in E as [-> [Hl [Hnd _]]].
    rewrite factorySheets_names in Hl, Hnd. rewrite Forall_map in Hl.
    rewrite book_append_sheet_Some. split.
    + intros [_ [_ ->]]. rewrite <- app_assoc. auto.
    + intros [-> _]. split; [simpl; lia|]. split; [|now rewrite <- app_assoc].
      rewrite map_app, in_app_iff, factorySheets_names. intros [H | H].
      * simpl in H. destruct H as [H | [H | []]]; discriminate H.
      * apply in_map_iff in H as [fac [H _]].
        apply (safeSheetName_not_fixed fac). rewrite H. simpl. tauto.
  - split; [discriminate|]. intros [_ [Hl Hnd]]. exfalso.
    assert (H : fold_left appendFactorySheet (factorySheets rows) (Some wb0)
                = Some (wb0 ++ factorySheets rows)).
    { apply appendFactorySheets_Some. split; [reflexivity|].
      split; [rewrite factorySheets_names, Forall_map; exact Hl|].
      split; [rewrite factorySheets_names; exact Hnd | exact Hfresh]. }
    congruence.
Qed.

(** The sheets of a written workbook have distinct names. *)
Lemma exportWorkbook_names (rows : list object) (wb : list (jsstring * sheet)) :
  exportWorkbookWithAnalytics rows = Some wb ->
  map fst wb
  = [lit "Data"; lit "Analytics"] ++ map safeSheetName (factories rows) ++ [lit "Summary"] /\
  NoDup (map fst wb).
Proof.
  intros Hwb. apply exportWorkbook_Some in Hwb as [Ewb [_ Hnd]].
  assert (E : map fst wb = [lit "Data"; lit "Analytics"]
                           ++ map safeSheetName (factories rows) ++ [lit "Summary"]).
  { rewrite Ewb, !map_app, factorySheets_names. reflexivity. }
  split; [exact E|]. rewrite E. cbn [app].
  constructor.
  { cbn [In]. rewrite in_app_iff. intros [H | [H | H]]; [discriminate H| |].
    - apply in_map_iff in H as [fac [H _]].
      apply (safeSheetName_not_fixed fac). rewrite H. simpl. tauto.
    - destruct H as [H | []]. discriminate H. }
  constructor.
  { rewrite in_app_iff. intros [H | H].
    - apply in_map_iff in H as [fac [H _]].
      apply (safeSheetName_not_fixed fac). rewrite H. simpl. tauto.
    - destruct H as [H | []]. discriminate H. }
  apply NoDup_app; [exact Hnd | repeat constructor; simpl; tauto |].
  intros name Hin [<- | []]. apply in_map_iff in Hin as [fac [H _]].
  apply (safeSheetName_not_fixed fac). rewrite H. simpl. tauto.
Qed.

Lemma get_of_pair {A} (l : list (jsstring * A)) (k : jsstring) (v : A) :
  NoDup (map fst l) -> In (k, v) l -> forall v', In (k, v') l -> v' = v.
Proof.
  induction l as [|[k0 v0] l IH]; simpl; intros Hnd Hin v' Hin'; [destruct Hin|].
  apply NoDup_cons_iff in Hnd as [Hk Hnd].
  destruct Hin as [E | Hin], Hin' as [E' | Hin'].
  - congruence.
  - injection E as -> ->. exfalso. apply Hk. apply (in_map fst) in Hin'. exact Hin'.
  - injection E' as -> ->. exfalso. apply Hk. apply (in_map fst) in Hin. exact Hin.
  - now apply IH.
Qed.

(** C10, as the code has it.  When some row has an absent or blank Factory,
    "UNKNOWN" is among the factory labels; when the export is written, it
    holds one sheet named Analytics_UNKNOWN and no second one.  Every
    per-factory sheet is built from the rows whose Factory equals its label,
    and no label is blank, so a row with an absent or blank Factory is in
    none of them; the sheet Analytics_UNKNOWN is the rollup of the rows whose
    Factory is the text "UNKNOWN" itself, and when there is no such row it
    holds only the ALL record, with total 0, finished 0 and 0%. *)
Theorem factorySheets_unknown (rows : list object) (wb : list (jsstring * sheet)) :
  (exists r, In r rows /\ getTruthy r (lit "Factory") = None) ->
  exportWorkbookWithAnalytics rows = Some wb ->
  (forall r, getTruthy r (lit "Factory") = None -> factoryLabel r = lit "UNKNOWN") /\
  In (lit "UNKNOWN") (factories rows) /\
  safeSheetName (lit "UNKNOWN") = lit "Analytics_UNKNOWN" /\
  In (lit "Analytics_UNKNOWN",
      AnalyticsSheet (buildAnalytics (filter (factoryIs (lit "UNKNOWN")) rows))) wb /\
  (forall ws, In (lit "Analytics_UNKNOWN", ws) wb ->
     ws = AnalyticsSheet (buildAnalytics (filter (factoryIs (lit "UNKNOWN")) rows))) /\
  (forall name ws, In (name, ws) wb ->
     ~ In name [lit "Data"; lit "Analytics"; lit "Summary"] ->
     exists fac, In fac (factories rows) /\ name = safeSheetName fac /\
       ws = AnalyticsSheet (buildAnalytics (filter (factoryIs fac) rows)) /\
       forall r, getTruthy r (lit "Factory") = None ->
                 ~ In r (filter (factoryIs fac) rows)) /\
  (forall r, In r (filter (factoryIs (lit "UNKNOWN")) rows) <->
     In r rows /\ get r (lit "Factory") = Some (lit "UNKNOWN")) /\
  ((forall r, In r rows -> get r (lit "Factory") <> Some (lit "UNKNOWN")) ->
   buildAnalytics (filter (factoryIs (lit "UNKNOWN")) rows)
   = [{| AnalyticsRow.Container := lit "ALL"; AnalyticsRow.TotalBoxes := 0;
         AnalyticsRow.Finished := 0; AnalyticsRow.Remaining := 0;
         AnalyticsRow.CompletionPercent := lit "0%" |}]).
Proof.
  intros [r0 [Hr0 Hblank]] Hwb.
  apply exportWorkbook_Some in Hwb as [Ewb [Hl Hnd]].
  assert (Hlabel : forall r, getTruthy r (lit "Factory") = None ->
            factoryLabel r = lit "UNKNOWN").
  { intros r H. unfold factoryLabel. now rewrite H. }
  assert (Hun : In (lit "UNKNOWN") (factories rows)).
  { unfold factories. apply unique_In, in_map_iff. exists r0. auto. }
  assert (Hliteral : forall r, factoryIs (lit "UNKNOWN") r = true <->
            get r (lit "Factory") = Some (lit "UNKNOWN")).
  { intros r. unfold factoryIs. destruct (get r (lit "Factory")) as [f|].
    - rewrite eqb_str_eq. split; congruence.
    - split; discriminate. }
  assert (Hsheet : In (lit "Analytics_UNKNOWN",
                       AnalyticsSheet (buildAnalytics (filter (factoryIs (lit "UNKNOWN")) rows)))
                      wb).
  { rewrite Ewb. apply in_or_app. right. apply in_or_app. left.
    apply (in_map (fun fac =>
             (safeSheetName fac,
              AnalyticsSheet (buildAnalytics (filter (factoryIs fac) rows))))
           _ _ Hun). }
  assert (Hnames : NoDup (map fst wb)).
  { apply (exportWorkbook_names rows). apply exportWorkbook_Some. auto. }
  split; [exact Hlabel|]. split; [exact Hun|]. split; [reflexivity|].
  split; [exact Hsheet|]. split; [|split; [|split]].
  - intros ws Hws. exact (get_of_pair wb _ _ Hnames Hsheet ws Hws).
  - intros name ws Hin Hname. rewrite Ewb in Hin.
    apply in_app_or in Hin as [Hin | Hin].
    { exfalso. apply Hname. simpl in Hin.
      destruct Hin as [E | [E | []]]; injection E as <- _; simpl; tauto. }
    apply in_app_or in Hin as [Hin | Hin].
    2:{ exfalso. apply Hname. destruct Hin as [E | []]. injection E as <- _. simpl. tauto. }
    unfold factorySheets in Hin. apply in_map_iff in Hin as [fac [E Hfac]].
    injection E as <- <-. exists fac. split; [exact Hfac|].
    split; [reflexivity|]. split; [reflexivity|].
    intros r Hb Hr. apply filter_In in Hr as [_ Hr].
    unfold factories in Hfac. apply unique_In, in_map_iff in Hfac as [r' [E _]].
    pose proof (factoryLabel_truthy r') as Hne. rewrite E in Hne.
    unfold factoryIs in Hr. unfold getTruthy in Hb.
    destruct (get r (lit "Factory")) as [[|c v]|]; try discriminate.
    destruct fac; [contradiction | discriminate].
  - intros r. now rewrite filter_In, Hliteral.
  - intros Hno. rewrite filter_nothing; [vm_compute; reflexivity|].
    intros r Hr. specialize (Hno r Hr).
    destruct (factoryIs (lit "UNKNOWN") r) eqn:E; [|reflexivity].
    apply Hliteral in E. contradiction.
Qed.

Lemma factorySheets_unknown_witness :
  let rows := [[(lit "Factory", lit ""); (lit "ContainerNum", lit "1")];
               [(lit "Factory", lit "F200"); (lit "ContainerNum", lit "1")]] in
  exists wb,
    exportWorkbookWithAnalytics rows = Some wb /\
    In (lit "Analytics_UNKNOWN",
        AnalyticsSheet
          [{| AnalyticsRow.Container := lit "ALL"; AnalyticsRow.TotalBoxes := 0;
              AnalyticsRow.Finished := 0; AnalyticsRow.Remaining := 0;
              AnalyticsRow.CompletionPercent := lit "0%" |}]) wb.
Proof.
  intros rows.
  assert (Hblank : exists r, In r rows /\ getTruthy r (lit "Factory") = None).
  { exists [(lit "Factory", lit ""); (lit "ContainerNum", lit "1")].
    split; [simpl; tauto | reflexivity]. }
  destruct (exportWorkbookWithAnalytics rows) as [wb|] eqn:E; [|vm_compute in E; discriminate E].
  exists wb. split; [reflexivity|].
  destruct (factorySheets_unknown rows wb Hblank E) as [_ [_ [_ [H [_ [_ [_ H0]]]]]]].
  rewrite H0 in H; [exact H|].
  intros r [<- | [<- | []]]; discriminate.
Defined.

(** C10 as stated fails: with a blank Factory in one row and the text
    "UNKNOWN" as the Factory of another, the export is written and its sheet
    Analytics_UNKNOWN is not empty, it rolls up the second row.  And with
    "UNKNOWN!" as the Factory of the other row, two sheets would get the name
    Analytics_UNKNOWN: the second append throws and no workbook is written. *)
Lemma factorySheets_unknown_not_empty :
  let rows := [[(lit "Factory", lit ""); (lit "ContainerNum", lit "1")];
               [(lit "Factory", lit "UNKNOWN"); (lit "ContainerNum", lit "2");
                (lit "REMARKS", lit "Done")]] in
  getTruthy [(lit "Factory", lit ""); (lit "ContainerNum", lit "1")] (lit "Factory") = None /\
  factorySheets rows
  = [(lit "Analytics_UNKNOWN",
      AnalyticsSheet
        [{| AnalyticsRow.Container := lit "2"; AnalyticsRow.TotalBoxes := 1;
            AnalyticsRow.Finished := 1; AnalyticsRow.Remaining := 0;
            AnalyticsRow.CompletionPercent := lit "100%" |};
         {| AnalyticsRow.Container := lit "ALL"; AnalyticsRow.TotalBoxes := 1;
            AnalyticsRow.Finished := 1; AnalyticsRow.Remaining := 0;
            AnalyticsRow.CompletionPercent := lit "100%" |}])] /\
  option_map (map fst) (exportWorkbookWithAnalytics rows)
  = Some [lit "Data"; lit "Analytics"; lit "Analytics_UNKNOWN"; lit "Summary"] /\
  map fst (factorySheets [[(lit "Factory", lit "")]; [(lit "Factory", lit "UNKNOWN!")]])
  = [lit "Analytics_UNKNOWN"; lit "Analytics_UNKNOWN"] /\
  exportWorkbookWithAnalytics [[(lit "Factory", lit "")]; [(lit "Factory", lit "UNKNOWN!")]]
  = None.
Proof. repeat split; vm_compute; reflexivity. Qed.

(** ** Characters *)

Lemma word_not_space (c : ascii) : isWordChar c = true -> isWhiteSpace c = false.
Proof. destruct c as [[] [] [] [] [] [] [] []]; simpl; intros H; try reflexivity; discriminate H. Qed.

Lemma word_not_nbsp (c : ascii) : isWordChar c = true -> isNbsp c = false.
Proof. destruct c as [[] [] [] [] [] [] [] []]; simpl; intros H; try reflexivity; discriminate H. Qed.

Lemma word_lower (c : ascii) : isWordChar (toLowerChar c) = isWordChar c.
Proof. destruct c as [[] [] [] [] [] [] [] []]; reflexivity. Qed.

Lemma lower_idem (c : ascii) : toLowerChar (toLowerChar c) = toLowerChar c.
Proof. destruct c as [[] [] [] [] [] [] [] []]; reflexivity. Qed.

Lemma keyChar_lower (c : ascii) : isKeyChar (toLowerChar c) = isKeyChar c.
Proof. destruct c as [[] [] [] [] [] [] [] []]; reflexivity. Qed.

Lemma keyChar_not_space (c : ascii) : isKeyChar c = true -> isWhiteSpace c = false.
Proof. destruct c as [[] [] [] [] [] [] [] []]; simpl; intros H; try reflexivity; discriminate H. Qed.

Lemma filter_spaces (p : ascii -> bool) (w : jsstring) :
  (forall c, p c = true -> isWhiteSpace c = false) ->
  Forall (fun x => isWhiteSpace x = true) w -> filter p w = [].
Proof.
  intros Hp. induction 1 as [|x w Hx _ IH]; simpl; [reflexivity|].
  destruct (p x) eqn:E; [|exact IH]. apply Hp in E. congruence.
Qed.

Lemma filter_word_trim (s : jsstring) :
  filter isWordChar (trim s) = filter isWordChar s.
Proof.
  destruct (trim_split s) as [w1 [w2 [E [F1 F2]]]].
  rewrite E at 2. rewrite !filter_app.
  rewrite (filter_spaces _ w1 word_not_space F1),
          (filter_spaces _ w2 word_not_space F2).
  now rewrite app_nil_r.
Qed.

Lemma filter_twice {A} (p q : A -> bool) (l : list A) :
  (forall x, p x = true -> q x = true) -> filter p (filter q l) = filter p l.
Proof.
  intros H. induction l as [|x l IH]; simpl; [reflexivity|].
  destruct (q x) eqn:Q; simpl.
  - destruct (p x); now rewrite IH.
  - destruct (p x) eqn:P; [apply H in P; congruence | exact IH].
Qed.

Lemma filter_map_lower (p : ascii -> bool) (s : jsstring) :
  (forall c, p (toLowerChar c) = p c) ->
  filter p (toLowerCase s) = toLowerCase (filter p s).
Proof.
  intros H. unfold toLowerCase. induction s as [|x s IH]; simpl; [reflexivity|].
  rewrite H. destruct (p x); simpl; now rewrite IH.
Qed.

Lemma toLowerCase_idem (s : jsstring) : toLowerCase (toLowerCase s) = toLowerCase s.
Proof.
  unfold toLowerCase. rewrite map_map. apply map_ext. intros c. apply lower_idem.
Qed.

(** ** The header normaliser *)

Lemma normalizeKey_closed (s : jsstring) :
  normalizeKey s = toLowerCase (filter isWordChar s).
Proof.
  unfold normalizeKey. f_equal.
  rewrite filter_twice.
  - apply filter_word_trim.
  - intros c H. now rewrite (word_not_nbsp c H).
Qed.

Lemma normalizeKey_idem (s : jsstring) : normalizeKey (normalizeKey s) = normalizeKey s.
Proof.
  rewrite !normalizeKey_closed.
  rewrite (filter_map_lower _ _ word_lower), toLowerCase_idem.
  f_equal. apply filter_twice. auto.
Qed.

Lemma normalizeKey_lower (s : jsstring) : normalizeKey (toLowerCase s) = normalizeKey s.
Proof.
  rewrite !normalizeKey_closed.
  now rewrite (filter_map_lower _ _ word_lower), toLowerCase_idem.
Qed.

Lemma endsWith_dropLast (s : jsstring) (c : ascii) :
  endsWith s [c] = true -> s = dropLast s ++ [c].
Proof.
  unfold endsWith, dropLast. destruct s as [|x s] using rev_ind; [discriminate|].
  rewrite rev_app_distr, removelast_last. simpl.
  intros H. apply andb_true_iff in H as [H _]. apply Ascii.eqb_eq in H. now subst.
Qed.

Lemma normalizeKey_lower_units (s : jsstring) :
  forallb (fun c => Ascii.eqb (toLowerChar c) c) (normalizeKey s) = true.
Proof.
  rewrite normalizeKey_closed. apply forallb_forall. intros c Hc.
  unfold toLowerCase in Hc. apply in_map_iff in Hc as [d [<- _]].
  apply Ascii.eqb_eq, lower_idem.
Qed.

(** Of the members of [Object.prototype], two have a name without capital
    letters. *)
Lemma lower_member (m : jsstring) :
  In m Object_prototype ->
  forallb (fun c => Ascii.eqb (toLowerChar c) c) m = true ->
  In m [lit "constructor"; lit "__proto__"].
Proof.
  intros H L. simpl in H.
  repeat (destruct H as [<- | H];
          [first [left; reflexivity | right; left; reflexivity
                 | vm_compute in L; discriminate L]|]).
  destruct H.
Qed.

(** ** Column resolution *)

Lemma includes_empty (s : jsstring) : includes s [] = true.
Proof. now destruct s. Qed.

(** C3, where the code leaves it.  The empty string normalises to the empty
    key, and so does the header "#"; [canonicalColumnFor] gives such a
    header no column.  In the resolver, though, the substring step asks
    whether the column's key includes the header's key, which is true of the
    empty key: in a row whose only header is "#" every canonical column
    resolves to that header and takes its cell. *)
Theorem empty_key_header_resolves_every_column :
  normalizeKey [] = [] /\
  normalizeKey (lit "#") = [] /\
  canonicalColumnFor (lit "#") = None /\
  (forall desiredNorm : jsstring,
     includes (normalizeKey (lit "#")) desiredNorm ||
     includes desiredNorm (normalizeKey (lit "#")) = true) /\
  map (resolveColumn [(lit "#", lit "x")]) EXPECTED_COLS
  = map (fun _ => Some (lit "#")) EXPECTED_COLS /\
  normalizeRow [(lit "#", lit "x")]
  = [(lit "NO", lit "x"); (lit "ContainerNum", lit "x"); (lit "BoxNum", lit "x");
     (lit "Container", lit "x"); (lit "BoxName", lit "x"); (lit "ItemCount", lit "x");
     (lit "Kits", lit "x"); (lit "Factory", lit "x"); (lit "REMARKS", lit "x");
     (lit "#", lit "x")].
Proof.
  repeat split; try reflexivity.
  intros desiredNorm. change (normalizeKey (lit "#")) with (@nil ascii).
  rewrite includes_empty. apply orb_true_r.
Qed.

Lemma values_set {A} (o : dict A) (k : jsstring) (v x : A) :
  In x (values (set o k v)) -> x = v \/ In x (values o).
Proof.
  induction o as [|[k' v'] o IH]; simpl.
  - intros [H | []]. now left.
  - destruct (eqb_str k' k); simpl; intros [H | H]; auto.
    destruct (IH H); auto.
Qed.

Lemma get_in_values {A} (o : dict A) (k : jsstring) (v : A) :
  get o k = Some v -> In v (values o).
Proof.
  induction o as [|[k' v'] o IH]; simpl; [discriminate|].
  destruct (eqb_str k' k); intros H; [injection H as ->; now left | right; auto].
Qed.

Lemma headerMap_values (r : object) (h : jsstring) :
  In h (values (headerMap r)) -> In h (keys r).
Proof.
  unfold headerMap, headerKeys.
  assert (G : forall (hs : list jsstring) (m : object),
            In h (values (fold_left (fun m h => set m (normalizeKey h) h) hs m)) ->
            In h (values m) \/ In h hs).
  { induction hs as [|x hs IH]; intros m H; simpl in *; [now left|].
    apply IH in H as [H | H]; [|tauto].
    apply values_set in H as [-> | H]; tauto. }
  intros H. apply G in H as [[] | H]. exact H.
Qed.

Lemma getTruthy_headerMap (r : object) (k h : jsstring) :
  getTruthy (headerMap r) k = Some h -> In h (keys r).
Proof.
  unfold getTruthy. destruct (get (headerMap r) k) as [v|] eqn:E; [|discriminate].
  destruct (truthy v); [|discriminate]. intros H. injection H as <-.
  apply headerMap_values. now apply get_in_values in E.
Qed.

Lemma findHeader_in_keys (p : jsstring -> bool) (r : object) (h : jsstring) :
  findHeader p r = Some h -> In h (keys r).
Proof.
  unfold findHeader, headerKeys. destruct (find p (keys r)) as [x|] eqn:E; [|discriminate].
  destruct (truthy x); [|discriminate]. intros H. injection H as <-.
  now apply find_some in E.
Qed.

Lemma orElse_Some {A} (a b : option A) (x : A) :
  orElse a b = Some x -> a = Some x \/ b = Some x.
Proof. destruct a; simpl; auto. Qed.

(** The header a column resolves to is one of the headers of the row, so
    reading its cell never meets an absent property. *)
Lemma resolveColumn_in_keys (r : object) (col h : jsstring) :
  resolveColumn r col = Some h -> In h (keys r).
Proof.
  unfold resolveColumn. cbv zeta. intros H.
  apply orElse_Some in H as [H | H];
    [|apply orElse_Some in H as [H | H]; [|apply orElse_Some in H as [H | H]]].
  - destruct (getTruthy (headerMap r) (normalizeKey col)) as [h1|] eqn:E1.
    + injection H as <-. now apply getTruthy_headerMap in E1.
    + destruct (find _ COLUMN_ALIASES) as [kv|]; [|discriminate].
      now apply getTruthy_headerMap in H.
  - now apply findHeader_in_keys in H.
  - now apply findHeader_in_keys in H.
  - destruct (find _ COLUMN_ALIASES) as [kv|]; [|discriminate].
    now apply getTruthy_headerMap in H.
Qed.

Lemma NoDup_EXPECTED_COLS : NoDup EXPECTED_COLS.
Proof.
  unfold EXPECTED_COLS.
  repeat (constructor; [vm_compute; intuition discriminate|]). constructor.
Qed.

Lemma expected_is_canonical (k : jsstring) :
  In k EXPECTED_COLS -> canonicalColumnFor k = Some (Str k).
Proof.
  intros H. simpl in H.
  repeat (destruct H as [<- | H]; [reflexivity|]). destruct H.
Qed.

Lemma set_new {A} (o : dict A) (k : jsstring) (v : A) :
  ~ In k (keys o) -> set o k v = o ++ [(k, v)].
Proof.
  induction o as [|[k' v'] o IH]; simpl; intros H; [reflexivity|].
  destruct (eqb_str k' k) eqn:E.
  - apply eqb_str_eq in E. exfalso. auto.
  - f_equal. apply IH. tauto.
Qed.

Lemma keys_app {A} (a b : dict A) : keys (a ++ b) = keys a ++ keys b.
Proof. apply map_app. Qed.

Lemma fold_set_fresh {A} (f : jsstring -> A) (cols : list jsstring) (acc : dict A) :
  NoDup cols -> (forall c, In c cols -> ~ In c (keys acc)) ->
  fold_left (fun nr col => set nr col (f col)) cols acc
  = acc ++ map (fun col => (col, f col)) cols.
Proof.
  revert acc. induction cols as [|c cols IH]; intros acc Hnd Hfresh; simpl.
  - now rewrite app_nil_r.
  - apply NoDup_cons_iff in Hnd as [Hc Hnd].
    rewrite set_new by (apply Hfresh; now left).
    rewrite IH; [now rewrite <- app_assoc | exact Hnd |].
    intros c' Hc'. rewrite keys_app, in_app_iff. simpl.
    intros [H | [H | []]].
    + apply (Hfresh c'); [now right | exact H].
    + subst. contradiction.
Qed.

Lemma fold_extras (r : object) (ks : list jsstring) (acc : object) :
  NoDup ks ->
  (forall k, In k ks -> canonicalColumnFor k = None -> ~ In k (keys acc)) ->
  fold_left
    (fun nr k =>
       match canonicalColumnFor k with
       | Some _ => nr
       | None => set nr k (field r k)
       end) ks acc
  = acc ++ map (fun k => (k, field r k))
               (filter (fun k => match canonicalColumnFor k with
                                 | None => true | Some _ => false end) ks).
Proof.
  revert acc. induction ks as [|k ks IH]; intros acc Hnd Hfresh; simpl.
  - now rewrite app_nil_r.
  - apply NoDup_cons_iff in Hnd as [Hk Hnd].
    destruct (canonicalColumnFor k) as [c|] eqn:E.
    + apply IH; [exact Hnd|]. intros k' Hk'. apply Hfresh. now right.
    + rewrite set_new by (apply Hfresh; [now left | exact E]).
      rewrite IH; [simpl; now rewrite <- app_assoc | exact Hnd |].
      intros k' Hk' E'. rewrite keys_app, in_app_iff. simpl.
      intros [H | [H | []]].
      * apply (Hfresh k'); [now right | exact E' | exact H].
      * subst. contradiction.
Qed.

Lemma get_app {A} (a b : dict A) (k : jsstring) :
  get (a ++ b) k = match get a k with Some v => Some v | None => get b k end.
Proof.
  induction a as [|[k' v'] a IH]; simpl; [reflexivity|].
  now destruct (eqb_str k' k).
Qed.

Lemma get_tabulate {A} (f : jsstring -> A) (ks : list jsstring) (k : jsstring) :
  get (map (fun k => (k, f k)) ks) k = if existsb (eqb_str k) ks then Some (f k) else None.
Proof.
  induction ks as [|k' ks IH]; simpl; [reflexivity|].
  destruct (eqb_str k' k) eqn:E.
  - apply eqb_str_eq in E. subst. now rewrite eqb_str_refl.
  - apply eqb_str_neq in E.
    destruct (eqb_str k k') eqn:E'; [apply eqb_str_eq in E'; congruence | exact IH].
Qed.

Lemma keys_tabulate {A} (f : jsstring -> A) (ks : list jsstring) :
  keys (map (fun k => (k, f k)) ks) = ks.
Proof. induction ks as [|k ks IH]; simpl; [reflexivity | now rewrite IH]. Qed.

Lemma get_In_nodup {A} (o : dict A) (k : jsstring) (v : A) :
  NoDup (keys o) -> In (k, v) o -> get o k = Some v.
Proof.
  induction o as [|[k' v'] o IH]; simpl; intros Hnd Hin; [destruct Hin|].
  apply NoDup_cons_iff in Hnd as [Hk Hnd]. destruct Hin as [E | Hin].
  - injection E as -> ->. now rewrite eqb_str_refl.
  - destruct (eqb_str k' k) eqn:E; [|now apply IH].
    apply eqb_str_eq in E. subst. exfalso. apply Hk.
    apply (in_map fst) in Hin. exact Hin.
Qed.

(** The alias table, read at any key: an alias gives a canonical column,
    the name of an inherited member gives that member, anything else
    nothing. *)
Lemma alias_cases (k : jsstring) :
  (get COLUMN_ALIASES k = None /\ ~ In k (keys COLUMN_ALIASES)) \/
  (exists c, get COLUMN_ALIASES k = Some c /\ In c EXPECTED_COLS /\ truthy c = true /\
             In k (keys COLUMN_ALIASES)).
Proof.
  destruct (get COLUMN_ALIASES k) as [c|] eqn:E.
  - right. exists c. split; [reflexivity|].
    pose proof (get_Some_keys _ _ _ E) as Hk.
    revert E. unfold COLUMN_ALIASES. cbn [get].
    repeat (destruct (eqb_str _ k);
            [intros H; injection H as <-;
             split; [apply existsb_eqb_In; reflexivity | split; [reflexivity | exact Hk]]|]).
    discriminate.
  - left. split; [reflexivity|]. now apply get_None_keys.
Qed.

Lemma lookupTruthy_aliases (k : jsstring) :
  match lookupTruthy COLUMN_ALIASES k with
  | Some (Str c) => In c EXPECTED_COLS /\ In k (keys COLUMN_ALIASES)
  | Some (Member m) => m = k /\ In k Object_prototype /\ ~ In k (keys COLUMN_ALIASES)
  | None => ~ In k (keys COLUMN_ALIASES) /\ ~ In k Object_prototype
  end.
Proof.
  unfold lookupTruthy, lookup.
  destruct (alias_cases k) as [[E Hk] | [c [E [Hc [Ht Hk]]]]]; rewrite E.
  - unfold inherited. destruct (existsb (eqb_str k) Object_prototype) eqn:Ex; simpl.
    + apply existsb_eqb_In in Ex. auto.
    + split; [exact Hk|]. intros H.
      apply (proj2 (existsb_eqb_In k Object_prototype)) in H. congruence.
  - simpl. rewrite Ht. auto.
Qed.


(** Under distinct headers a normalised row is the canonical columns, each
    with its cell, and then the extras, in the order in which the properties
    are made. *)
Lemma normalizeRow_cells (r : object) :
  NoDup (keys r) ->
  normalizeRow r =
    map (fun col => (col, match resolveColumn r col with
                          | Some h => field r h | None => [] end)) EXPECTED_COLS ++
    map (fun k => (k, field r k))
        (filter (fun k => match canonicalColumnFor k with
                          | None => true | Some _ => false end) (keys r)).
Proof.
  intros Hnd.
  pose proof (fold_set_fresh
                (fun col => match resolveColumn r col with
                            | Some h => field r h | None => [] end)
                EXPECTED_COLS [] NoDup_EXPECTED_COLS (fun _ _ H => H)) as E0.
  unfold normalizeRow. rewrite E0.
  rewrite app_nil_l. apply fold_extras; [exact Hnd|].
  intros k _ E. rewrite keys_tabulate. intros Hin.
  apply expected_is_canonical in Hin. congruence.
Qed.




(** * Further properties of the script *)

(** X1.  [normalizeKey] keeps the letters, digits and underscores of a
    header, lower-cased, and nothing else: trimming and the removal of
    non-breaking spaces change nothing that the removal of non-word units
    would not.  So a key is made of lower-case letters, digits and
    underscores only, normalising a key again gives the key, two headers
    that differ in letter case, white space or punctuation have one key, and
    the key of a concatenation is the concatenation of the keys. *)
Theorem normalizeKey_word_units (s t : jsstring) :
  normalizeKey s = toLowerCase (filter isWordChar s) /\
  Forall (fun c => isWordChar c = true /\ toLowerChar c = c) (normalizeKey s) /\
  normalizeKey (normalizeKey s) = normalizeKey s /\
  normalizeKey (toLowerCase s) = normalizeKey s /\
  normalizeKey (filter isWordChar s) = normalizeKey s /\
  normalizeKey (trim s) = normalizeKey s /\
  normalizeKey (s ++ t) = normalizeKey s ++ normalizeKey t.
Proof.
  split; [apply normalizeKey_closed|]. split; [|split; [apply normalizeKey_idem|]].
  - rewrite normalizeKey_closed. unfold toLowerCase. apply Forall_forall.
    intros c Hc. apply in_map_iff in Hc as [x [<- Hx]].
    apply filter_In in Hx as [_ Hx]. now rewrite word_lower, lower_idem.
  - split; [apply normalizeKey_lower|]. split; [|split].
    + rewrite !normalizeKey_closed. f_equal. apply filter_twice. auto.
    + rewrite !normalizeKey_closed. f_equal. apply filter_word_trim.
    + rewrite !normalizeKey_closed, filter_app. unfold toLowerCase. apply map_app.
Qed.

(** ** File keys *)

Lemma replaceSpaceRuns_id (b : bool) (s : jsstring) :
  Forall (fun c => isWhiteSpace c = false) s -> replaceSpaceRuns b s = s.
Proof.
  intros H. revert b. induction H as [|x s Hx _ IH]; intros b; simpl; [reflexivity|].
  now rewrite Hx, IH.
Qed.

Lemma makeKey_units (s : jsstring) :
  Forall (fun c => isKeyChar c = true /\ toLowerChar c = c) (makeKey s).
Proof.
  unfold makeKey, toLowerCase. apply Forall_forall. intros c Hc.
  apply in_map_iff in Hc as [x [<- Hx]]. apply filter_In in Hx as [_ Hx].
  now rewrite keyChar_lower, lower_idem.
Qed.

(** X2.  [makeKey] gives a key made only of lower-case letters, digits,
    "_", "-" and ".", with no white space in it, and a key is its own key:
    deriving the key of a key changes nothing. *)
Theorem makeKey_idempotent (fileName : jsstring) :
  Forall (fun c => isKeyChar c = true /\ toLowerChar c = c /\ isWhiteSpace c = false)
         (makeKey fileName) /\
  makeKey (makeKey fileName) = makeKey fileName.
Proof.
  pose proof (makeKey_units fileName) as H. split.
  - eapply Forall_impl; [|exact H]. intros c [H1 H2].
    repeat split; trivial. now apply keyChar_not_space.
  - remember (makeKey fileName) as k eqn:Ek. clear Ek. unfold makeKey.
    rewrite replaceSpaceRuns_id.
    + induction H as [|c k [H1 H2] _ IH]; simpl; [reflexivity|].
      rewrite H1. simpl. now rewrite H2, IH.
    + eapply Forall_impl; [|exact H]. intros c [H1 _]. now apply keyChar_not_space.
Qed.

(** ** Canonical columns *)




(** X3.  [canonicalColumnFor] returns a column of the schema, or nothing,
    or, for a header whose key is "constructor" or "__proto__" with or
    without a final "s" and for no other, the member of that name which the
    alias table inherits.  It returns every column of the schema for its own
    name, and it looks at nothing but the normalised key: headers with one
    key get one answer, so letter case, white space and punctuation in a
    header never change it. *)
Theorem canonicalColumnFor_schema (h h' c m : jsstring) :
  (canonicalColumnFor h = Some (Str c) -> In c EXPECTED_COLS) /\
  (canonicalColumnFor h = Some (Member m) ->
     In m [lit "constructor"; lit "__proto__"] /\
     (normalizeKey h = m \/ normalizeKey h = m ++ lit "s")) /\
  (In m [lit "constructor"; lit "__proto__"] -> normalizeKey h = m ->
     canonicalColumnFor h = Some (Member m)) /\
  (In c EXPECTED_COLS -> canonicalColumnFor c = Some (Str c)) /\
  (normalizeKey h = normalizeKey h' -> canonicalColumnFor h = canonicalColumnFor h') /\
  canonicalColumnFor (normalizeKey h) = canonicalColumnFor h /\
  canonicalColumnFor (toLowerCase h) = canonicalColumnFor h /\
  canonicalColumnFor (trim h) = canonicalColumnFor h.
Proof.
  assert (Hkey : forall a b, normalizeKey a = normalizeKey b ->
            canonicalColumnFor a = canonicalColumnFor b).
  { intros a b H. unfold canonicalColumnFor. now rewrite H. }
  split; [|split; [|split; [|split; [apply expected_is_canonical|split; [apply Hkey|split; [|split]]]]]].
  - unfold canonicalColumnFor. destruct (negb (truthy (normalizeKey h))); [discriminate|].
    destruct (find _ EXPECTED_COLS) as [c0|] eqn:E.
    + intros H. injection H as <-. now apply find_some in E.
    + pose proof (lookupTruthy_aliases (normalizeKey h)) as L1.
      pose proof (lookupTruthy_aliases (dropLast (normalizeKey h))) as L2.
      destruct (lookupTruthy COLUMN_ALIASES (normalizeKey h)) as [v|].
      * intros H. injection H as ->. tauto.
      * destruct (endsWith _ _); [|discriminate].
        intros H. rewrite H in L2. tauto.
  - pose proof (normalizeKey_lower_units h) as Hlow.
    unfold canonicalColumnFor. destruct (negb (truthy (normalizeKey h))); [discriminate|].
    destruct (find _ EXPECTED_COLS) as [c0|] eqn:E; [discriminate|].
    pose proof (lookupTruthy_aliases (normalizeKey h)) as L1.
    pose proof (lookupTruthy_aliases (dropLast (normalizeKey h))) as L2.
    destruct (lookupTruthy COLUMN_ALIASES (normalizeKey h)) as [v|].
    + intros H. injection H as ->. destruct L1 as [-> [L1 _]].
      split; [now apply lower_member | now left].
    + destruct (endsWith (normalizeKey h) (lit "s")) eqn:Es; [|discriminate].
      intros H. rewrite H in L2. destruct L2 as [-> [L2 _]].
      apply (endsWith_dropLast (normalizeKey h) "s"%char) in Es.
      split; [|now right]. apply lower_member; [exact L2|].
      rewrite Es, forallb_app in Hlow. now apply andb_true_iff in Hlow as [Hlow _].
  - intros Hm E. rewrite (Hkey h m).
    + simpl in Hm. destruct Hm as [<- | [<- | []]]; reflexivity.
    + rewrite E. simpl in Hm. destruct Hm as [<- | [<- | []]]; reflexivity.
  - unfold canonicalColumnFor. now rewrite normalizeKey_idem.
  - unfold canonicalColumnFor. now rewrite normalizeKey_lower.
  - unfold canonicalColumnFor.
    now rewrite !(normalizeKey_closed (trim h)), filter_word_trim, <- normalizeKey_closed.
Qed.

Lemma canonicalColumnFor_schema_witness :
  In (lit "BoxNum") EXPECTED_COLS /\
  canonicalColumnFor (lit " Box-No. ") = canonicalColumnFor (lit "boxno") /\
  canonicalColumnFor (lit "Constructor") = Some (Member (lit "constructor")) /\
  normalizeKey (lit "Constructors") = lit "constructor" ++ lit "s".
Proof.
  destruct (canonicalColumnFor_schema (lit " Box-No. ") (lit "boxno") (lit "BoxNum")
                                      (lit "constructor"))
    as [H1 [_ [_ [_ [H5 _]]]]].
  destruct (canonicalColumnFor_schema (lit "Constructor") [] [] (lit "constructor"))
    as [_ [_ [H3 _]]].
  destruct (canonicalColumnFor_schema (lit "Constructors") [] [] (lit "constructor"))
    as [_ [H2 _]].
  split; [apply H1; reflexivity|]. split; [apply H5; reflexivity|].
  split; [apply H3; [simpl; tauto | reflexivity]|].
  destruct (H2 eq_refl) as [_ [H | H]]; [discriminate H | exact H].
Defined.

(** ** Exact header matches *)

Lemma find_app {A} (p : A -> bool) (a b : list A) :
  find p (a ++ b) = match find p a with Some x => Some x | None => find p b end.
Proof.
  induction a as [|x a IH]; simpl; [reflexivity|]. now destruct (p x).
Qed.

Lemma get_set {A} (o : dict A) (k k' : jsstring) (v : A) :
  get (set o k v) k' = if eqb_str k k' then Some v else get o k'.
Proof.
  destruct (eqb_str k k') eqn:E.
  - apply eqb_str_eq in E. subst. apply get_set_same.
  - apply eqb_str_neq in E. now apply get_set_other.
Qed.

(** What [headerMap] holds under a key: the last header with that key. *)
Lemma headerMap_get (r : object) (k : jsstring) :
  get (headerMap r) k = find (fun h => eqb_str (normalizeKey h) k) (rev (keys r)).
Proof.
  unfold headerMap, headerKeys.
  assert (G : forall (hs : list jsstring) (m : object),
            get (fold_left (fun m h => set m (normalizeKey h) h) hs m) k =
            match find (fun h => eqb_str (normalizeKey h) k) (rev hs) with
            | Some h => Some h
            | None => get m k
            end).
  { induction hs as [|x hs IH]; intros m; simpl; [reflexivity|].
    rewrite IH, find_app, get_set. simpl.
    destruct (find _ (rev hs)); [reflexivity|].
    now destruct (eqb_str (normalizeKey x) k). }
  rewrite G. now destruct (find _ (rev (keys r))).
Qed.

Lemma normalizeKey_nil : normalizeKey [] = [].
Proof. reflexivity. Qed.

Lemma resolveColumn_exact (r : object) (col h : jsstring) :
  normalizeKey col <> [] ->
  find (fun h => eqb_str (normalizeKey h) (normalizeKey col)) (rev (keys r)) = Some h ->
  resolveColumn r col = Some h.
Proof.
  intros Hne Hfind. unfold resolveColumn. cbv zeta.
  unfold getTruthy at 1. rewrite headerMap_get, Hfind.
  assert (Ht : truthy h = true).
  { apply find_some in Hfind as [_ E]. apply eqb_str_eq in E.
    destruct h; [|reflexivity]. rewrite normalizeKey_nil in E. congruence. }
  now rewrite Ht.
Qed.

Lemma get_cells {A} (f g : jsstring -> A) (cols ex : list jsstring) (k : jsstring) :
  get (map (fun c => (c, f c)) cols ++ map (fun k => (k, g k)) ex) k =
  if existsb (eqb_str k) cols then Some (f k)
  else if existsb (eqb_str k) ex then Some (g k) else None.
Proof.
  rewrite get_app, !get_tabulate. now destruct (existsb (eqb_str k) cols).
Qed.

(** X4.  An exactly named column wins.  When some header of the raw row has
    the normalised key of a canonical column, the column resolves to the
    last such header, whatever aliases or look-alike headers the row has,
    and the normalised row carries that header's cell; the header chosen is
    always a header of the row. *)
Theorem exact_header_wins (r : object) (col h : jsstring) :
  NoDup (keys r) ->
  In col EXPECTED_COLS ->
  find (fun h => eqb_str (normalizeKey h) (normalizeKey col)) (rev (keys r)) = Some h ->
  resolveColumn r col = Some h /\
  In h (keys r) /\
  normalizeKey h = normalizeKey col /\
  get (normalizeRow r) col = get r h.
Proof.
  intros Hnd Hcol Hfind.
  assert (Hne : normalizeKey col <> []).
  { simpl in Hcol.
    repeat (destruct Hcol as [<- | Hcol]; [vm_compute; discriminate|]). destruct Hcol. }
  pose proof (resolveColumn_exact r col h Hne Hfind) as Hres.
  pose proof (find_some _ _ Hfind) as [Hin Hkey].
  apply in_rev in Hin. apply eqb_str_eq in Hkey.
  repeat split; trivial.
  rewrite (normalizeRow_cells r Hnd), get_cells.
  rewrite (proj2 (existsb_eqb_In col EXPECTED_COLS) Hcol), Hres.
  unfold field. apply in_map_iff in Hin as [[k v] [E Hkv]]. simpl in E. subst k.
  now rewrite (get_In_nodup r h v Hnd Hkv).
Qed.

Lemma exact_header_wins_witness :
  get (normalizeRow [(lit "Box", lit "a"); (lit "remarks", lit "old");
                     (lit "Status", lit "s"); (lit "Remarks ", lit "new")])
      (lit "REMARKS") = Some (lit "new").
Proof.
  assert (Hnd : NoDup (keys [(lit "Box", lit "a"); (lit "remarks", lit "old");
                             (lit "Status", lit "s"); (lit "Remarks ", lit "new")])).
  { repeat (constructor; [vm_compute; intuition discriminate|]). constructor. }
  destruct (exact_header_wins _ (lit "REMARKS") (lit "Remarks ") Hnd) as [_ [_ [_ H]]].
  - vm_compute. tauto.
  - reflexivity.
  - exact H.
Defined.

(** ** Normalising twice, and writing the Data sheet *)

Lemma find_nothing {A} (p : A -> bool) (l : list A) :
  (forall x, In x l -> p x = false) -> find p l = None.
Proof.
  induction l as [|x l IH]; simpl; intros H; [reflexivity|].
  rewrite (H x (or_introl eq_refl)). apply IH. intros y Hy. apply H. now right.
Qed.

Lemma filter_all {A} (p : A -> bool) (l : list A) :
  (forall x, In x l -> p x = true) -> filter p l = l.
Proof.
  induction l as [|x l IH]; simpl; intros H; [reflexivity|].
  rewrite (H x (or_introl eq_refl)). f_equal. apply IH. intros y Hy. apply H. now right.
Qed.

Lemma expected_key_truthy (col : jsstring) :
  In col EXPECTED_COLS -> normalizeKey col <> [].
Proof.
  intros H. simpl in H.
  repeat (destruct H as [<- | H]; [vm_compute; discriminate|]). destruct H.
Qed.

Lemma expected_find_self (col : jsstring) :
  In col EXPECTED_COLS ->
  find (fun h => eqb_str (normalizeKey h) (normalizeKey col)) (rev EXPECTED_COLS)
  = Some col.
Proof.
  intros H. simpl in H.
  repeat (destruct H as [<- | H]; [reflexivity|]). destruct H.
Qed.

Lemma extra_key_fresh (k col : jsstring) :
  canonicalColumnFor k = None -> In col EXPECTED_COLS ->
  eqb_str (normalizeKey k) (normalizeKey col) = false.
Proof.
  intros H Hcol. apply eqb_str_neq. intros E. unfold canonicalColumnFor in H.
  destruct (truthy (normalizeKey k)) eqn:T; cbn [negb] in H.
  - destruct (find _ EXPECTED_COLS) as [c|] eqn:F; [discriminate|].
    pose proof (find_none _ _ F col Hcol) as Hf. cbv beta in Hf.
    rewrite E, eqb_str_refl in Hf. discriminate.
  - destruct (normalizeKey k); [|discriminate].
    symmetry in E. now apply expected_key_truthy in E.
Qed.

Section NormalisedRow.
Variable r : object.
Hypothesis distinct_headers : NoDup (keys r).

Let isExtra := fun k : jsstring =>
  match canonicalColumnFor k with None => true | Some _ => false end.
Let cell := fun col : jsstring =>
  match resolveColumn r col with Some h => field r h | None => [] end.
Let extras := filter isExtra (keys r).

Lemma normalised_keys : keys (normalizeRow r) = EXPECTED_COLS ++ extras.
Proof.
  rewrite (normalizeRow_cells r distinct_headers), keys_app, !keys_tabulate.
  reflexivity.
Qed.

Lemma extras_not_expected (k : jsstring) : In k extras -> ~ In k EXPECTED_COLS.
Proof.
  intros Hk Hin. apply filter_In in Hk as [_ Hk]. unfold isExtra in Hk.
  now rewrite (expected_is_canonical k Hin) in Hk.
Qed.

Lemma normalised_nodup : NoDup (keys (normalizeRow r)).
Proof.
  rewrite normalised_keys. apply NoDup_app.
  - apply NoDup_EXPECTED_COLS.
  - apply NoDup_filter, distinct_headers.
  - intros k Hin Hk. exact (extras_not_expected k Hk Hin).
Qed.

Lemma normalised_field_col (col : jsstring) :
  In col EXPECTED_COLS -> field (normalizeRow r) col = cell col.
Proof.
  intros Hin. unfold field.
  rewrite (normalizeRow_cells r distinct_headers), get_cells.
  now rewrite (proj2 (existsb_eqb_In col EXPECTED_COLS) Hin).
Qed.

Lemma normalised_field_extra (k : jsstring) :
  In k extras -> field (normalizeRow r) k = field r k.
Proof.
  intros Hk. unfold field at 1.
  rewrite (normalizeRow_cells r distinct_headers), get_cells.
  destruct (existsb (eqb_str k) EXPECTED_COLS) eqn:E.
  - apply existsb_eqb_In in E. exfalso. exact (extras_not_expected k Hk E).
  - fold isExtra. fold extras. now rewrite (proj2 (existsb_eqb_In k extras) Hk).
Qed.

Lemma normalised_resolve (col : jsstring) :
  In col EXPECTED_COLS -> resolveColumn (normalizeRow r) col = Some col.
Proof.
  intros Hin. apply resolveColumn_exact; [now apply expected_key_truthy|].
  rewrite normalised_keys, rev_app_distr, find_app.
  rewrite find_nothing; [now apply expected_find_self|].
  intros k Hk. apply in_rev in Hk. apply filter_In in Hk as [_ Hk].
  unfold isExtra in Hk. destruct (canonicalColumnFor k) eqn:E; [discriminate|].
  now apply extra_key_fresh.
Qed.

Lemma normalised_extras :
  filter isExtra (keys (normalizeRow r)) = extras.
Proof.
  rewrite normalised_keys, filter_app.
  rewrite filter_nothing, app_nil_l.
  - apply filter_all. intros k Hk. now apply filter_In in Hk.
  - intros k Hk. unfold isExtra. now rewrite (expected_is_canonical k Hk).
Qed.

Lemma normalizeRow_again : normalizeRow (normalizeRow r) = normalizeRow r.
Proof.
  rewrite (normalizeRow_cells (normalizeRow r) normalised_nodup).
  fold isExtra. rewrite normalised_extras.
  etransitivity; [|symmetry; apply (normalizeRow_cells r distinct_headers)].
  fold isExtra. fold extras. f_equal.
  - apply map_ext_in. intros col Hin.
    now rewrite (normalised_resolve col Hin), (normalised_field_col col Hin).
  - apply map_ext_in. intros k Hk. now rewrite (normalised_field_extra k Hk).
Qed.
End NormalisedRow.

Lemma fold_set_unless (g : jsstring -> bool) (f : jsstring -> jsstring)
      (ks : list jsstring) (acc : object) :
  NoDup ks ->
  (forall k, In k ks -> g k = false -> ~ In k (keys acc)) ->
  fold_left (fun out k => if g k then out else set out k (f k)) ks acc
  = acc ++ map (fun k => (k, f k)) (filter (fun k => negb (g k)) ks).
Proof.
  revert acc. induction ks as [|k ks IH]; intros acc Hnd Hfresh; simpl.
  - now rewrite app_nil_r.
  - apply NoDup_cons_iff in Hnd as [Hk Hnd].
    destruct (g k) eqn:E; simpl.
    + apply IH; [exact Hnd|]. intros k' Hk'. apply Hfresh. now right.
    + rewrite set_new by (apply Hfresh; [now left | exact E]).
      rewrite IH; [now rewrite <- app_assoc | exact Hnd |].
      intros k' Hk' E'. rewrite keys_app, in_app_iff. simpl.
      intros [H | [H | []]].
      * apply (Hfresh k'); [now right | exact E' | exact H].
      * subst. contradiction.
Qed.

Lemma get_of_key {A} (o : dict A) (k : jsstring) :
  In k (keys o) -> exists v, get o k = Some v.
Proof.
  intros H. destruct (get o k) as [v|] eqn:E; [now exists v|].
  apply get_None_keys in E. contradiction.
Qed.

Lemma fold_left_same {A B} (f g : A -> B -> A) (l : list B) (a : A) :
  (forall a b, f a b = g a b) -> fold_left f l a = fold_left g l a.
Proof.
  intros H. revert a. induction l as [|b l IH]; intros a; simpl; [reflexivity|].
  now rewrite H, IH.
Qed.

Lemma dataRow_cells (r : object) :
  NoDup (keys r) ->
  dataRow r =
    map (fun c => (c, field r c)) EXPECTED_COLS ++
    map (fun k => (k, field r k)) (filter otherKey (keys r)).
Proof.
  intros Hnd. unfold dataRow.
  rewrite (fold_set_fresh (field r) EXPECTED_COLS [] NoDup_EXPECTED_COLS (fun _ _ H => H)).
  rewrite app_nil_l.
  rewrite (fold_left_same _
             (fun out k =>
                if existsb (eqb_str k) EXPECTED_COLS || eqb_str k (lit "__proto__")
                then out else set out k (field r k))).
  - apply (fold_set_unless
             (fun k => existsb (eqb_str k) EXPECTED_COLS || eqb_str k (lit "__proto__"))
             (field r));
      [exact Hnd|].
    intros k _ E. rewrite keys_tabulate. intros Hin.
    apply existsb_eqb_In in Hin. rewrite Hin in E. discriminate.
  - intros out k. unfold assign.
    now destruct (existsb (eqb_str k) EXPECTED_COLS), (eqb_str k (lit "__proto__")).
Qed.

Lemma extra_not_proto (k : jsstring) :
  canonicalColumnFor k = None -> k <> lit "__proto__".
Proof. intros H ->. vm_compute in H. discriminate H. Qed.

(** X5.  Normalising is idempotent: a row that [normalizeRow] produced from
    a raw row with distinct headers is left exactly as it is when it is
    normalised again; every canonical column then resolves to itself. *)
Theorem normalizeRow_idempotent (r : object) :
  NoDup (keys r) ->
  normalizeRow (normalizeRow r) = normalizeRow r /\
  NoDup (keys (normalizeRow r)) /\
  (forall col, In col EXPECTED_COLS ->
     resolveColumn (normalizeRow r) col = Some col).
Proof.
  intros Hnd. split; [now apply normalizeRow_again|].
  split; [now apply normalised_nodup|].
  intros col Hin. now apply normalised_resolve.
Qed.

Lemma normalizeRow_idempotent_witness :
  let r := [(lit "Box No", lit "7"); (lit "Inspector", lit "Ali");
            (lit "Container Number", lit "2")] in
  normalizeRow (normalizeRow r) = normalizeRow r.
Proof.
  intros r. apply normalizeRow_idempotent.
  repeat (constructor; [vm_compute; intuition discriminate|]). constructor.
Defined.

(** X6.  The Data sheet of the export holds the stored rows as they are:
    the row written for a normalised row is that row, key for key and cell
    for cell, and normalising the written row gives it back once more.
    For any row with distinct keys, the written row has every canonical
    column, an absent one blank, and the other cells of the row unchanged,
    but for a key "__proto__", which is not written; when no key of the row
    is a canonical integer, the canonical columns come first, in schema
    order, and the other cells follow in their order. *)
Theorem dataRow_keeps_normalised_rows (r : object) :
  NoDup (keys r) ->
  dataRow (normalizeRow r) = normalizeRow r /\
  normalizeRow (dataRow (normalizeRow r)) = normalizeRow r /\
  (forall c, In c EXPECTED_COLS -> get (dataRow r) c = Some (field r c)) /\
  (forall k, ~ In k EXPECTED_COLS -> k <> lit "__proto__" ->
     get (dataRow r) k = get r k) /\
  (forall k, In k (keys (dataRow r)) <->
     In k EXPECTED_COLS \/ (In k (keys r) /\ k <> lit "__proto__")) /\
  (Forall (fun k => isIntegerKey k = false) (keys r) ->
   keys (dataRow r) = EXPECTED_COLS ++ filter otherKey (keys r)).
Proof.
  intros Hnd.
  assert (Hother : forall k, otherKey k = true <->
            ~ In k EXPECTED_COLS /\ k <> lit "__proto__").
  { intros k. unfold otherKey. rewrite negb_true_iff, orb_false_iff.
    rewrite eqb_str_neq. split; intros [H1 H2]; (split; [|exact H2]).
    - intros Hin. apply existsb_eqb_In in Hin. congruence.
    - destruct (existsb (eqb_str k) EXPECTED_COLS) eqn:Ex; [|reflexivity].
      apply existsb_eqb_In in Ex. contradiction. }
  assert (E : dataRow (normalizeRow r) = normalizeRow r).
  { rewrite (dataRow_cells _ (normalised_nodup r Hnd)).
    etransitivity; [|symmetry; apply (normalizeRow_cells r Hnd)].
    rewrite (normalised_keys r Hnd), filter_app.
    rewrite filter_nothing, app_nil_l.
    - rewrite filter_all.
      + f_equal.
        * apply map_ext_in. intros c Hc. f_equal. now apply normalised_field_col.
        * apply map_ext_in. intros k Hk. f_equal. now apply normalised_field_extra.
      + intros k Hk. apply Hother. split; [exact (extras_not_expected r k Hk)|].
        apply filter_In in Hk as [_ Hk]. apply extra_not_proto.
        now destruct (canonicalColumnFor k).
    - intros k Hk. unfold otherKey.
      now rewrite (proj2 (existsb_eqb_In k EXPECTED_COLS) Hk). }
  split; [exact E|]. split; [rewrite E; now apply normalizeRow_again|].
  split; [|split; [|split]].
  - intros c Hc. rewrite (dataRow_cells r Hnd), get_cells.
    now rewrite (proj2 (existsb_eqb_In c EXPECTED_COLS) Hc).
  - intros k Hk Hp. rewrite (dataRow_cells r Hnd), get_cells.
    destruct (existsb (eqb_str k) EXPECTED_COLS) eqn:Ex;
      [apply existsb_eqb_In in Ex; contradiction|].
    destruct (existsb (eqb_str k) (filter otherKey (keys r))) eqn:Ek.
    + apply existsb_eqb_In, filter_In in Ek as [Ek _].
      destruct (get_of_key r k Ek) as [v Ev]. unfold field. now rewrite Ev.
    + symmetry. apply get_None_keys. intros Hin.
      assert (H : In k (filter otherKey (keys r)))
        by (apply filter_In; split; [exact Hin | now apply Hother]).
      apply existsb_eqb_In in H. congruence.
  - intros k. rewrite (dataRow_cells r Hnd), keys_app, in_app_iff, !keys_tabulate.
    rewrite filter_In, Hother. split.
    + intros [H | [H1 [_ H2]]]; auto.
    + intros [H | [H1 H2]]; [now left|].
      destruct (existsb (eqb_str k) EXPECTED_COLS) eqn:Ex.
      * left. now apply existsb_eqb_In.
      * right. repeat split; trivial. intros Hin.
        apply existsb_eqb_In in Hin. congruence.
  - intros _. now rewrite (dataRow_cells r Hnd), keys_app, !keys_tabulate.
Qed.

Lemma dataRow_keeps_normalised_rows_witness :
  let r := [(lit "Box No", lit "7"); (lit "Inspector", lit "Ali")] in
  dataRow (normalizeRow r) = normalizeRow r /\
  keys (dataRow r) = EXPECTED_COLS ++ [lit "Box No"; lit "Inspector"].
Proof.
  intros r.
  assert (Hnd : NoDup (keys r)).
  { repeat (constructor; [vm_compute; intuition discriminate|]). constructor. }
  destruct (dataRow_keeps_normalised_rows r Hnd) as [H1 [_ [_ [_ [_ H6]]]]].
  split; [exact H1|]. rewrite H6; [reflexivity|].
  repeat (constructor; [reflexivity|]). constructor.
Defined.

(** ** Loading a workbook *)


Lemma find_first {A} (p : A -> bool) (l : list A) (x : A) :
  find p l = Some x ->
  exists before after, l = before ++ x :: after /\
                       forall y, In y before -> p y = false.
Proof.
  induction l as [|y l IH]; [discriminate|]. cbn [find].
  destruct (p y) eqn:Py.
  - intros H. injection H as <-. exists [], l. split; [reflexivity | intros ? []].
  - intros H. destruct (IH H) as [before [after [E Hb]]].
    exists (y :: before), after. split; [simpl; now rewrite E|].
    intros z [<- | Hz]; [exact Py | now apply Hb].
Qed.

Lemma targetSheet_in (wb : workbook) (t : jsstring) :
  targetSheet wb = Some t -> In t (SheetNames wb).
Proof.
  unfold targetSheet. destruct (SheetNames wb) as [|first names] eqn:E; [discriminate|].
  destruct (find _ (first :: names)) as [s|] eqn:F.
  - apply find_some in F as [Hin _].
    destruct (truthy s); intros H; injection H as <-; [exact Hin | now left].
  - intros H. injection H as <-. now left.
Qed.

(** X7.  [addWorkbook] does nothing for a workbook without sheets.
    Otherwise, for a file key other than "__proto__", it reads the first
    sheet whose name is "f200_boxes" in any letter case, or the first sheet
    when there is none, and stores under the file key an entry with one
    normalised row per raw row, in order, and with the keys of the first
    normalised row as columns (the nine canonical columns when the sheet is
    empty): the canonical columns and the headers of the first raw row that
    [canonicalColumnFor] gives nothing for, in this order when no header is
    a canonical integer.  Entries under other keys stay as they were.  The
    file becomes the active one only when no file is active. *)
Theorem addWorkbook_stores_entry (st : appState) (key fileName : jsstring) (wb : workbook) :
  (wb = [] -> addWorkbook st key fileName wb = st) /\
  (wb <> [] -> key <> lit "__proto__" ->
   exists t raw,
     targetSheet wb = Some t /\ get wb t = Some raw /\
     ((exists s, In s (SheetNames wb) /\ toLowerCase s = lit "f200_boxes") ->
        toLowerCase t = lit "f200_boxes" /\
        exists before after,
          SheetNames wb = before ++ t :: after /\
          forall s, In s before -> toLowerCase s <> lit "f200_boxes") /\
     ((forall s, In s (SheetNames wb) -> toLowerCase s <> lit "f200_boxes") ->
        exists rest, SheetNames wb = t :: rest) /\
     get (files (addWorkbook st key fileName wb)) key
     = Some {| name := fileName; sheetName := t; rows := map normalizeRow raw;
               columns := columnsOf (map normalizeRow raw) |} /\
     List.length (map normalizeRow raw) = List.length raw /\
     (raw = [] -> columnsOf (map normalizeRow raw) = EXPECTED_COLS) /\
     (forall r0 rest k, raw = r0 :: rest -> NoDup (keys r0) ->
        (In k (columnsOf (map normalizeRow raw)) <->
         In k EXPECTED_COLS \/ (In k (keys r0) /\ canonicalColumnFor k = None))) /\
     (forall r0 rest, raw = r0 :: rest -> NoDup (keys r0) ->
        Forall (fun k => isIntegerKey k = false) (keys r0) ->
        columnsOf (map normalizeRow raw) =
        EXPECTED_COLS ++
        filter (fun k => match canonicalColumnFor k with
                         | None => true | Some _ => false end) (keys r0)) /\
     (forall k, k <> key ->
        get (files (addWorkbook st key fileName wb)) k = get (files st) k) /\
     (noActiveKey st = true -> activeKey (addWorkbook st key fileName wb) = Some key) /\
     (noActiveKey st = false ->
        activeKey (addWorkbook st key fileName wb) = activeKey st)).
Proof.
  split; [intros ->; reflexivity|].
  intros Hne _. destruct wb as [|[n0 rows0] wb']; [congruence|]. clear Hne.
  destruct (targetSheet ((n0, rows0) :: wb')) as [t|] eqn:Ht.
  2:{ exfalso. unfold targetSheet in Ht.
      change (SheetNames ((n0, rows0) :: wb')) with (n0 :: SheetNames wb') in Ht.
      cbv iota in Ht. destruct (find _ _) as [s1|]; [|discriminate Ht].
      destruct (truthy s1); discriminate Ht. }
  pose proof (targetSheet_in _ _ Ht) as Hin.
  destruct (get_of_key _ _ Hin) as [raw Hraw].
  exists t, raw. split; [reflexivity|]. split; [exact Hraw|].
  assert (Hfirst : (exists s, In s (SheetNames ((n0, rows0) :: wb')) /\
                              toLowerCase s = lit "f200_boxes") ->
            toLowerCase t = lit "f200_boxes" /\
            exists before after,
              SheetNames ((n0, rows0) :: wb') = before ++ t :: after /\
              forall s, In s before -> toLowerCase s <> lit "f200_boxes").
  { intros [s [Hs Es]]. unfold targetSheet in Ht.
    set (names := SheetNames ((n0, rows0) :: wb')) in *.
    change names with (n0 :: SheetNames wb') in Ht at 1. cbv iota in Ht.
    destruct (find (fun s => eqb_str (toLowerCase s) (lit "f200_boxes")) names)
      as [s1|] eqn:F.
    - assert (Et : toLowerCase s1 = lit "f200_boxes").
      { apply find_some in F as [_ F]. now apply eqb_str_eq in F. }
      assert (Tr : truthy s1 = true) by (destruct s1; [discriminate Et | reflexivity]).
      rewrite ?F, Tr in Ht. injection Ht as <-. split; [exact Et|].
      destruct (find_first _ _ _ F) as [before [after [E Hb]]].
      exists before, after. split; [exact E|].
      intros y Hy. apply eqb_str_neq. now apply Hb.
    - pose proof (find_none _ _ F s Hs) as Hf. cbv beta in Hf.
      rewrite Es in Hf. discriminate. }
  split; [exact Hfirst|]. split.
  { intros Hn. unfold targetSheet in Ht.
    change (SheetNames ((n0, rows0) :: wb')) with (n0 :: SheetNames wb') in Ht.
    cbv iota in Ht. rewrite find_nothing in Ht.
    - injection Ht as <-. now exists (SheetNames wb').
    - intros s Hs. apply eqb_str_neq. now apply Hn. }
  unfold addWorkbook. rewrite Ht, Hraw. cbn [files activeKey].
  split; [apply get_set_same|]. split; [apply length_map|].
  split; [intros ->; reflexivity|]. split.
  { intros r0 rest k -> Hnd. cbn [map columnsOf].
    rewrite (normalised_keys r0 Hnd), in_app_iff, filter_In.
    destruct (canonicalColumnFor k); split; intros [H | [H1 H2]]; auto; discriminate. }
  split.
  { intros r0 rest -> Hnd _. cbn [map columnsOf]. now apply normalised_keys. }
  split; [intros k Hk; apply get_set_other; congruence|].
  split; intros ->; reflexivity.
Qed.

Lemma addWorkbook_stores_entry_witness :
  let wb := [(lit "Notes", []);
             (lit "F200_Boxes", [[(lit "Box No", lit "7"); (lit "Inspector", lit "Ali")]])] in
  let st := addWorkbook {| files := []; activeKey := None |} (lit "nov.xlsx") (lit "NOV.xlsx") wb in
  activeKey st = Some (lit "nov.xlsx") /\
  option_map sheetName (get (files st) (lit "nov.xlsx")) = Some (lit "F200_Boxes").
Proof.
  intros wb st.
  destruct (addWorkbook_stores_entry {| files := []; activeKey := None |}
              (lit "nov.xlsx") (lit "NOV.xlsx") wb) as [_ H].
  destruct H as [t [raw [Ht [_ [_ [_ [Hget [_ [_ [_ [_ [_ [Hact _]]]]]]]]]]]]].
  - discriminate.
  - discriminate.
  - split; [apply Hact; reflexivity|].
    fold st in Hget. rewrite Hget. simpl. injection Ht as <-. reflexivity.
Defined.

(** ** The row filter *)

Lemma statusFilter_all (r : object) : statusFilter (lit "all") r = true.
Proof. reflexivity. Qed.

Lemma statusFilter_Remaining (r : object) :
  statusFilter (lit "Remaining") r =
  negb (test true re_done (orEmpty (get r (lit "REMARKS")))).
Proof.
  unfold statusFilter.
  change (eqb_str (lit "Remaining") (lit "all")) with false.
  change (eqb_str (lit "Remaining") (lit "Finished")) with false.
  change (eqb_str (lit "Remaining") (lit "In Progress")) with false.
  change (eqb_str (lit "Remaining") (lit "Not Started")) with false.
  change (eqb_str (lit "Remaining") (lit "Remaining")) with true.
  cbn [negb andb]. rewrite test_lower.
  now destruct (test true re_done _).
Qed.

Lemma statusFilter_other (fStatus : jsstring) (r : object) :
  ~ In fStatus [lit "Finished"; lit "In Progress"; lit "Not Started"; lit "Remaining"] ->
  statusFilter fStatus r = true.
Proof.
  intros H. unfold statusFilter.
  assert (E : forall x, In x [lit "Finished"; lit "In Progress"; lit "Not Started";
                              lit "Remaining"] -> eqb_str fStatus x = false).
  { intros x Hx. apply eqb_str_neq. intros ->. contradiction. }
  rewrite (E (lit "Finished")), (E (lit "In Progress")), (E (lit "Not Started")),
          (E (lit "Remaining")) by (simpl; tauto).
  cbn [andb]. now destruct (negb _).
Qed.

(** X8.  The four filters of the table act independently: a row is shown
    exactly when it passes the factory filter, the container filter, the
    status filter and the search, each taken alone.  With every control on
    "all" and an empty search every row is shown.  The status value
    "Remaining" shows exactly the rows that "Finished" hides, and a status
    value the script does not know hides nothing. *)
Theorem rowVisible_conjunction (fFactory fContainer fStatus q : jsstring) (r : object) :
  rowVisible fFactory fContainer fStatus q r =
    rowVisible fFactory (lit "all") (lit "all") [] r &&
    rowVisible (lit "all") fContainer (lit "all") [] r &&
    rowVisible (lit "all") (lit "all") fStatus [] r &&
    rowVisible (lit "all") (lit "all") (lit "all") q r /\
  rowVisible (lit "all") (lit "all") (lit "all") [] r = true /\
  rowVisible (lit "all") (lit "all") fStatus [] r = statusFilter fStatus r /\
  statusFilter (lit "Remaining") r = negb (statusFilter (lit "Finished") r) /\
  (~ In fStatus [lit "Finished"; lit "In Progress"; lit "Not Started"; lit "Remaining"] ->
   statusFilter fStatus r = true).
Proof.
  split; [|split; [reflexivity|split; [apply rowVisible_status_only|split]]].
  - unfold rowVisible.
    change (eqb_str (lit "all") (lit "all")) with true.
    rewrite statusFilter_all. cbn [negb andb truthy].
    destruct (negb (eqb_str fFactory (lit "all")) && _); [reflexivity|].
    destruct (negb (eqb_str fContainer (lit "all")) && _); [reflexivity|].
    destruct (statusFilter fStatus r); [|reflexivity].
    cbn [negb andb]. now destruct (_ && _).
  - now rewrite statusFilter_Remaining, statusFilter_Finished.
  - apply statusFilter_other.
Qed.

Lemma rowVisible_conjunction_witness :
  statusFilter (lit "Archived") [(lit "REMARKS", lit "pending")] = true.
Proof.
  apply (proj2 (proj2 (proj2 (proj2
    (rowVisible_conjunction (lit "all") (lit "all") (lit "Archived") []
       [(lit "REMARKS", lit "pending")]))))).
  simpl. intuition discriminate.
Defined.

(** ** The search box *)

Lemma startsWith_app (s p : jsstring) :
  startsWith s p = true <-> exists post, s = p ++ post.
Proof.
  revert s. induction p as [|y p IH]; intros s.
  - split; [intros _; now exists s | intros _; now destruct s].
  - destruct s as [|x s]; simpl.
    + split; [discriminate | intros [post E]; discriminate].
    + rewrite andb_true_iff, Ascii.eqb_eq, IH. split.
      * intros [-> [post ->]]. now exists post.
      * intros [post E]. injection E as -> ->. split; [reflexivity | now exists post].
Qed.

Lemma includes_app (s p : jsstring) :
  includes s p = true <-> exists pre post, s = pre ++ p ++ post.
Proof.
  induction s as [|x s IH]; cbn [includes].
  - rewrite orb_false_r, startsWith_app. split.
    + intros [post E]. now exists [], post.
    + intros [pre [post E]]. symmetry in E. apply app_eq_nil in E as [-> E].
      now exists post.
  - rewrite orb_true_iff, startsWith_app, IH. split.
    + intros [[post E] | [pre [post E]]].
      * now exists [], post.
      * exists (x :: pre), post. now rewrite E.
    + intros [[|y pre] [post E]].
      * left. now exists post.
      * injection E as -> ->. right. now exists pre, post.
Qed.

Lemma includes_across (a b q : jsstring) (c : ascii) :
  q <> [] -> ~ In c q ->
  includes (a ++ c :: b) q = true -> includes a q = true \/ includes b q = true.
Proof.
  intros Hq Hc H. apply includes_app in H as [pre [post E]].
  apply app_eq_app in E as [l [[Ea E2] | [Ep E2]]].
  - symmetry in E2. apply app_eq_app in E2 as [l2 [[El E3] | [Eq E3]]].
    + left. apply includes_app. exists pre, l2. now rewrite Ea, El.
    + destruct l2 as [|d l2].
      * left. apply includes_app. exists pre, [].
        rewrite app_nil_r in Eq. now rewrite Ea, Eq, app_nil_r.
      * injection E3 as E3 _. exfalso. apply Hc. rewrite Eq, E3.
        apply in_or_app. right. now left.
  - destruct l as [|d l].
    + simpl in E2. destruct q as [|d q]; [congruence|].
      injection E2 as E2 _. exfalso. apply Hc. rewrite E2. now left.
    + injection E2 as _ E2. right. apply includes_app. now exists l, post.
Qed.

Lemma includes_join (sep : ascii) (l : list jsstring) (q : jsstring) :
  q <> [] -> ~ In sep q ->
  includes (join [sep] l) q = true -> exists x, In x l /\ includes x q = true.
Proof.
  intros Hq Hsep. induction l as [|x l IH].
  - simpl. destruct q; [congruence | discriminate].
  - destruct l as [|y l].
    + simpl. intros H. exists x. auto.
    + change (join [sep] (x :: y :: l)) with (x ++ sep :: join [sep] (y :: l)).
      intros H. apply includes_across in H as [H | H]; trivial.
      * exists x. split; [now left | exact H].
      * destruct (IH H) as [z [Hz Hq']]. exists z. split; [now right | exact Hq'].
Qed.

Lemma join_includes (sep : jsstring) (l : list jsstring) (x q : jsstring) :
  In x l -> includes x q = true -> includes (join sep l) q = true.
Proof.
  intros Hin Hx. apply includes_app in Hx as [pre [post Ex]].
  induction l as [|y l IH]; [destruct Hin|].
  destruct l as [|z l].
  - destruct Hin as [Ey | []]. subst y. simpl. apply includes_app. now exists pre, post.
  - change (join sep (y :: z :: l)) with (y ++ sep ++ join sep (z :: l)).
    destruct Hin as [Ey | Hin].
    + subst y. apply includes_app. exists pre, (post ++ sep ++ join sep (z :: l)).
      rewrite Ex. now rewrite <- !app_assoc.
    + apply IH in Hin. apply includes_app in Hin as [a [b E]].
      apply includes_app. exists (y ++ sep ++ a), b. rewrite E.
      now rewrite <- !app_assoc.
Qed.

Lemma toLowerCase_join (sep : jsstring) (l : list jsstring) :
  toLowerCase (join sep l) = join (toLowerCase sep) (map toLowerCase l).
Proof.
  unfold toLowerCase. induction l as [|x l IH]; [reflexivity|].
  destruct l as [|y l]; [reflexivity|].
  change (join sep (x :: y :: l)) with (x ++ sep ++ join sep (y :: l)).
  rewrite !map_app, IH. reflexivity.
Qed.

Lemma search_only (q : jsstring) (r : object) :
  rowVisible (lit "all") (lit "all") (lit "all") q r =
  negb (truthy q) || includes (toLowerCase (join (lit " ") (values r))) q.
Proof.
  unfold rowVisible. change (eqb_str (lit "all") (lit "all")) with true.
  rewrite statusFilter_all. cbn [negb andb].
  destruct (truthy q); cbn [negb andb orb]; [|reflexivity].
  now destruct (includes _ q).
Qed.

(** X9.  The search compares the query with the lower-cased cells of the
    row, the headers playing no part: a row is shown whenever the query
    occurs in one of its lower-cased cells, and an empty query shows every
    row.  A row shown for a query without a space has the query inside one
    single cell; only a query with a space can match across two cells. *)
Theorem search_matches_cells (q : jsstring) (r : object) :
  rowVisible (lit "all") (lit "all") (lit "all") [] r = true /\
  (forall cell, In cell (values r) -> includes (toLowerCase cell) q = true ->
     rowVisible (lit "all") (lit "all") (lit "all") q r = true) /\
  (q <> [] -> ~ In " "%char q ->
   rowVisible (lit "all") (lit "all") (lit "all") q r = true ->
   exists cell, In cell (values r) /\ includes (toLowerCase cell) q = true).
Proof.
  split; [reflexivity|]. rewrite search_only, toLowerCase_join. split.
  - intros cell Hin Hq. apply orb_true_iff. right.
    apply (join_includes _ _ (toLowerCase cell)); [|exact Hq].
    now apply in_map.
  - intros Hne Hsp H. apply orb_true_iff in H as [H | H].
    + destruct q; [congruence | discriminate H].
    + change (toLowerCase (lit " ")) with [ " "%char ] in H.
      apply includes_join in H as [x [Hx Hq]]; trivial.
      apply in_map_iff in Hx as [cell [<- Hcell]]. now exists cell.
Qed.

Lemma search_matches_cells_witness :
  rowVisible (lit "all") (lit "all") (lit "all") (lit "ali")
    [(lit "NO", lit "3"); (lit "Inspector", lit "ALI K.")] = true.
Proof.
  apply (proj1 (proj2 (search_matches_cells (lit "ali")
           [(lit "NO", lit "3"); (lit "Inspector", lit "ALI K.")])) (lit "ALI K.")).
  - simpl. tauto.
  - reflexivity.
Defined.

(** ** Apply to all *)

Lemma applyAllVisible_rowVisible (fFactory fContainer fStatus q : jsstring) (r : object) :
  applyAllVisible fFactory fContainer fStatus q r
  = rowVisible fFactory fContainer fStatus q r.
Proof.
  unfold applyAllVisible, rowVisible, statusFilter. cbv zeta.
  generalize (negb (eqb_str fFactory (lit "all")) &&
              negb (eqb_str (field r (lit "Factory")) fFactory)).
  generalize (negb (eqb_str fContainer (lit "all")) &&
              negb (eqb_str (field r (lit "ContainerNum")) fContainer)).
  generalize (truthy q &&
              negb (includes (toLowerCase (join (lit " ") (values r))) q)).
  generalize (test true re_done (toLowerCase (orEmpty (get r (lit "REMARKS"))))).
  generalize (test true re_in_progress_filter
                (toLowerCase (orEmpty (get r (lit "REMARKS"))))).
  generalize (eqb_str (trim (toLowerCase (orEmpty (get r (lit "REMARKS"))))) [] ||
              test true re_not_started_filter
                (toLowerCase (orEmpty (get r (lit "REMARKS"))))).
  intros ns ip dn srch cont fac.
  destruct (eqb_str fStatus (lit "all")) eqn:E.
  - apply eqb_str_eq in E. subst fStatus.
    change (eqb_str (lit "all") (lit "Finished")) with false.
    change (eqb_str (lit "all") (lit "In Progress")) with false.
    change (eqb_str (lit "all") (lit "Not Started")) with false.
    change (eqb_str (lit "all") (lit "Remaining")) with false.
    cbn [negb andb]. now destruct fac, cont, srch.
  - cbn [negb].
    destruct (eqb_str fStatus (lit "Finished")), (eqb_str fStatus (lit "In Progress")),
             (eqb_str fStatus (lit "Not Started")), (eqb_str fStatus (lit "Remaining")),
             fac, cont, srch, dn, ip, ns; reflexivity.
Qed.

Lemma set_set {A} (o : dict A) (k : jsstring) (v v' : A) :
  set (set o k v) k v' = set o k v'.
Proof.
  induction o as [|[k0 v0] o IH]; simpl.
  - now rewrite eqb_str_refl.
  - destruct (eqb_str k0 k) eqn:E; simpl; rewrite E; [reflexivity | now rewrite IH].
Qed.

(** X10.  Apply-to-all writes the chosen remark into exactly the rows the
    table shows under the current filters, its visibility test being the
    one of the table; the other rows, the other cells of the rows it
    changes, and the number and order of the rows stay as they were.
    Pressing the button a second time with the same remark and controls
    changes nothing more. *)
Theorem applyAll_visible_rows (fFactory fContainer fStatus q val : jsstring)
        (allRows : list object) :
  let after := applyAll fFactory fContainer fStatus q val allRows in
  List.length after = List.length allRows /\
  (forall i r, nth_error allRows i = Some r ->
     rowVisible fFactory fContainer fStatus q r = true ->
     nth_error after i = Some (set r (lit "REMARKS") val) /\
     get (set r (lit "REMARKS") val) (lit "REMARKS") = Some val /\
     forall k, k <> lit "REMARKS" -> get (set r (lit "REMARKS") val) k = get r k) /\
  (forall i r, nth_error allRows i = Some r ->
     rowVisible fFactory fContainer fStatus q r = false ->
     nth_error after i = Some r) /\
  applyAll fFactory fContainer fStatus q val after = after.
Proof.
  intros after. unfold after, applyAll.
  split; [apply length_map|]. split; [|split].
  - intros i r Hi Hv. rewrite nth_error_map, Hi. cbn [option_map].
    rewrite applyAllVisible_rowVisible, Hv. split; [reflexivity|].
    split; [apply get_set_same|]. intros k Hk. apply get_set_other. congruence.
  - intros i r Hi Hv. rewrite nth_error_map, Hi. cbn [option_map].
    now rewrite applyAllVisible_rowVisible, Hv.
  - rewrite map_map. apply map_ext. intros r.
    destruct (applyAllVisible fFactory fContainer fStatus q r) eqn:V.
    + rewrite set_set. now destruct (applyAllVisible _ _ _ _ (set r _ val)).
    + now rewrite V.
Qed.

Lemma applyAll_visible_rows_witness :
  let open := [(lit "Factory", lit "F200"); (lit "REMARKS", lit "")] in
  let other := [(lit "Factory", lit "AIO"); (lit "REMARKS", lit "")] in
  nth_error (applyAll (lit "F200") (lit "all") (lit "Not Started") [] (lit "Done")
               [other; open]) 1
  = Some [(lit "Factory", lit "F200"); (lit "REMARKS", lit "Done")].
Proof.
  intros open other.
  destruct (applyAll_visible_rows (lit "F200") (lit "all") (lit "Not Started") []
              (lit "Done") [other; open]) as [_ [H _]].
  apply (H 1%nat open); reflexivity.
Defined.

(** ** Status, colour and the summary cards *)

Lemma test_done_isCompleted (remarks : option jsstring) :
  test true re_done (orEmpty remarks) = isCompleted remarks.
Proof. now destruct remarks. Qed.

(** X11.  The classifier and the completion predicate agree on what is
    finished: [classifyStatus] answers Completed exactly when [isCompleted]
    holds, and it never answers anything but Completed, In Progress or Not
    Started.  The colour of the REMARKS dropdown never contradicts it: a
    green cell is Completed and a yellow one In Progress. *)
Theorem classifyStatus_agrees_isCompleted (remarks : option jsstring) :
  (classifyStatus remarks = lit "Completed" <-> isCompleted remarks = true) /\
  In (classifyStatus remarks) [lit "Completed"; lit "In Progress"; lit "Not Started"] /\
  (remarksColor remarks = lit "#66FF66" ->
     classifyStatus remarks = lit "Completed" /\ isCompleted remarks = true) /\
  (remarksColor remarks = lit "#FFF867" ->
     classifyStatus remarks = lit "In Progress" /\ isCompleted remarks = false) /\
  In (remarksColor remarks) [lit "#66FF66"; lit "#FFF867"; []].
Proof.
  rewrite classifyStatus_unfold, <- test_done_isCompleted.
  unfold remarksColor.
  rewrite <- (test_lower re_done (orEmpty remarks)),
          <- (test_lower re_in_progress (orEmpty remarks)).
  destruct (eqb_str (toLowerCase (orEmpty remarks)) (lit "done")) eqn:E1.
  { apply eqb_str_eq in E1. rewrite E1.
    repeat split; try discriminate; try reflexivity; simpl; tauto. }
  destruct (eqb_str (toLowerCase (orEmpty remarks)) (lit "in progress")) eqn:E2.
  { apply eqb_str_eq in E2. rewrite E2.
    repeat split; try discriminate; try reflexivity; simpl; tauto. }
  destruct (test true re_done _); [|destruct (test true re_in_progress _)];
    repeat split; try discriminate; try reflexivity; simpl; tauto.
Qed.

Lemma classifyStatus_agrees_isCompleted_witness :
  classifyStatus (Some (lit "DONE")) = lit "Completed" /\
  isCompleted (Some (lit "DONE")) = true.
Proof.
  apply (proj1 (proj2 (proj2 (classifyStatus_agrees_isCompleted (Some (lit "DONE")))))).
  reflexivity.
Defined.

Lemma countStatus_cases (c i n : Z) (r : object) :
  countStatus (c, i, n) r =
  if isDone r then (c + 1, i, n)
  else if test true re_in_progress (orEmpty (get r (lit "REMARKS")))
       then (c, i + 1, n) else (c, i, n + 1).
Proof.
  unfold countStatus, isDone.
  rewrite classifyStatus_unfold, test_done_isCompleted.
  destruct (isCompleted _); [reflexivity|].
  now destruct (test true re_in_progress _).
Qed.

Lemma countStatus_fold (rows : list object) (c i n : Z) :
  exists x y,
    0 <= x /\ 0 <= y /\
    fold_left countStatus rows (c, i, n)
    = (c + Z.of_nat (List.length (filter isDone rows)), i + x, n + y) /\
    Z.of_nat (List.length (filter isDone rows)) + x + y = Z.of_nat (List.length rows).
Proof.
  revert c i n. induction rows as [|r rows IH]; intros c i n.
  - exists 0, 0. simpl. repeat split; try lia. apply f_equal2; [apply f_equal2|]; lia.
  - cbn [fold_left filter]. rewrite countStatus_cases.
    destruct (isDone r).
    + destruct (IH (c + 1) i n) as [x [y [Hx [Hy [E S]]]]]. exists x, y.
      rewrite E. cbn [List.length]. repeat split; try lia. apply f_equal2; [apply f_equal2|]; lia.
    + destruct (test true re_in_progress _).
      * destruct (IH c (i + 1) n) as [x [y [Hx [Hy [E S]]]]]. exists (x + 1), y.
        rewrite E. cbn [List.length]. repeat split; try lia. apply f_equal2; [apply f_equal2|]; lia.
      * destruct (IH c i (n + 1)) as [x [y [Hx [Hy [E S]]]]]. exists x, (y + 1).
        rewrite E. cbn [List.length]. repeat split; try lia. apply f_equal2; [apply f_equal2|]; lia.
Qed.

Lemma buildAnalytics_last (rows : list object) :
  exists groups,
    buildAnalytics rows
    = groups ++ [analyticsRowOf (lit "ALL") (tally (filter counted rows))].
Proof.
  destruct (buildAnalytics_shape rows) as [E _]. rewrite E, buildAnalytics_all.
  eexists. reflexivity.
Qed.

(** X12.  The summary cards account for every row once: Completed, In
    Progress and Not Started add up to the total, and Remaining is the total
    less Completed.  The ALL record that [buildAnalytics] makes of the same
    rows counts the rows whose container key does not name an inherited
    member of [byContainer]: it never exceeds the cards, and when no row has
    such a container key it has the cards' total, Completed and Remaining
    counts and the cards' percentage. *)
Theorem renderSummary_accounts (rows : list object) :
  let cards := renderSummary rows in
  cardTotal cards = Z.of_nat (List.length rows) /\
  cardCompleted cards = Z.of_nat (List.length (filter isDone rows)) /\
  0 <= cardInProgress cards /\ 0 <= cardNotStarted cards /\
  cardCompleted cards + cardInProgress cards + cardNotStarted cards = cardTotal cards /\
  cardRemaining cards = cardTotal cards - cardCompleted cards /\
  exists groups all,
    buildAnalytics rows = groups ++ [all] /\
    AnalyticsRow.Container all = lit "ALL" /\
    AnalyticsRow.TotalBoxes all = Z.of_nat (List.length (filter counted rows)) /\
    AnalyticsRow.Finished all
    = Z.of_nat (List.length (filter isDone (filter counted rows))) /\
    AnalyticsRow.TotalBoxes all <= cardTotal cards /\
    AnalyticsRow.Finished all <= cardCompleted cards /\
    ((forall r, In r rows -> inherited (containerOf r) = false) ->
     AnalyticsRow.TotalBoxes all = cardTotal cards /\
     AnalyticsRow.Finished all = cardCompleted cards /\
     AnalyticsRow.Remaining all = cardRemaining cards /\
     AnalyticsRow.CompletionPercent all = percentText (cardPercent cards)).
Proof.
  intros cards. unfold cards, renderSummary.
  destruct (countStatus_fold rows 0 0 0) as [x [y [Hx [Hy [E S]]]]].
  rewrite E. cbn [cardTotal cardCompleted cardInProgress cardNotStarted cardRemaining
                  cardPercent].
  repeat split; try lia.
  destruct (buildAnalytics_last rows) as [groups Eg].
  exists groups, (analyticsRowOf (lit "ALL") (tally (filter counted rows))).
  split; [exact Eg|]. unfold analyticsRowOf, tally.
  cbn [AnalyticsRow.Container AnalyticsRow.TotalBoxes AnalyticsRow.Finished
       AnalyticsRow.Remaining AnalyticsRow.CompletionPercent total finished].
  split; [reflexivity|]. split; [reflexivity|]. split; [reflexivity|].
  split; [pose proof (filter_length_le counted rows); lia|].
  split.
  { rewrite filter_comm. pose proof (filter_length_le counted (filter isDone rows)). lia. }
  intros Hall. rewrite (counted_all rows Hall). repeat split; try lia.
Qed.

Lemma renderSummary_accounts_witness :
  let rows := [[(lit "ContainerNum", lit "4"); (lit "REMARKS", lit "Done")];
               [(lit "ContainerNum", lit "7"); (lit "REMARKS", lit "")]] in
  exists groups all,
    buildAnalytics rows = groups ++ [all] /\
    AnalyticsRow.TotalBoxes all = cardTotal (renderSummary rows) /\
    AnalyticsRow.CompletionPercent all = percentText (cardPercent (renderSummary rows)).
Proof.
  intros rows.
  destruct (renderSummary_accounts rows)
    as [_ [_ [_ [_ [_ [_ [groups [all [E [_ [_ [_ [_ [_ H]]]]]]]]]]]]]].
  exists groups, all. split; [exact E|].
  destruct H as [H1 [_ [_ H4]]].
  - intros r [<- | [<- | []]]; reflexivity.
  - split; [exact H1 | exact H4].
Defined.

(** ** Charts *)

Lemma sorted_keys_in (rows : list object) (k : jsstring) :
  In k (sort (keys (fold_left countRow rows []))) <->
  In k (map containerOf (filter counted rows)).
Proof.
  rewrite byContainer_keys. change (keys []) with (@nil jsstring).
  fold (unique (map containerOf (filter counted rows))).
  rewrite <- (unique_In (map containerOf (filter counted rows)) k). split; intros H.
  - apply Permutation_in
      with (l := sort (unique (map containerOf (filter counted rows)))); [|exact H].
    symmetry. apply sort_perm.
  - apply Permutation_in with (l := unique (map containerOf (filter counted rows)));
      [apply sort_perm | exact H].
Qed.

Lemma countersAt_tally (rows : list object) (k : jsstring) :
  In k (sort (keys (fold_left countRow rows []))) ->
  countersAt (fold_left countRow rows []) k = tally (filter (inGroup k) rows).
Proof.
  intros H. apply sorted_keys_in, counted_group in H as [r [Hr [E Hk]]].
  assert (Ex : existsb (inGroup k) rows = true).
  { apply existsb_inGroup, in_map_iff. now exists r. }
  unfold countersAt. now rewrite byContainer_get, Ex, Hk.
Qed.

Lemma fold_addCounters (f : jsstring -> counters) (ks : list jsstring) (acc : counters) :
  fold_left
    (fun acc l => {| total := total acc + total (f l);
                     finished := finished acc + finished (f l) |}) ks acc
  = fold_left addCounters (map f ks) acc.
Proof.
  revert acc. induction ks as [|k ks IH]; intros acc; simpl; [reflexivity|].
  now rewrite IH.
Qed.

Lemma tally_bounds (rows : list object) :
  0 <= finished (tally rows) <= total (tally rows).
Proof.
  unfold tally. cbn [total finished].
  pose proof (filter_length_le isDone rows). lia.
Qed.

(** X13.  The charts and the exported analytics tell one story.  For the
    same rows, the bar chart has the labels, finished counts and remaining
    counts of the group records of [buildAnalytics], in the same order, and
    the doughnut has the finished and remaining counts of its ALL record; no
    remaining count is negative, so the clamp at zero never acts. *)
Theorem renderCharts_agrees_with_analytics (rows : list object) :
  let chart := renderCharts rows in
  exists groups all,
    buildAnalytics rows = groups ++ [all] /\
    labels chart = map AnalyticsRow.Container groups /\
    finishedData chart = map AnalyticsRow.Finished groups /\
    remainingData chart = map AnalyticsRow.Remaining groups /\
    donutFinished chart = AnalyticsRow.Finished all /\
    donutRemaining chart = AnalyticsRow.Remaining all /\
    Forall (fun n => 0 <= n) (remainingData chart) /\
    0 <= donutRemaining chart.
Proof.
  intros chart. unfold chart, renderCharts, buildAnalytics.
  set (byContainer := fold_left countRow rows []).
  set (ks := sort (keys byContainer)).
  rewrite emit_fold, fold_addCounters. cbn [labels finishedData remainingData
                                           donutFinished donutRemaining].
  assert (Hat : forall k, In k ks -> countersAt byContainer k = tally (filter (inGroup k) rows))
    by (intros k Hk; now apply countersAt_tally).
  assert (Hall : fold_left addCounters (map (countersAt byContainer) ks) zeroCounters
                 = tally (filter counted rows)).
  { rewrite (map_ext_in _ _ ks Hat).
    replace ks with (sort (groupKeys rows)); [apply buildAnalytics_all|].
    unfold ks, byContainer, groupKeys. now rewrite byContainer_keys. }
  rewrite Hall. pose proof (tally_bounds (filter counted rows)) as Hb.
  eexists. eexists. split; [rewrite app_nil_l; reflexivity|].
  rewrite !map_map. cbn [AnalyticsRow.Container AnalyticsRow.Finished
                         AnalyticsRow.Remaining analyticsRowOf].
  split; [now rewrite map_id|]. split; [reflexivity|]. split; [reflexivity|].
  split; [reflexivity|]. split; [apply Z.max_r; lia|]. split; [|apply Z.le_max_l].
  apply Forall_forall. intros n Hn. apply in_map_iff in Hn as [k [<- Hk]].
  rewrite (Hat k Hk). pose proof (tally_bounds (filter (inGroup k) rows)). lia.
Qed.

(** ** What every analytics sheet satisfies *)

Lemma analyticsRowOf_tally (k : jsstring) (rows : list object) :
  let g := analyticsRowOf k (tally rows) in
  AnalyticsRow.TotalBoxes g = Z.of_nat (List.length rows) /\
  0 <= AnalyticsRow.Finished g <= AnalyticsRow.TotalBoxes g /\
  AnalyticsRow.Remaining g = AnalyticsRow.TotalBoxes g - AnalyticsRow.Finished g /\
  0 <= AnalyticsRow.Remaining g.
Proof.
  pose proof (tally_bounds rows) as H. unfold analyticsRowOf, tally in *.
  cbn in *. repeat split; lia.
Qed.

(** X14.  Every sheet built by [buildAnalytics] is a list of group records
    followed by one ALL record.  The group keys are the distinct container
    keys of the rows, but for the names of the members that [byContainer]
    inherits, in sorted order without repetition; each group counts its own
    rows, so it has at least one, its finished count lies between 0 and its
    total, and its remaining count is the difference.  The ALL record counts
    once every row that has a group: its total and its finished count are
    the sums over the groups, and they are the number of rows and of finished
    rows when no container key names an inherited member. *)
Theorem buildAnalytics_records (rows : list object) :
  exists groups all,
    buildAnalytics rows = groups ++ [all] /\
    Sorted (fun a b => leb_str a b = true) (map AnalyticsRow.Container groups) /\
    NoDup (map AnalyticsRow.Container groups) /\
    (forall k, In k (map AnalyticsRow.Container groups) <->
               exists r, In r rows /\ containerOf r = k /\ inherited k = false) /\
    Forall (fun g =>
              AnalyticsRow.TotalBoxes g
              = Z.of_nat (List.length (filter (inGroup (AnalyticsRow.Container g)) rows)) /\
              1 <= AnalyticsRow.TotalBoxes g /\
              0 <= AnalyticsRow.Finished g <= AnalyticsRow.TotalBoxes g /\
              AnalyticsRow.Remaining g
              = AnalyticsRow.TotalBoxes g - AnalyticsRow.Finished g) groups /\
    AnalyticsRow.Container all = lit "ALL" /\
    AnalyticsRow.TotalBoxes all = Z.of_nat (List.length (filter counted rows)) /\
    AnalyticsRow.Finished all
    = Z.of_nat (List.length (filter isDone (filter counted rows))) /\
    AnalyticsRow.Remaining all = AnalyticsRow.TotalBoxes all - AnalyticsRow.Finished all /\
    fold_right Z.add 0 (map AnalyticsRow.TotalBoxes groups) = AnalyticsRow.TotalBoxes all /\
    fold_right Z.add 0 (map AnalyticsRow.Finished groups) = AnalyticsRow.Finished all /\
    ((forall r, In r rows -> inherited (containerOf r) = false) ->
     AnalyticsRow.TotalBoxes all = Z.of_nat (List.length rows) /\
     AnalyticsRow.Finished all = Z.of_nat (List.length (filter isDone rows))).
Proof.
  destruct (buildAnalytics_shape rows) as [E [Hs [Hnd Hin]]].
  set (ks := sort (groupKeys rows)) in *.
  set (group := fun k => tally (filter (inGroup k) rows)) in *.
  pose proof (buildAnalytics_all rows) as Hall. fold ks in Hall. fold group in Hall.
  exists (map (fun k => analyticsRowOf k (group k)) ks),
         (analyticsRowOf (lit "ALL") (tally (filter counted rows))).
  assert (Hk : map AnalyticsRow.Container (map (fun k => analyticsRowOf k (group k)) ks)
               = ks).
  { rewrite map_map. cbn. apply map_id. }
  rewrite Hk. split; [now rewrite E, Hall|].
  split; [exact Hs|]. split; [exact Hnd|]. split; [exact Hin|].
  destruct (sum_counters (map group ks) zeroCounters) as [St Sf].
  rewrite Hall, map_map in St, Sf.
  split; [|split; [reflexivity|split; [reflexivity|split; [reflexivity|
            split; [reflexivity|split; [|split]]]]]].
  - apply Forall_forall. intros g Hg. apply in_map_iff in Hg as [k [<- Hk']].
    assert (Hone : 1 <= Z.of_nat (List.length (filter (inGroup k) rows))).
    { apply Hin in Hk' as [r [Hr [Hkr _]]].
      assert (Hf : In r (filter (inGroup k) rows)).
      { apply filter_In. split; [exact Hr|]. unfold inGroup. rewrite Hkr.
        apply eqb_str_refl. }
      destruct (filter (inGroup k) rows); [destruct Hf|]. cbn [List.length]. lia. }
    pose proof (tally_bounds (filter (inGroup k) rows)) as Hb.
    unfold group, analyticsRowOf, tally in *.
    cbn [AnalyticsRow.Container AnalyticsRow.TotalBoxes AnalyticsRow.Finished
         AnalyticsRow.Remaining total finished] in *.
    repeat split; lia.
  - rewrite map_map. symmetry. exact St.
  - rewrite map_map. symmetry. exact Sf.
  - intros Hfree. rewrite (counted_all rows Hfree). split; reflexivity.
Qed.

Lemma buildAnalytics_records_witness :
  let rows := [[(lit "ContainerNum", lit "4"); (lit "REMARKS", lit "Done")];
               [(lit "ContainerNum", lit "constructor"); (lit "REMARKS", lit "")]] in
  exists groups all,
    buildAnalytics rows = groups ++ [all] /\
    map AnalyticsRow.Container groups = [lit "4"] /\
    AnalyticsRow.TotalBoxes all = 1.
Proof.
  intros rows.
  destruct (buildAnalytics_records rows)
    as [groups [all [E [_ [_ [_ [_ [_ [Ht _]]]]]]]]].
  exists groups, all. split; [exact E|].
  split; [|exact Ht].
  assert (Ec : buildAnalytics rows
               = [analyticsRowOf (lit "4") {| total := 1; finished := 1 |}]
                 ++ [analyticsRowOf (lit "ALL") {| total := 1; finished := 1 |}])
    by reflexivity.
  rewrite Ec in E. apply app_inj_tail in E as [<- _]. reflexivity.
Defined.

(** ** The ALL record of the Summary sheet *)

Section Partition.
Variable K : Type.
Variable belongs : K -> object -> bool.
Variable ks : list K.
Hypothesis distinct : NoDup ks.
Hypothesis one_key : forall r k k', In k ks -> In k' ks ->
  belongs k r = true -> belongs k' r = true -> k = k'.

Lemma one_key_of_row (r : object) :
  fold_right Z.add 0 (map (fun k => if belongs k r then 1 else 0) ks)
  = if existsb (fun k => belongs k r) ks then 1 else 0.
Proof.
  revert distinct one_key.
  induction ks as [|k l IH]; intros Hnd Hone; [reflexivity|].
  cbn [map fold_right existsb].
  apply NoDup_cons_iff in Hnd as [Hk Hnd].
  assert (Hrest : forall r k1 k2, In k1 l -> In k2 l ->
            belongs k1 r = true -> belongs k2 r = true -> k1 = k2).
  { intros r0 k1 k2 H1 H2. apply Hone; now right. }
  rewrite (IH Hnd Hrest). destruct (belongs k r) eqn:E; [|reflexivity].
  destruct (existsb (fun k => belongs k r) l) eqn:Ex; [|reflexivity].
  exfalso. apply existsb_exists in Ex as [k' [Hk' E']].
  assert (k = k') by (apply (Hone r); simpl; auto). subst. contradiction.
Qed.

Lemma partition_count (rows : list object) :
  fold_right Z.add 0 (map (fun k => Z.of_nat (List.length (filter (belongs k) rows))) ks)
  = Z.of_nat (List.length (filter (fun r => existsb (fun k => belongs k r) ks) rows)).
Proof.
  induction rows as [|r rows IH].
  - simpl. clear. induction ks as [|k l IH]; simpl; [reflexivity | now rewrite IH].
  - assert (E : forall l : list K,
              fold_right Z.add 0
                (map (fun k => Z.of_nat (List.length (filter (belongs k) (r :: rows)))) l)
              = fold_right Z.add 0 (map (fun k => if belongs k r then 1 else 0) l) +
                fold_right Z.add 0
                  (map (fun k => Z.of_nat (List.length (filter (belongs k) rows))) l)).
    { induction l as [|k l IHl]; [reflexivity|].
      cbn [map fold_right]. rewrite IHl. cbn [filter].
      destruct (belongs k r); cbn [List.length]; lia. }
    rewrite E, IH, one_key_of_row. cbn [filter].
    destruct (existsb (fun k => belongs k r) ks); cbn [List.length]; lia.
Qed.
End Partition.

Lemma addCounters_zero (a : counters) : addCounters a zeroCounters = a.
Proof. destruct a as [t f]. unfold addCounters. cbn. f_equal; lia. Qed.

Lemma fold_present (g : jsstring -> counters) (p : jsstring -> bool)
      (ks : list jsstring) (acc : counters) :
  (forall k, p k = false -> g k = zeroCounters) ->
  fold_left addCounters (map g (filter p ks)) acc
  = fold_left addCounters (map g ks) acc.
Proof.
  intros H. revert acc. induction ks as [|k ks IH]; intros acc; [reflexivity|].
  cbn [filter map fold_left]. destruct (p k) eqn:E; cbn [map fold_left].
  - apply IH.
  - now rewrite (H k E), addCounters_zero.
Qed.

Lemma factoryIs_one (r : object) (k k' : jsstring) :
  factoryIs k r = true -> factoryIs k' r = true -> k = k'.
Proof.
  unfold factoryIs. destruct (get r (lit "Factory")) as [f|]; [|discriminate].
  rewrite !eqb_str_eq. congruence.
Qed.

Lemma NoDup_factoryOrder : NoDup factoryOrder.
Proof.
  unfold factoryOrder.
  repeat (constructor; [vm_compute; intuition discriminate|]). constructor.
Qed.

Lemma summary_all_tally (rows : list object) :
  fold_left addCounters
    (map (fun fac => tally (filter (factoryIs fac) rows))
         (filter (fun fac => existsb (factoryIs fac) rows) factoryOrder))
    zeroCounters
  = tally (filter (fun r => existsb (fun fac => factoryIs fac r) factoryOrder) rows).
Proof.
  rewrite (fold_present (fun fac => tally (filter (factoryIs fac) rows))).
  2:{ intros k E. now rewrite (filter_none _ _ E). }
  destruct (sum_counters (map (fun fac => tally (filter (factoryIs fac) rows)) factoryOrder)
                         zeroCounters) as [St Sf].
  rewrite map_map in St, Sf.
  pose proof (partition_count jsstring factoryIs factoryOrder NoDup_factoryOrder
                (fun r k k' _ _ => factoryIs_one r k k')) as P.
  destruct (fold_left addCounters _ zeroCounters) as [t f].
  unfold tally. cbn [total finished] in *. f_equal.
  - rewrite St. apply (P rows).
  - rewrite Sf.
    rewrite (map_ext _ (fun fac => Z.of_nat (List.length
                          (filter (factoryIs fac) (filter isDone rows))))).
    + rewrite (P (filter isDone rows)). now rewrite filter_comm.
    + intros fac. now rewrite filter_comm.
Qed.

(** X15.  The ALL record of the Summary sheet counts exactly the rows whose
    Factory is F200, F100 or AIO, and their finished ones; it never counts
    more rows than there are, so it can fall short of the ALL record of the
    Analytics sheet, which counts every row.  Each factory record before it
    counts at least one row. *)
Theorem buildSummarySheet_all_record (rows : list object) :
  let listed := fun r => existsb (fun fac => factoryIs fac r) factoryOrder in
  exists perFactory all,
    buildSummarySheet rows = perFactory ++ [all] /\
    SummaryRow.Factory all = lit "ALL" /\
    SummaryRow.TotalBoxes all = Z.of_nat (List.length (filter listed rows)) /\
    SummaryRow.Completed all
    = Z.of_nat (List.length (filter isDone (filter listed rows))) /\
    SummaryRow.Remaining all = SummaryRow.TotalBoxes all - SummaryRow.Completed all /\
    0 <= SummaryRow.Completed all <= SummaryRow.TotalBoxes all /\
    SummaryRow.TotalBoxes all <= Z.of_nat (List.length rows) /\
    Forall (fun rec =>
              1 <= SummaryRow.TotalBoxes rec /\
              0 <= SummaryRow.Completed rec <= SummaryRow.TotalBoxes rec /\
              SummaryRow.Remaining rec
              = SummaryRow.TotalBoxes rec - SummaryRow.Completed rec) perFactory.
Proof.
  intros listed. rewrite buildSummarySheet_unfold, summary_all_tally. fold listed.
  eexists. eexists. split; [reflexivity|].
  pose proof (tally_bounds (filter listed rows)) as Hb.
  pose proof (filter_length_le listed rows) as Hl.
  unfold summaryRowOf, tally in *.
  cbn [SummaryRow.Factory SummaryRow.TotalBoxes SummaryRow.Completed
       SummaryRow.Remaining total finished] in *.
  repeat split; try lia.
  apply Forall_forall. intros rec Hrec. apply in_map_iff in Hrec as [fac [<- Hfac]].
  apply filter_In in Hfac as [_ Hfac].
  pose proof (tally_bounds (filter (factoryIs fac) rows)) as Hb'.
  unfold tally in Hb'.
  cbn [SummaryRow.TotalBoxes SummaryRow.Completed SummaryRow.Remaining
       total finished] in *.
  assert (1 <= Z.of_nat (List.length (filter (factoryIs fac) rows))).
  { pose proof (existsb_filter_length (factoryIs fac) rows) as Hx.
    rewrite Hfac in Hx. cbn [negb] in Hx. apply Z.eqb_neq in Hx. lia. }
  repeat split; lia.
Qed.

(** ** The sheets of the workbook *)

Lemma filter_both {A} (p q : A -> bool) (l : list A) :
  filter (fun x => p x && q x) l = filter p (filter q l).
Proof.
  induction l as [|x l IH]; simpl; [reflexivity|].
  destruct (q x); simpl; [|now rewrite andb_false_r].
  rewrite andb_true_r. destruct (p x); now rewrite IH.
Qed.

(** What [new Set] keeps when some values are already in it. *)
Lemma unique_from (a seen : list jsstring) :
  fold_left (fun seen x => if existsb (eqb_str x) seen then seen else seen ++ [x]) a seen
  = seen ++ filter (fun y => negb (existsb (eqb_str y) seen)) (unique a).
Proof.
  revert seen. induction a as [|x a IH]; intros seen.
  - simpl. now rewrite app_nil_r.
  - unfold unique. cbn [fold_left existsb app]. rewrite (IH [x]), IH.
    destruct (existsb (eqb_str x) seen) eqn:Ex.
    + f_equal. cbn [filter app]. rewrite Ex. cbn [negb].
      symmetry. apply filter_filter. intros y _ Hy.
      apply negb_true_iff in Hy. apply negb_true_iff. cbn [existsb].
      rewrite orb_false_r. apply eqb_str_neq. intros ->. congruence.
    + rewrite <- app_assoc. f_equal. cbn [filter app]. rewrite Ex. cbn [negb].
      f_equal. rewrite <- filter_both. apply filter_ext. intros y.
      rewrite existsb_app, negb_orb. reflexivity.
Qed.

(** The values come out by first appearance: the first value, then the
    distinct values of the rest without it. *)
Lemma unique_cons (x : jsstring) (a : list jsstring) :
  unique (x :: a) = x :: filter (fun y => negb (eqb_str y x)) (unique a).
Proof.
  unfold unique at 1. cbn [fold_left existsb app]. rewrite unique_from.
  cbn [app]. f_equal. apply filter_ext. intros y. cbn [existsb].
  now rewrite orb_false_r.
Qed.

(** X16.  The factory labels of the export are the labels of the rows, the
    Factory cell or "UNKNOWN", each once and never blank, in order of first
    appearance.  The export is written exactly when the sheet names made for
    the labels are distinct and no label has more than 21 letters, digits
    and underscores; otherwise an append throws and no file is written.  A
    written workbook has the sheets Data and Analytics, then one sheet per
    label in that order, then Summary, under distinct names.  The name made
    for a label is "Analytics_" followed by its letters, digits and
    underscores, and is never Data, Analytics or Summary. *)
Theorem exportWorkbook_sheet_names (rows : list object) (r0 : object) (fac : jsstring) :
  (forall wb, exportWorkbookWithAnalytics rows = Some wb ->
     map fst wb
     = [lit "Data"; lit "Analytics"] ++ map safeSheetName (factories rows)
       ++ [lit "Summary"] /\
     NoDup (map fst wb)) /\
  ((exists wb, exportWorkbookWithAnalytics rows = Some wb) <->
   NoDup (map safeSheetName (factories rows)) /\
   Forall (fun label => (List.length (filter isWordChar label) <= 21)%nat)
          (factories rows)) /\
  (In fac (factories rows) <-> exists r, In r rows /\ factoryLabel r = fac) /\
  factories (r0 :: rows)
  = factoryLabel r0 ::
    filter (fun label => negb (eqb_str label (factoryLabel r0))) (factories rows) /\
  NoDup (factories rows) /\
  Forall (fun label => label <> []) (factories rows) /\
  safeSheetName fac = lit "Analytics_" ++ filter isWordChar fac /\
  forallb isWordChar (safeSheetName fac) = true /\
  ~ In (safeSheetName fac) [lit "Data"; lit "Analytics"; lit "Summary"].
Proof.
  assert (Hlen : forall label,
            (List.length (safeSheetName label) <= 31)%nat <->
            (List.length (filter isWordChar label) <= 21)%nat).
  { intros label. rewrite safeSheetName_prefix, length_app.
    change (List.length (lit "Analytics_")) with 10%nat. lia. }
  split; [apply exportWorkbook_names|].
  split.
  { split.
    - intros [wb Hwb]. apply exportWorkbook_Some in Hwb as [_ [Hl Hnd]].
      split; [exact Hnd|]. eapply Forall_impl; [|exact Hl].
      intros label. apply Hlen.
    - intros [Hnd Hl]. eexists. apply exportWorkbook_Some.
      split; [reflexivity|]. split; [|exact Hnd].
      eapply Forall_impl; [|exact Hl]. intros label. apply Hlen. }
  split.
  { unfold factories. rewrite unique_In, in_map_iff.
    split; intros [r H]; exists r; tauto. }
  split; [unfold factories; cbn [map]; apply unique_cons|].
  split; [apply unique_nodup|].
  split.
  { apply Forall_forall. intros label H. unfold factories in H.
    apply unique_In, in_map_iff in H as [r [<- _]]. apply factoryLabel_truthy. }
  split; [apply safeSheetName_prefix|].
  split; [unfold safeSheetName; apply forallb_filter | apply safeSheetName_not_fixed].
Qed.

Lemma exportWorkbook_sheet_names_witness :
  let rows := [[(lit "Factory", lit "F200")]; [(lit "Factory", lit "")];
               [(lit "Factory", lit "F200")]] in
  (exists wb, exportWorkbookWithAnalytics rows = Some wb /\
     map fst wb = [lit "Data"; lit "Analytics"; lit "Analytics_F200";
                   lit "Analytics_UNKNOWN"; lit "Summary"]) /\
  exportWorkbookWithAnalytics [[(lit "Factory", lit "F-200")]; [(lit "Factory", lit "F200")]]
  = None.
Proof.
  intros rows. split.
  - destruct (exportWorkbook_sheet_names rows [] []) as [H1 [H2 _]].
    destruct (proj2 H2) as [wb Hwb].
    + split.
      * repeat (constructor; [vm_compute; intuition discriminate|]). constructor.
      * repeat (constructor; [vm_compute; lia|]). constructor.
    + exists wb. split; [exact Hwb|]. now destruct (H1 wb Hwb) as [E _].
  - reflexivity.
Defined.

(** ** The factory dropdown *)

Lemma factory_only (fFactory : jsstring) (r : object) :
  rowVisible fFactory (lit "all") (lit "all") [] r =
  eqb_str fFactory (lit "all") || eqb_str (field r (lit "Factory")) fFactory.
Proof.
  unfold rowVisible. change (eqb_str (lit "all") (lit "all")) with true.
  rewrite statusFilter_all. cbn [negb andb truthy].
  now destruct (eqb_str fFactory (lit "all")), (eqb_str (field r (lit "Factory")) fFactory).
Qed.

Lemma truthy_nonempty (s : jsstring) : truthy s = true <-> s <> [].
Proof. destruct s; simpl; split; congruence. Qed.

(** X17.  The factory dropdown offers "all" and then the distinct Factory
    values of the file, trimmed, blank ones left out, in sorted order.
    Choosing a value other than "all" shows the rows whose Factory cell is
    that value exactly.  So a row whose Factory cell has white space around
    it puts its trimmed value in the dropdown, and choosing that value hides
    the row. *)
Theorem factoryFilter_options (allRows : list object) :
  exists options,
    factoryFilterValues allRows = lit "all" :: options /\
    Sorted (fun a b => leb_str a b = true) options /\
    NoDup options /\
    (forall f, In f options <->
       f <> [] /\ exists r, In r allRows /\ trim (field r (lit "Factory")) = f) /\
    (forall f r, f <> lit "all" ->
       (rowVisible f (lit "all") (lit "all") [] r = true <->
        field r (lit "Factory") = f)) /\
    (forall r, In r allRows ->
       trim (field r (lit "Factory")) <> [] ->
       trim (field r (lit "Factory")) <> lit "all" ->
       trim (field r (lit "Factory")) <> field r (lit "Factory") ->
       In (trim (field r (lit "Factory"))) options /\
       rowVisible (trim (field r (lit "Factory"))) (lit "all") (lit "all") [] r = false).
Proof.
  unfold factoryFilterValues.
  set (vals := filter truthy (map (fun r => trim (field r (lit "Factory"))) allRows)).
  exists (sort (unique vals)).
  assert (Hin : forall f, In f (sort (unique vals)) <->
            f <> [] /\ exists r, In r allRows /\ trim (field r (lit "Factory")) = f).
  { intros f. rewrite <- truthy_nonempty.
    assert (P : In f (sort (unique vals)) <-> In f vals).
    { rewrite <- (unique_In vals f). split; intros H.
      - apply Permutation_in with (l := sort (unique vals)); [|exact H].
        symmetry. apply sort_perm.
      - apply Permutation_in with (l := unique vals); [apply sort_perm | exact H]. }
    rewrite P. unfold vals. rewrite filter_In, in_map_iff.
    split.
    - intros [[r [E Hr]] T]. split; [exact T|]. exists r. auto.
    - intros [T [r [Hr E]]]. split; [exists r; auto | exact T]. }
  assert (Hvis : forall f r, f <> lit "all" ->
            (rowVisible f (lit "all") (lit "all") [] r = true <->
             field r (lit "Factory") = f)).
  { intros f r Hf. rewrite factory_only. apply eqb_str_neq in Hf. rewrite Hf.
    cbn [orb]. apply eqb_str_eq. }
  split; [reflexivity|]. split; [apply sort_sorted|]. split.
  { apply Permutation_NoDup with (l := unique vals); [apply sort_perm | apply unique_nodup]. }
  split; [exact Hin|]. split; [exact Hvis|].
  intros r Hr Hne Hall Hpad. split.
  - apply Hin. split; [exact Hne|]. now exists r.
  - destruct (rowVisible _ _ _ _ r) eqn:V; [|reflexivity].
    apply Hvis in V; [|exact Hall]. congruence.
Qed.

Lemma factoryFilter_options_witness :
  let r := [(lit "Factory", lit " F200 ")] in
  In (lit "F200") (factoryFilterValues [r]) /\
  rowVisible (lit "F200") (lit "all") (lit "all") [] r = false.
Proof.
  intros r. destruct (factoryFilter_options [r]) as [options [E [_ [_ [_ [_ H]]]]]].
  destruct (H r) as [H1 H2].
  - simpl. tauto.
  - vm_compute. discriminate.
  - vm_compute. discriminate.
  - vm_compute. discriminate.
  - split; [|exact H2]. rewrite E. right. exact H1.
Defined.

(** ** Edits made on the rows of the dataset *)

(** X18.  An edit made on a row that is in the dataset is never lost: the
    lookup finds a row with the key of the edited row, at or before its
    place, and that row gets the new value.  When no other row of the dataset
    has the same key, the row that changes is the edited row itself. *)
Theorem applyEdit_on_dataset_row (allRows : list object) (r : object) (c v : jsstring) :
  In r allRows ->
  exists i row,
    findMatch allRows r = Some i /\
    nth_error allRows i = Some row /\
    identifier row = identifier r /\
    (forall j rr, (j < i)%nat -> nth_error allRows j = Some rr ->
                  identifier rr <> identifier r) /\
    applyEdit allRows r c v = updateAt i (fun row => set row c v) allRows /\
    nth_error (applyEdit allRows r c v) i = Some (set row c v) /\
    ((forall rr, In rr allRows -> identifier rr = identifier r -> rr = r) -> row = r).
Proof.
  intros Hin. unfold applyEdit, findMatch.
  destruct (findIndex (fun rr => eqb_str (identifier rr) (identifier r)) allRows)
    as [i|] eqn:E.
  - destruct (findIndex_Some _ _ _ E) as [[row [Hrow Hkey]] Hfirst].
    apply eqb_str_eq in Hkey. exists i, row.
    split; [reflexivity|]. split; [exact Hrow|]. split; [exact Hkey|]. split.
    { intros j rr Hj Hrr Hk. apply (Hfirst j rr Hj Hrr). now apply eqb_str_eq. }
    split; [reflexivity|]. split.
    + now rewrite nth_error_updateAt_same, Hrow.
    + intros Huniq. apply Huniq; [now apply nth_error_In in Hrow | exact Hkey].
  - pose proof (findIndex_None _ _ E r Hin) as H. cbv beta in H.
    rewrite eqb_str_refl in H. discriminate.
Qed.

Lemma applyEdit_on_dataset_row_witness :
  let a := [(lit "NO", lit "1"); (lit "BoxNum", lit "7"); (lit "REMARKS", lit "")] in
  let b := [(lit "NO", lit "2"); (lit "BoxNum", lit "7"); (lit "REMARKS", lit "")] in
  exists i row, findMatch [a; b] b = Some i /\ nth_error [a; b] i = Some row /\
                identifier row = identifier b.
Proof.
  intros a b.
  destruct (applyEdit_on_dataset_row [a; b] b (lit "REMARKS") (lit "Done"))
    as [i [row [H1 [H2 [H3 _]]]]].
  - simpl. tauto.
  - exists i, row. auto.
Defined.

(** ** Percentages of small groups *)

(** X19.  While the dataset has fewer than forty rows, every percentage on
    an analytics sheet is the exactly rounded one: each record shows
    100 * finished / total rounded to the nearest integer, halves up, and 0
    for an empty dataset. *)
Theorem buildAnalytics_percent_exact_below_40 (rows : list object) :
  (List.length rows < 40)%nat ->
  Forall (fun rec =>
            AnalyticsRow.CompletionPercent rec
            = percentText (exactPercent (AnalyticsRow.Finished rec)
                                        (AnalyticsRow.TotalBoxes rec)))
         (buildAnalytics rows).
Proof.
  intros Hlen. destruct (buildAnalytics_shape rows) as [E _].
  rewrite E, buildAnalytics_all. apply Forall_app. split.
  - apply Forall_forall. intros rec Hrec. apply in_map_iff in Hrec as [k [<- _]].
    pose proof (tally_bounds (filter (inGroup k) rows)) as Hb.
    pose proof (filter_length_le (inGroup k) rows) as Hl.
    unfold analyticsRowOf.
    cbn [AnalyticsRow.CompletionPercent AnalyticsRow.Finished AnalyticsRow.TotalBoxes].
    f_equal. apply percentOf_exact_below_40; [exact Hb|].
    unfold tally. cbn [total]. lia.
  - constructor; [|constructor].
    pose proof (tally_bounds (filter counted rows)) as Hb.
    pose proof (filter_length_le counted rows) as Hl. unfold analyticsRowOf.
    cbn [AnalyticsRow.CompletionPercent AnalyticsRow.Finished AnalyticsRow.TotalBoxes].
    f_equal. apply percentOf_exact_below_40; [exact Hb|].
    unfold tally. cbn [total]. lia.
Qed.

Lemma buildAnalytics_percent_exact_below_40_witness :
  Forall (fun rec =>
            AnalyticsRow.CompletionPercent rec
            = percentText (exactPercent (AnalyticsRow.Finished rec)
                                        (AnalyticsRow.TotalBoxes rec)))
         (buildAnalytics [[(lit "ContainerNum", lit "1"); (lit "REMARKS", lit "Done")];
                          [(lit "ContainerNum", lit "1"); (lit "REMARKS", lit "")];
                          [(lit "ContainerNum", lit "2"); (lit "REMARKS", lit "")]]).
Proof.
  apply buildAnalytics_percent_exact_below_40. simpl. lia.
Defined.

(** ** Columns found through an alias *)

Lemma includes_refl (s : jsstring) : includes s s = true.
Proof. apply includes_app. exists [], []. now rewrite app_nil_r. Qed.

Lemma find_congr {A} (p q : A -> bool) (l : list A) :
  (forall x, p x = q x) -> find p l = find q l.
Proof.
  intros H. induction l as [|x l IH]; simpl; [reflexivity|].
  now rewrite H, IH.
Qed.

Lemma find_found {A} (p : A -> bool) (l : list A) :
  match find p l with Some _ => true | None => false end = existsb p l.
Proof.
  induction l as [|x l IH]; simpl; [reflexivity|].
  now destruct (p x).
Qed.

Lemma existsb_reverse {A} (p : A -> bool) (l : list A) :
  existsb p (rev l) = existsb p l.
Proof.
  induction l as [|x l IH]; simpl; [reflexivity|].
  rewrite existsb_app, IH. simpl. rewrite orb_false_r. apply orb_comm.
Qed.

Lemma first_present {A B} (p : A -> bool) (g : A -> option B) (l : list A) :
  let present x := match g x with Some _ => true | None => false end in
  orElse match find p l with Some x => g x | None => None end
         match find (fun x => p x && present x) l with Some x => g x | None => None end
  = match find (fun x => p x && present x) l with Some x => g x | None => None end.
Proof.
  intros present. induction l as [|x l IH]; simpl; [reflexivity|].
  destruct (p x) eqn:Px; simpl; [|exact IH].
  unfold present at 1 3. destruct (g x) as [b|] eqn:Gx.
  - now rewrite Gx.
  - reflexivity.
Qed.

Lemma space_key_of_no_header (r : object) (k : jsstring) :
  existsb (fun c => negb (isWordChar c)) k = true -> get (headerMap r) k = None.
Proof.
  intros Hk. rewrite headerMap_get. apply find_nothing. intros h _.
  apply eqb_str_neq. intros E. subst k. rewrite normalizeKey_closed in Hk.
  apply existsb_exists in Hk as [c [Hc Hw]].
  unfold toLowerCase in Hc. apply in_map_iff in Hc as [d [<- Hd]].
  apply filter_In in Hd as [_ Hd]. now rewrite word_lower, Hd in Hw.
Qed.

(** X20.  In a row none of whose headers has a key that contains the
    column's key or is contained in it, a canonical column is found through
    the alias table alone: it takes the header of the first alias of the
    column, in table order, that is the key of some header of the row (the
    last such header), and stays blank when no alias of the column is.  An
    alias that has a unit outside letters, digits and underscore, such as
    "box no", "box number" and "inspection status", is the key of no header
    of any row. *)
Theorem resolveColumn_by_alias (r : object) (col : jsstring) :
  (forall h, In h (keys r) ->
             includes (normalizeKey h) (normalizeKey col) = false /\
             includes (normalizeKey col) (normalizeKey h) = false) ->
  resolveColumn r col =
    match find (fun kv => eqb_str (snd kv) col &&
                          existsb (fun h => eqb_str (normalizeKey h) (fst kv)) (keys r))
               COLUMN_ALIASES with
    | Some kv => find (fun h => eqb_str (normalizeKey h) (fst kv)) (rev (keys r))
    | None => None
    end /\
  forall r' k, In k [lit "box no"; lit "box number"; lit "inspection status"] ->
               getTruthy (headerMap r') k = None.
Proof.
  intros H. split.
  - assert (Ht : forall h, In h (keys r) -> truthy h = true).
    { intros h Hh. destruct (H h Hh) as [_ E]. destruct h; [|reflexivity].
      rewrite normalizeKey_nil, includes_empty in E. discriminate. }
    assert (G : forall k, getTruthy (headerMap r) k
                          = find (fun h => eqb_str (normalizeKey h) k) (rev (keys r))).
    { intros k. unfold getTruthy. rewrite headerMap_get.
      destruct (find _ (rev (keys r))) as [h|] eqn:E; [|reflexivity].
      apply find_some in E as [E _]. apply in_rev in E. now rewrite (Ht h E). }
    assert (N : forall h, In h (keys r) ->
                          eqb_str (normalizeKey h) (normalizeKey col) = false).
    { intros h Hh. apply eqb_str_neq. intros E. destruct (H h Hh) as [E1 _].
      rewrite E, includes_refl in E1. discriminate. }
    unfold resolveColumn. cbv zeta.
    rewrite (G (normalizeKey col)).
    rewrite (find_nothing _ (rev (keys r)))
      by (intros h Hh; apply N; now apply in_rev).
    unfold findHeader, headerKeys.
    rewrite (find_nothing (fun h => eqb_str (normalizeKey h) (normalizeKey col)) (keys r))
      by exact N.
    rewrite (find_nothing (fun h => includes (normalizeKey h) (normalizeKey col)
                                    || includes (normalizeKey col) (normalizeKey h))
                          (keys r))
      by (intros h Hh; destruct (H h Hh) as [-> ->]; reflexivity).
    cbn [orElse].
    rewrite (first_present (fun kv => eqb_str (snd kv) col)
                           (fun kv => getTruthy (headerMap r) (fst kv)) COLUMN_ALIASES).
    rewrite (find_congr
               (fun kv => eqb_str (snd kv) col &&
                          match getTruthy (headerMap r) (fst kv) with
                          | Some _ => true | None => false end)
               (fun kv => eqb_str (snd kv) col &&
                          existsb (fun h => eqb_str (normalizeKey h) (fst kv)) (keys r))).
    + destruct (find _ COLUMN_ALIASES) as [kv|]; [apply G | reflexivity].
    + intros kv. f_equal. rewrite G, find_found. apply existsb_reverse.
  - intros r' k Hk. unfold getTruthy. rewrite space_key_of_no_header; [reflexivity|].
    simpl in Hk. repeat (destruct Hk as [<- | Hk]; [reflexivity|]). destruct Hk.
Qed.

Lemma resolveColumn_by_alias_witness :
  resolveColumn [(lit "Box No", lit "7"); (lit "Status", lit "Done")] (lit "BoxNum")
  = Some (lit "Box No").
Proof.
  destruct (resolveColumn_by_alias [(lit "Box No", lit "7"); (lit "Status", lit "Done")]
                                   (lit "BoxNum")) as [E _].
  - intros h Hh. simpl in Hh.
    destruct Hh as [<- | [<- | []]]; split; reflexivity.
  - rewrite E. reflexivity.
Defined.
